(** * A shallow embedding of the chat gateway's request pipeline

    The development follows the Python sources of the gateway:

    - [app/api/routes/messages.py]: [_sse_format], [_stream_with_timeout],
      [_canonical_handler] with its nested generator [event_gen], and the
      OpenAI-compatible generator [sse_gen];
    - [app/api/routes/conversations.py]: the list, read, update and delete
      routes;
    - [app/crud.py], [app/models.py]: conversations and chat messages;
    - [app/utils/idempotency.py], [app/utils/rate_limit.py],
      [app/utils/usage_callback.py];
    - [app/providers/openai_provider.py], [app/services/router.py].

    Python values are modelled as the code has them: [str] as [string] (one
    element of a [string] stands for one Python character with a code point
    below 256), [int] as [Z], [None]-able values as [option], a [dict] with
    string keys as an ordered association list, the registries and the table
    of conversations as [gmap].  Effects (clock, database, caches, upstream
    calls, logging, exceptions) are threaded through a state and exception
    monad [M]; an asynchronous generator driven to its end is a [Trace]: the
    items it yielded and the exception, if any, that ended it. *)

From Stdlib Require Import ZArith Ascii String List Lia Bool Sorted Permutation.
From stdpp Require Import base strings gmap list pretty.

#[local] Set Warnings "-register-all".

Open Scope string_scope.
Open Scope Z_scope.

(** ** Python strings *)

Module Py.

Definition dquote : ascii := "034"%char.
Definition newline : ascii := "010"%char.
Definition nl : string := String newline EmptyString.
Definition dq : string := String dquote EmptyString.

(** [bool(s)] for a [str]: the empty string is falsy. *)
Definition truthy (s : string) : bool :=
  match s with EmptyString => false | String _ _ => true end.

(** [bool(o)] for an optional [str] ([None] and the empty string are falsy). *)
Definition truthy_opt (o : option string) : bool :=
  match o with None => false | Some s => truthy s end.

(** [len(s)] *)
Definition len (s : string) : Z := Z.of_nat (String.length s).

(** [s[:n]] *)
Definition slice_to (n : nat) (s : string) : string := String.substring 0 n s.

(** [s.startswith(p)] *)
Definition startswith (p s : string) : bool := String.prefix p s.

(** [needle in s] *)
Fixpoint contains (needle s : string) : bool :=
  String.prefix needle s ||
  match s with
  | EmptyString => false
  | String _ rest => contains needle rest
  end.

End Py.

(** ** JSON values and [json.dumps] *)

Module Json.

Inductive json : Type :=
| JNull
| JBool (b : bool)
| JInt (z : Z)
| JStr (s : string)
| JArr (items : list json)
| JObj (members : list (string * json)).

Definition of_opt_str (o : option string) : json :=
  match o with None => JNull | Some s => JStr s end.

Definition of_opt_int (o : option Z) : json :=
  match o with None => JNull | Some z => JInt z end.

(** A Python [dict] with string keys keeps insertion order; [d[k] = v]
    overwrites in place when the key is present and appends otherwise. *)
Fixpoint dict_set (k : string) (v : json) (d : list (string * json))
  : list (string * json) :=
  match d with
  | [] => [(k, v)]
  | (k', v') :: rest =>
      if String.eqb k k' then (k, v) :: rest else (k', v') :: dict_set k v rest
  end.

Fixpoint dict_get (k : string) (d : list (string * json)) : option json :=
  match d with
  | [] => None
  | (k', v) :: rest => if String.eqb k k' then Some v else dict_get k rest
  end.

Definition has_key (k : string) (v : json) : bool :=
  match v with
  | JObj d => match dict_get k d with Some _ => true | None => false end
  | _ => false
  end.

(** Truth value of a decoded JSON document ([if cached:]). *)
Definition truthy (v : json) : bool :=
  match v with
  | JNull => false
  | JBool b => b
  | JInt z => negb (z =? 0)
  | JStr s => Py.truthy s
  | JArr l => match l with [] => false | _ => true end
  | JObj d => match d with [] => false | _ => true end
  end.

Definition hex_digit (n : N) : ascii :=
  if (n <? 10)%N then ascii_of_N (48 + n) else ascii_of_N (87 + n).

(** ['\\u{0:04x}'.format(n)] for a code point below 256. *)
Definition u_escape (c : ascii) : string :=
  let n := N_of_ascii c in
  "\u00" ++ String (hex_digit (n / 16)) (String (hex_digit (n mod 16)) "").

(** The escape table of the [json] encoder: the named escapes, the control
    characters, and with [ensure_ascii] everything outside [' '..'~']. *)
Definition escape_char (ensure_ascii : bool) (c : ascii) : string :=
  let n := N_of_ascii c in
  if (n =? 34)%N then "\" ++ Py.dq
  else if (n =? 92)%N then "\\"
  else if (n =? 10)%N then "\n"
  else if (n =? 13)%N then "\r"
  else if (n =? 9)%N then "\t"
  else if (n =? 8)%N then "\b"
  else if (n =? 12)%N then "\f"
  else if (n <? 32)%N then u_escape c
  else if ensure_ascii && (126 <? n)%N then u_escape c
  else String c "".

Fixpoint escape (ensure_ascii : bool) (s : string) : string :=
  match s with
  | EmptyString => EmptyString
  | String c rest => escape_char ensure_ascii c ++ escape ensure_ascii rest
  end.

Definition quote (ensure_ascii : bool) (s : string) : string :=
  Py.dq ++ escape ensure_ascii s ++ Py.dq.

Record dump_opts := {
  ensure_ascii : bool;
  item_separator : string;
  key_separator : string
}.

(** [json.dumps(v)] *)
Definition default_opts : dump_opts :=
  {| ensure_ascii := true; item_separator := ", "; key_separator := ": " |}.

(** [json.dumps(v, ensure_ascii=False)] *)
Definition sse_opts : dump_opts :=
  {| ensure_ascii := false; item_separator := ", "; key_separator := ": " |}.

(** [JSONResponse.render]: compact separators, [ensure_ascii=False]. *)
Definition render_opts : dump_opts :=
  {| ensure_ascii := false; item_separator := ","; key_separator := ":" |}.

Fixpoint dumps (o : dump_opts) (v : json) : string :=
  match v with
  | JNull => "null"
  | JBool true => "true"
  | JBool false => "false"
  | JInt z => pretty z
  | JStr s => quote (ensure_ascii o) s
  | JArr items =>
      "[" ++
      (fix go (l : list json) : string :=
         match l with
         | [] => ""
         | [x] => dumps o x
         | x :: rest => dumps o x ++ item_separator o ++ go rest
         end) items ++ "]"
  | JObj members =>
      "{" ++
      (fix go (l : list (string * json)) : string :=
         match l with
         | [] => ""
         | [(k, x)] => quote (ensure_ascii o) k ++ key_separator o ++ dumps o x
         | (k, x) :: rest =>
             quote (ensure_ascii o) k ++ key_separator o ++ dumps o x
             ++ item_separator o ++ go rest
         end) members ++ "}"
  end.


(** The parts of [dumps] that write the items of an array and the members
    of an object, by name. *)
Fixpoint dumps_items (o : dump_opts) (l : list json) : string :=
  match l with
  | [] => ""
  | [x] => dumps o x
  | x :: rest => dumps o x ++ item_separator o ++ dumps_items o rest
  end.

Fixpoint dumps_members (o : dump_opts) (l : list (string * json)) : string :=
  match l with
  | [] => ""
  | [(k, x)] => quote (ensure_ascii o) k ++ key_separator o ++ dumps o x
  | (k, x) :: rest =>
      quote (ensure_ascii o) k ++ key_separator o ++ dumps o x
      ++ item_separator o ++ dumps_members o rest
  end.

(** The number of nodes of a document, each item counted once more. *)
Fixpoint size (v : json) : nat :=
  match v with
  | JArr items =>
      S ((fix go (l : list json) : nat :=
            match l with [] => O | x :: rest => S (size x + go rest) end) items)
  | JObj members =>
      S ((fix go (l : list (string * json)) : nat :=
            match l with [] => O | (_, x) :: rest => S (size x + go rest) end) members)
  | _ => 1%nat
  end.

Fixpoint size_items (l : list json) : nat :=
  match l with [] => O | x :: rest => S (size x + size_items rest) end.

Fixpoint size_members (l : list (string * json)) : nat :=
  match l with [] => O | (_, x) :: rest => S (size x + size_members rest) end.

(** *** [json.loads]

    A recursive-descent decoder for the documents [dumps] writes (and
    their whitespace variants).  Numbers with a fraction or an exponent
    and [\u] escapes above 255 have no counterpart in [json] and are
    refused, and an object keeps every member of a repeated key where
    Python keeps the last value: the decoder agrees with [json.loads] on
    what [dumps] writes for a [dict], and is used on nothing else.  The
    fuel bounds the nesting and the number of items. *)

Definition is_ws (c : ascii) : bool :=
  let n := N_of_ascii c in
  ((n =? 32) || (n =? 9) || (n =? 10) || (n =? 13))%N.

Fixpoint skip_ws (s : string) : string :=
  match s with
  | String c r => if is_ws c then skip_ws r else s
  | EmptyString => s
  end.

Definition digit_val (c : ascii) : option Z :=
  let n := N_of_ascii c in
  if ((48 <=? n) && (n <=? 57))%N then Some (Z.of_N (n - 48)) else None.

Fixpoint parse_digits (acc : Z) (s : string) : Z * string :=
  match s with
  | String c r =>
      match digit_val c with
      | Some d => parse_digits (10 * acc + d) r
      | None => (acc, s)
      end
  | EmptyString => (acc, s)
  end.

Definition float_tail (s : string) : bool :=
  match s with
  | String c _ =>
      let n := N_of_ascii c in ((n =? 46) || (n =? 101) || (n =? 69))%N
  | EmptyString => false
  end.

Definition digit_next (s : string) : bool :=
  match s with
  | String c _ => match digit_val c with Some _ => true | None => false end
  | EmptyString => false
  end.

Definition parse_nat (s : string) : option (Z * string) :=
  match s with
  | String c r =>
      match digit_val c with
      | Some d =>
          if (d =? 0) && digit_next r then None
          else
            let '(n, r') := parse_digits d r in
            if float_tail r' then None else Some (n, r')
      | None => None
      end
  | EmptyString => None
  end.

Definition parse_int (s : string) : option (Z * string) :=
  match s with
  | String "-"%char r =>
      match parse_nat r with
      | Some (n, r') => Some (- n, r')
      | None => None
      end
  | _ => parse_nat s
  end.

Definition hex_val (c : ascii) : option N :=
  let n := N_of_ascii c in
  if ((48 <=? n) && (n <=? 57))%N then Some (n - 48)%N
  else if ((97 <=? n) && (n <=? 102))%N then Some (n - 87)%N
  else if ((65 <=? n) && (n <=? 70))%N then Some (n - 55)%N
  else None.

Definition unescape_u (h1 h2 h3 h4 : ascii) : option ascii :=
  match hex_val h1, hex_val h2, hex_val h3, hex_val h4 with
  | Some a, Some b, Some c, Some d =>
      let n := (a * 4096 + b * 256 + c * 16 + d)%N in
      if (n <? 256)%N then Some (ascii_of_N n) else None
  | _, _, _, _ => None
  end.

Definition unescape_simple (e : ascii) : option ascii :=
  let n := N_of_ascii e in
  if (n =? 34)%N then Some Py.dquote
  else if (n =? 92)%N then Some "\"%char
  else if (n =? 47)%N then Some "/"%char
  else if (n =? 110)%N then Some "010"%char
  else if (n =? 114)%N then Some "013"%char
  else if (n =? 116)%N then Some "009"%char
  else if (n =? 98)%N then Some "008"%char
  else if (n =? 102)%N then Some "012"%char
  else None.

(** The text after an opening quote, up to the closing one. *)
Fixpoint parse_string_body (s : string) : option (string * string) :=
  match s with
  | EmptyString => None
  | String c r =>
      let n := N_of_ascii c in
      if (n =? 34)%N then Some (EmptyString, r)
      else if (n =? 92)%N then
        match r with
        | String "u"%char (String h1 (String h2 (String h3 (String h4 r')))) =>
            match unescape_u h1 h2 h3 h4, parse_string_body r' with
            | Some x, Some (body, rest) => Some (String x body, rest)
            | _, _ => None
            end
        | String e r' =>
            match unescape_simple e, parse_string_body r' with
            | Some x, Some (body, rest) => Some (String x body, rest)
            | _, _ => None
            end
        | EmptyString => None
        end
      else if (n <? 32)%N then None
      else
        match parse_string_body r with
        | Some (body, rest) => Some (String c body, rest)
        | None => None
        end
  end.

Fixpoint parse_value (fuel : nat) (s : string) {struct fuel}
  : option (json * string) :=
  match fuel with
  | O => None
  | S f =>
      match skip_ws s with
      | EmptyString => None
      | String "n"%char (String "u"%char (String "l"%char (String "l"%char r))) =>
          Some (JNull, r)
      | String "t"%char (String "r"%char (String "u"%char (String "e"%char r))) =>
          Some (JBool true, r)
      | String "f"%char
          (String "a"%char (String "l"%char (String "s"%char (String "e"%char r)))) =>
          Some (JBool false, r)
      | String "["%char r =>
          match skip_ws r with
          | String "]"%char r' => Some (JArr [], r')
          | _ =>
              match parse_items f r with
              | Some (l, r') => Some (JArr l, r')
              | None => None
              end
          end
      | String "{"%char r =>
          match skip_ws r with
          | String "}"%char r' => Some (JObj [], r')
          | _ =>
              match parse_members f r with
              | Some (l, r') => Some (JObj l, r')
              | None => None
              end
          end
      | String c r =>
          if (N_of_ascii c =? 34)%N then
            match parse_string_body r with
            | Some (x, r') => Some (JStr x, r')
            | None => None
            end
          else
            match parse_int (String c r) with
            | Some (z, r') => Some (JInt z, r')
            | None => None
            end
      end
  end
with parse_items (fuel : nat) (s : string) {struct fuel}
  : option (list json * string) :=
  match fuel with
  | O => None
  | S f =>
      match parse_value f s with
      | Some (v, r) =>
          match skip_ws r with
          | String ","%char r' =>
              match parse_items f r' with
              | Some (l, r'') => Some (v :: l, r'')
              | None => None
              end
          | String "]"%char r' => Some ([v], r')
          | _ => None
          end
      | None => None
      end
  end
with parse_members (fuel : nat) (s : string) {struct fuel}
  : option (list (string * json) * string) :=
  match fuel with
  | O => None
  | S f =>
      match skip_ws s with
      | String c r =>
          if (N_of_ascii c =? 34)%N then
            match parse_string_body r with
            | Some (k, r1) =>
                match skip_ws r1 with
                | String ":"%char r2 =>
                    match parse_value f r2 with
                    | Some (v, r3) =>
                        match skip_ws r3 with
                        | String ","%char r4 =>
                            match parse_members f r4 with
                            | Some (l, r5) => Some ((k, v) :: l, r5)
                            | None => None
                            end
                        | String "}"%char r4 => Some ([(k, v)], r4)
                        | _ => None
                        end
                    | None => None
                    end
                | _ => None
                end
            | None => None
            end
          else None
      | EmptyString => None
      end
  end.

(** [json.loads(raw)]; [None] stands for the decoder's exception. *)
Definition loads (raw : string) : option json :=
  match parse_value (S (String.length raw)) raw with
  | Some (v, rest) =>
      match skip_ws rest with
      | EmptyString => Some v
      | String _ _ => None
      end
  | None => None
  end.

(** A text at which the decoder stops reading a number. *)
Definition stops_number (rest : string) : Prop :=
  digit_next rest = false /\ float_tail rest = false.

(** The decoder reads [v] back from its text, whatever follows. *)
Definition reads_back (v : json) : Prop :=
  forall f rest,
    (size v < f)%nat -> stops_number rest ->
    parse_value f (dumps default_opts v ++ rest) = Some (v, rest).

(** The text of [v] is at least as long as [v] is large. *)
Definition fits (v : json) : Prop :=
  (size v <= String.length (dumps default_opts v))%nat.

End Json.

(** ** Exceptions, the world, and the effect monad *)

Module Runtime.

(** The exceptions the pipeline raises or meets.  [CancelledError] derives
    from [BaseException] only, so [except Exception] does not catch it. *)
Inductive Exn : Type :=
| ValueError (msg : string)
| IndexError (msg : string)
| DBError (msg : string)
| UpstreamError (msg : string)
| CircuitBreakerError (msg : string)
| HTTPException (status : Z) (detail : string)
| TimeoutError
| CancelledError.

Definition is_Exception (e : Exn) : bool :=
  match e with CancelledError => false | _ => true end.

Definition is_ValueError_or_TypeError (e : Exn) : bool :=
  match e with ValueError _ => true | _ => false end.

(** [str(e)] *)
Definition str (e : Exn) : string :=
  match e with
  | ValueError m | IndexError m | DBError m | UpstreamError m
  | CircuitBreakerError m => m
  | HTTPException _ d => d
  | TimeoutError | CancelledError => ""
  end.

Inductive Result (A : Type) : Type :=
| Ok (a : A)
| Raise (e : Exn).
Arguments Ok {A} a.
Arguments Raise {A} e.

(** An asynchronous generator driven until it stops: what it yielded, in
    order, and the exception that ended it ([None]: it ran to its end). *)
Record Trace (Y : Type) : Type := mkTrace {
  emitted : list Y;
  outcome : option Exn
}.
Arguments mkTrace {Y} emitted outcome.
Arguments emitted {Y} t.
Arguments outcome {Y} t.

Definition UUID := N.

(** [models.Conversation] *)
Record Conversation := mkConversation {
  c_id : UUID;
  c_title : option string;
  c_api_key_hash : option string;
  c_created_at : Z;
  c_updated_at : Z
}.

(** [models.ChatMessage] *)
Record ChatMessage := mkChatMessage {
  m_id : UUID;
  m_conversation_id : UUID;
  m_role : string;
  m_content : string;
  m_model : option string;
  m_created_at : Z;
  m_request_id : option string;
  m_finish_reason : option string;
  m_prompt_tokens : option Z;
  m_completion_tokens : option Z;
  m_total_tokens : option Z;
  m_elapsed_ms : option Z
}.

(** One entry of the idempotency store: the raw JSON text and the instant
    (milliseconds) at which it expires. *)
Record CacheEntry := mkCacheEntry {
  ce_key : string;
  ce_raw : string;
  ce_expires : Z
}.

(** [pybreaker.CircuitBreaker]: the state and the consecutive-failure
    counter. *)
Inductive BreakerState : Type :=
| Closed
| Open (opened_at : Z)
| HalfOpen.

Record Breaker := mkBreaker {
  fail_counter : nat;
  state : BreakerState
}.

(** The timeout armed by [asyncio.timeout] on the running task. *)
Inductive Deadline : Type :=
| NoDeadline
| Armed (at_ms : Z)
| Fired.

Record LogEntry := mkLog {
  log_level : string;
  log_event : string;
  log_detail : string
}.

Record World := mkWorld {
  now : Z;                                  (* wall clock, milliseconds *)
  deadline : Deadline;
  limiters : gmap string nat;               (* rate_limit._limiters *)
  cache : list CacheEntry;                  (* oldest entry first *)
  conversations : gmap UUID Conversation;
  chat_messages : list ChatMessage;         (* in insertion order *)
  next_uuid : N;
  db_budget : option nat;                   (* commits left before the database fails *)
  breaker : Breaker;                        (* openai_breaker *)
  upstream_calls : nat;                     (* calls of chat.completions.create *)
  usage_posts : list Json.json;             (* payloads handed to send_usage *)
  log : list LogEntry
}.

Definition set_now (t : Z) (w : World) : World :=
  mkWorld t (deadline w) (limiters w) (cache w) (conversations w)
    (chat_messages w) (next_uuid w) (db_budget w) (breaker w)
    (upstream_calls w) (usage_posts w) (log w).
Definition set_deadline (d : Deadline) (w : World) : World :=
  mkWorld (now w) d (limiters w) (cache w) (conversations w)
    (chat_messages w) (next_uuid w) (db_budget w) (breaker w)
    (upstream_calls w) (usage_posts w) (log w).
Definition set_limiters (l : gmap string nat) (w : World) : World :=
  mkWorld (now w) (deadline w) l (cache w) (conversations w)
    (chat_messages w) (next_uuid w) (db_budget w) (breaker w)
    (upstream_calls w) (usage_posts w) (log w).
Definition set_cache (c : list CacheEntry) (w : World) : World :=
  mkWorld (now w) (deadline w) (limiters w) c (conversations w)
    (chat_messages w) (next_uuid w) (db_budget w) (breaker w)
    (upstream_calls w) (usage_posts w) (log w).
Definition set_conversations (c : gmap UUID Conversation) (w : World) : World :=
  mkWorld (now w) (deadline w) (limiters w) (cache w) c
    (chat_messages w) (next_uuid w) (db_budget w) (breaker w)
    (upstream_calls w) (usage_posts w) (log w).
Definition set_chat_messages (l : list ChatMessage) (w : World) : World :=
  mkWorld (now w) (deadline w) (limiters w) (cache w) (conversations w)
    l (next_uuid w) (db_budget w) (breaker w)
    (upstream_calls w) (usage_posts w) (log w).
Definition set_next_uuid (n : N) (w : World) : World :=
  mkWorld (now w) (deadline w) (limiters w) (cache w) (conversations w)
    (chat_messages w) n (db_budget w) (breaker w)
    (upstream_calls w) (usage_posts w) (log w).
Definition set_db_budget (b : option nat) (w : World) : World :=
  mkWorld (now w) (deadline w) (limiters w) (cache w) (conversations w)
    (chat_messages w) (next_uuid w) b (breaker w)
    (upstream_calls w) (usage_posts w) (log w).
Definition set_breaker (b : Breaker) (w : World) : World :=
  mkWorld (now w) (deadline w) (limiters w) (cache w) (conversations w)
    (chat_messages w) (next_uuid w) (db_budget w) b
    (upstream_calls w) (usage_posts w) (log w).
Definition set_upstream_calls (n : nat) (w : World) : World :=
  mkWorld (now w) (deadline w) (limiters w) (cache w) (conversations w)
    (chat_messages w) (next_uuid w) (db_budget w) (breaker w)
    n (usage_posts w) (log w).
Definition set_usage_posts (l : list Json.json) (w : World) : World :=
  mkWorld (now w) (deadline w) (limiters w) (cache w) (conversations w)
    (chat_messages w) (next_uuid w) (db_budget w) (breaker w)
    (upstream_calls w) l (log w).
Definition set_log (l : list LogEntry) (w : World) : World :=
  mkWorld (now w) (deadline w) (limiters w) (cache w) (conversations w)
    (chat_messages w) (next_uuid w) (db_budget w) (breaker w)
    (upstream_calls w) (usage_posts w) l.

(** State and exception monad over the world. *)
Definition M (A : Type) : Type := World -> Result A * World.

Definition ret {A} (a : A) : M A := fun w => (Ok a, w).

Definition bind {A B} (m : M A) (k : A -> M B) : M B :=
  fun w =>
    match m w with
    | (Ok a, w') => k a w'
    | (Raise e, w') => (Raise e, w')
    end.

Definition raise {A} (e : Exn) : M A := fun w => (Raise e, w).

Definition gets {A} (f : World -> A) : M A := fun w => (Ok (f w), w).

Definition modify (f : World -> World) : M unit := fun w => (Ok tt, f w).

(** [try: body except <class> as e: handler e] *)
Definition try_except {A} (body : M A) (catches : Exn -> bool)
    (handler : Exn -> M A) : M A :=
  fun w =>
    match body w with
    | (Ok a, w') => (Ok a, w')
    | (Raise e, w') => if catches e then handler e w' else (Raise e, w')
    end.

(** Runs [m] and hands its result back as a value, whatever it is. *)
Definition attempt {A} (m : M A) : M (Result A) :=
  fun w => match m w with (r, w') => (Ok r, w') end.

Definition when (b : bool) (m : M unit) : M unit :=
  if b then m else ret tt.

Fixpoint for_each {A} (l : list A) (body : A -> M unit) : M unit :=
  match l with
  | [] => ret tt
  | x :: rest => bind (body x) (fun _ => for_each rest body)
  end.

Definition logger (level event detail : string) : M unit :=
  modify (fun w => set_log (log w ++ [mkLog level event detail]) w).

(** A suspension point that completes after [d] milliseconds.  When a
    deadline is armed and falls within the wait, the task is cancelled
    at the deadline: [CancelledError] is raised here, once. *)
Definition await_ (d : N) : M unit :=
  fun w =>
    let t := now w + Z.of_N d in
    match deadline w with
    | Armed at_ms =>
        if at_ms <=? t
        then (Raise CancelledError,
              set_deadline Fired (set_now (Z.max (now w) at_ms) w))
        else (Ok tt, set_now t w)
    | _ => (Ok tt, set_now t w)
    end.

(** [time.time()], in milliseconds. *)
Definition time_ms : M Z := gets now.

End Runtime.

Declare Scope monad_scope.
Delimit Scope monad_scope with monad.
Notation "x <- c1 ;; c2" := (Runtime.bind c1 (fun x => c2))
  (at level 100, c1 at next level, right associativity) : monad_scope.
Notation "c1 ;; c2" := (Runtime.bind c1 (fun _ => c2))
  (at level 100, right associativity) : monad_scope.

Open Scope monad_scope.

(** ** Configuration and the collaborators outside the gateway *)

Module Environment.

(** [app.core.config.settings]: the values the pipeline reads. *)
Record Settings := mkSettings {
  CB_FAIL_MAX : nat;
  CB_RESET_TIMEOUT : Z;                 (* seconds *)
  IDEMPOTENCY_TTL_SECONDS : Z;
  REDIS_URL : option string;
  USAGE_CALLBACK_URL : option string
}.

(** What the vendor SDK delivers.  Every item carries the time, in
    milliseconds, the caller stays suspended before it arrives. *)
Record RawChoice := mkRawChoice {
  ch_content : option string;
  ch_finish_reason : option string
}.

Record RawEvent := mkRawEvent {
  ev_delay : N;
  ev_id : string;
  ev_model : string;
  ev_choices : list RawChoice
}.

Inductive StreamEnd : Type :=
| EndOfStream (delay : N)
| StreamBreaks (delay : N) (msg : string).

(** One call of [chat.completions.create(stream=True)]. *)
Inductive StreamAttempt : Type :=
| ConnectFails (delay : N) (msg : string)
| Connected (delay : N) (events : list RawEvent) (fin : StreamEnd).

Record RawUsage := mkRawUsage {
  u_prompt_tokens : Z;
  u_completion_tokens : Z;
  u_total_tokens : Z
}.

Record RawCompletion := mkRawCompletion {
  rc_id : string;
  rc_model : string;
  rc_choices : list RawChoice;
  rc_usage : option RawUsage
}.

(** One call of [chat.completions.create(stream=False)]. *)
Inductive CompletionAttempt : Type :=
| CallFails (delay : N) (msg : string)
| Completes (delay : N) (resp : RawCompletion).

(** The billing collector behind [USAGE_CALLBACK_URL]: how long a post
    takes, and whether it succeeds (a time-out of the client is one of the
    failures). *)
Record Collector := mkCollector {
  post_delay : N;
  post_ok : bool
}.

Record Env := mkEnv {
  settings : Settings;
  py_hash : string -> Z;                      (* the built-in hash() on str *)
  uuid_parse : string -> option Runtime.UUID; (* uuid.UUID(s); None: ValueError *)
  uuid_str : Runtime.UUID -> string;          (* str(u) *)
  upstream_stream : nat -> StreamAttempt;     (* n-th call of create, streamed *)
  upstream_completion : nat -> CompletionAttempt;
  collector : Collector
}.

End Environment.

(** ** [app/crud.py] *)

Module Crud.
Import Runtime.

(** [datetime.utcnow()] *)
Definition utcnow : M Z := gets now.

(** [uuid.uuid4()]: identifiers are drawn from a supply and never reused. *)
Definition uuid4 : M UUID :=
  fun w => (Ok (next_uuid w), set_next_uuid (N.succ (next_uuid w)) w).

(** [session.commit()]: fails once the database has become unavailable. *)
Definition commit : M unit :=
  fun w =>
    match db_budget w with
    | None => (Ok tt, w)
    | Some (S n) => (Ok tt, set_db_budget (Some n) w)
    | Some O => (Raise (DBError "database unavailable"), w)
    end.

Definition create_conversation (title api_key_hash : option string)
  : M Conversation :=
  t <- utcnow ;;
  id <- uuid4 ;;
  let db_conversation := mkConversation id title api_key_hash t t in
  commit ;;
  modify (fun w => set_conversations (<[id := db_conversation]> (conversations w)) w) ;;
  ret db_conversation.

Definition get_conversation (conversation_id : UUID) : M (option Conversation) :=
  gets (fun w => conversations w !! conversation_id).

Definition update_conversation (conversation_id : UUID) (title : option string)
  : M (option Conversation) :=
  found <- get_conversation conversation_id ;;
  match found with
  | None => ret None
  | Some conversation =>
      t <- utcnow ;;
      let conversation' :=
        mkConversation (c_id conversation)
          (match title with Some _ => title | None => c_title conversation end)
          (c_api_key_hash conversation) (c_created_at conversation) t in
      commit ;;
      modify (fun w =>
        set_conversations (<[conversation_id := conversation']> (conversations w)) w) ;;
      ret (Some conversation')
  end.

Definition in_conversation (conversation_id : UUID) (m : ChatMessage) : bool :=
  (m_conversation_id m =? conversation_id)%N.

(** The messages go with their conversation ([cascade_delete=True]). *)
Definition delete_conversation (conversation_id : UUID) : M bool :=
  found <- get_conversation conversation_id ;;
  match found with
  | None => ret false
  | Some _ =>
      commit ;;
      modify (fun w =>
        set_chat_messages
          (List.filter (fun m => negb (in_conversation conversation_id m))
             (chat_messages w))
          (set_conversations (delete conversation_id (conversations w)) w)) ;;
      ret true
  end.

Definition touch (t : Z) (c : Conversation) : Conversation :=
  mkConversation (c_id c) (c_title c) (c_api_key_hash c) (c_created_at c) t.

Definition create_chat_message (conversation_id : UUID) (role content : string)
    (model request_id finish_reason : option string)
    (prompt_tokens completion_tokens total_tokens elapsed_ms : option Z)
  : M ChatMessage :=
  t <- utcnow ;;
  id <- uuid4 ;;
  let db_message :=
    mkChatMessage id conversation_id role content model t request_id
      finish_reason prompt_tokens completion_tokens total_tokens elapsed_ms in
  (* the conversation's updated_at follows the newest message *)
  found <- get_conversation conversation_id ;;
  t' <- utcnow ;;
  commit ;;
  modify (fun w =>
    set_chat_messages (chat_messages w ++ [db_message])
      (match found with
       | Some conversation =>
           set_conversations
             (<[conversation_id := touch t' conversation]> (conversations w)) w
       | None => w
       end)) ;;
  ret db_message.

(** Messages of one conversation, oldest first: timestamps never decrease,
    so the order by [created_at] is the order of insertion. *)
Definition get_chat_messages (conversation_id : UUID) (skip limit : nat)
  : M (list ChatMessage) :=
  gets (fun w =>
    take limit (drop skip
      (List.filter (in_conversation conversation_id) (chat_messages w)))).

Definition get_conversation_with_messages (conversation_id : UUID)
  : M (option (Conversation * list ChatMessage)) :=
  found <- get_conversation conversation_id ;;
  match found with
  | None => ret None
  | Some conversation =>
      messages <- get_chat_messages conversation_id 0 1000 ;;
      ret (Some (conversation, messages))
  end.

(** [Conversation.api_key_hash == api_key_hash], applied when the argument
    is truthy; a row without a hash matches no value. *)
Definition owned_by (api_key_hash : option string) (c : Conversation) : bool :=
  match api_key_hash with
  | Some h =>
      if Py.truthy h
      then match c_api_key_hash c with
           | Some h' => String.eqb h' h
           | None => false
           end
      else true
  | None => true
  end.

(** [order_by(Conversation.updated_at.desc())]: rows with the same
    timestamp stay in the order the table yields them, which the database
    does not fix. *)
Fixpoint insert_newest (c : Conversation) (l : list Conversation)
  : list Conversation :=
  match l with
  | [] => [c]
  | x :: rest =>
      if c_updated_at x <? c_updated_at c then c :: l
      else x :: insert_newest c rest
  end.

Definition newest_first (l : list Conversation) : list Conversation :=
  foldr insert_newest [] l.

Definition get_conversations (api_key_hash : option string) (skip limit : nat)
  : M (list Conversation) :=
  gets (fun w =>
    take limit (drop skip
      (newest_first
         (List.filter (owned_by api_key_hash)
            (List.map snd (map_to_list (conversations w))))))).

Definition count_messages_in_conversation (conversation_id : UUID) : M nat :=
  gets (fun w =>
    length (List.filter (in_conversation conversation_id) (chat_messages w))).

(** The next identifier of the supply is unused: no conversation and no
    message refers to it. *)
Definition supply_fresh (w : World) : Prop :=
  conversations w !! next_uuid w = None
  /\ List.filter (in_conversation (next_uuid w)) (chat_messages w) = [].

(** Roles and contents stored under a conversation, oldest first. *)
Definition stored_under (conversation_id : UUID) (w : World)
  : list (string * string) :=
  List.map (fun m => (m_role m, m_content m))
    (List.filter (in_conversation conversation_id) (chat_messages w)).

End Crud.

(** ** [app/utils/rate_limit.py] *)

Module RateLimit.
Import Runtime.

(** The registry maps a key to the number of slots taken from its
    limiter; [get_limiter] adds the key on first use.  The configured rate
    only decides how long [acquire] waits, which is not modelled. *)
Definition get_limiter (key : string) : M string :=
  modify (fun w =>
    match limiters w !! key with
    | Some _ => w
    | None => set_limiters (<[key := O]> (limiters w)) w
    end) ;;
  ret key.

(** [async with limiter]: takes a slot; it waits but never rejects. *)
Definition acquire (limiter : string) : M unit :=
  modify (fun w =>
    set_limiters (<[limiter := S (default O (limiters w !! limiter))]> (limiters w)) w).

(** The registry after one request has passed the limiter of [key]. *)
Definition take_slot (key : string) (w : World) : World :=
  set_limiters (<[key := S (default O (limiters w !! key))]> (limiters w)) w.

End RateLimit.

(** ** [app/utils/usage_callback.py] *)

Module UsageCallback.
Import Runtime Environment.

Section WithEnv.
Context (env : Env).

(** [client.post] under [httpx.AsyncClient(timeout=5.0)].  The time-out
    bounds each phase of the exchange (connecting, writing, reading,
    waiting for a connection), not the call as a whole: how long the call
    takes and whether it succeeds are the collector's, and a phase that
    runs out of time is one of its failures. *)
Definition post : M unit :=
  let c := collector env in
  await_ (post_delay c) ;;
  if post_ok c then ret tt else raise (UpstreamError "collector error").

Definition send_usage (payload : Json.json) : M unit :=
  modify (fun w => set_usage_posts (usage_posts w ++ [payload]) w) ;;
  if negb (Py.truthy_opt (USAGE_CALLBACK_URL (settings env))) then ret tt
  else
    try_except post is_Exception
      (fun e => logger "warning" "usage_callback_failed" (str e)).

End WithEnv.
End UsageCallback.

(** ** [app/utils/idempotency.py] *)

Module Idempotency.
Import Runtime Environment.

Section WithEnv.
Context (env : Env).

Definition ttl_ms : Z := IDEMPOTENCY_TTL_SECONDS (settings env) * 1000.

(** The module global [_redis]: [None] when the module is loaded, and
    assigned only by [init_idempotency], which [main.py] imports and
    nothing calls.  Whatever [REDIS_URL] holds, the store in use is the
    in-process one. *)
Definition _redis : bool := false.

(** [_memory_cache = TTLCache(maxsize=5000, ttl=...)]; the shared store
    would have no bound of its own. *)
Definition maxsize : option nat :=
  if _redis then None else Some 5000%nat.

Definition live (t : Z) (e : CacheEntry) : bool := t <? ce_expires e.

Definition has_key (key : string) (e : CacheEntry) : bool :=
  String.eqb (ce_key e) key.

(** [_memory_cache.get(key)]: the live entry under [key], if any.  In
    the real cache a lookup also makes its entry the last one to leave a
    full store; the order kept here is the order of writing, and nothing
    below depends on which entry a full store gives up. *)
Definition _redis_get (key : string) : M (option string) :=
  gets (fun w =>
    match List.find (fun e => has_key key e && live (now w) e) (cache w) with
    | Some e => Some (ce_raw e)
    | None => None
    end).

(** [_memory_cache[key] = value]: expired entries go first, a full
    cache gives up an entry to make room (here the one written longest
    ago), and the written entry becomes the newest. *)
Definition _redis_set (key value : string) : M unit :=
  modify (fun w =>
    let t := now w in
    let alive := List.filter (live t) (cache w) in
    let others := List.filter (fun e => negb (has_key key e)) alive in
    let kept :=
      match maxsize with
      | Some n =>
          if existsb (has_key key) alive then others
          else drop (S (length others) - n) others
      | None => others
      end in
    set_cache (kept ++ [mkCacheEntry key value (t + ttl_ms)]) w).

Definition get_cached_response (key : string) : M (option Json.json) :=
  raw <- _redis_get ("idemp:" ++ key) ;;
  match raw with
  | Some text =>
      if Py.truthy text then
        (* json.loads under try/except Exception: a bad entry is a miss *)
        ret (Json.loads text)
      else ret None
  | None => ret None
  end.

Definition set_cached_response (key : string) (value : Json.json) : M unit :=
  _redis_set ("idemp:" ++ key) (Json.dumps Json.default_opts value).

End WithEnv.
End Idempotency.

(** ** [app/providers/base.py], [app/providers/openai_provider.py],
       [app/services/router.py] *)

Module Providers.
Import Runtime Environment.

Record ChatMessage := mkChatMessage {
  cm_role : string;
  cm_content : string
}.

(** [temperature] is handed to the vendor SDK untouched and left out. *)
Record ChatRequest := mkChatRequest {
  req_model : string;
  req_messages : list ChatMessage;
  req_max_tokens : option Z;
  req_stream : bool
}.

Record ChatResponseChunk := mkChunk {
  chunk_id : string;
  chunk_model : string;
  chunk_created : Z;
  chunk_delta : string;
  chunk_finish_reason : option string
}.

Record ChatResponseFull := mkFull {
  res_id : string;
  res_model : string;
  res_created : Z;
  res_content : string;
  res_finish_reason : option string;
  res_usage : option (list (string * Json.json))
}.

(** *** Asynchronous generators as traces *)

Definition AsyncGen (Y : Type) : Type := M (Trace Y).

Definition gen_stop {Y} : AsyncGen Y := ret (mkTrace [] None).

Definition gen_fail {Y} (e : Exn) : AsyncGen Y := ret (mkTrace [] (Some e)).

Definition gen_yield {Y} (y : Y) (rest : AsyncGen Y) : AsyncGen Y :=
  tr <- rest ;;
  ret (mkTrace (y :: emitted tr) (outcome tr)).

(** An [await] inside a generator: its exception ends the generator. *)
Definition gen_await {Y} (d : N) (k : AsyncGen Y) : AsyncGen Y :=
  r <- attempt (await_ d) ;;
  match r with
  | Ok _ => k
  | Raise e => gen_fail e
  end.

(** [x or ""] *)
Definition or_empty (o : option string) : string :=
  match o with
  | Some s => if Py.truthy s then s else ""
  | None => ""
  end.

Section WithEnv.
Context (env : Env).

(** *** The two policies, as the libraries apply them to a call

    [pybreaker.CircuitBreaker.call(func)]: an open breaker rejects until
    the cool-down has passed, then lets one trial through; a failure of
    [func] is counted and may open the breaker; a success resets the
    counter and closes it. *)
Definition reset_timeout_ms : Z := CB_RESET_TIMEOUT (settings env) * 1000.

Definition on_success : M unit :=
  modify (set_breaker (mkBreaker O Closed)).

Definition on_failure {A} (e : Exn) : M A :=
  b <- gets breaker ;;
  let counter := S (fail_counter b) in
  match state b with
  | HalfOpen =>
      t <- time_ms ;;
      modify (set_breaker (mkBreaker counter (Open t))) ;;
      raise (CircuitBreakerError "Trial call failed, circuit breaker opened")
  | _ =>
      if (CB_FAIL_MAX (settings env) <=? counter)%nat
      then
        t <- time_ms ;;
        modify (set_breaker (mkBreaker counter (Open t))) ;;
        raise (CircuitBreakerError
                 "Failures threshold reached, circuit breaker opened")
      else
        modify (set_breaker (mkBreaker counter (state b))) ;;
        raise e
  end.

Definition guarded {A} (func : M A) : M A :=
  r <- attempt func ;;
  match r with
  | Ok a => on_success ;; ret a
  | Raise e => on_failure e
  end.

Definition breaker_call {A} (func : M A) : M A :=
  b <- gets breaker ;;
  match state b with
  | Open opened_at =>
      t <- time_ms ;;
      if t <? opened_at + reset_timeout_ms
      then raise (CircuitBreakerError
                    "Timeout not elapsed yet, circuit breaker still open")
      else
        modify (set_breaker (mkBreaker (fail_counter b) HalfOpen)) ;;
        guarded func
  | _ => guarded func
  end.

(** [tenacity.retry(stop=stop_after_attempt(4),
    retry=retry_if_exception_type(Exception), reraise=True)]: the call is
    repeated while it raises, four times at most; the back-off between
    the attempts is not modelled. *)
Fixpoint retrying {A} (more : nat) (func : M A) : M A :=
  match more with
  | O => func
  | S n => try_except func is_Exception (fun _ => retrying n func)
  end.

Definition retry {A} (func : M A) : M A := retrying 3 func.

(** *** [OpenAIProvider.generate_stream]

    The function is an [async def] with a [yield]: calling it only
    builds the generator object, and its body (building the client,
    awaiting [chat.completions.create], iterating the stream) runs when
    the object is iterated.  The decorators [@retry] and
    [@openai_breaker] wrap the call. *)
Definition next_upstream_call : M nat :=
  n <- gets upstream_calls ;;
  modify (set_upstream_calls (S n)) ;;
  ret n.

Definition stream_end (fin : StreamEnd) : AsyncGen ChatResponseChunk :=
  match fin with
  | EndOfStream d => gen_await d gen_stop
  | StreamBreaks d msg => gen_await d (gen_fail (UpstreamError msg))
  end.

Fixpoint iterate_stream (created : Z) (events : list RawEvent) (fin : StreamEnd)
  : AsyncGen ChatResponseChunk :=
  match events with
  | [] => stream_end fin
  | event :: rest =>
      gen_await (ev_delay event)
        match ev_choices event with
        | [] => gen_fail (IndexError "list index out of range")
        | choice :: _ =>
            gen_yield
              (mkChunk (ev_id event) (ev_model event) created
                 (or_empty (ch_content choice)) (ch_finish_reason choice))
              (iterate_stream created rest fin)
        end
  end.

(** The [n]-th call of [chat.completions.create(stream=True)] and the
    iteration of what it returns. *)
Definition open_stream (created : Z) (n : nat) : AsyncGen ChatResponseChunk :=
  match upstream_stream env n with
  | ConnectFails d msg => gen_await d (gen_fail (UpstreamError msg))
  | Connected d events fin => gen_await d (iterate_stream created events fin)
  end.

Definition generate_stream_body (req : ChatRequest)
  : AsyncGen ChatResponseChunk :=
  t <- time_ms ;;
  let created := t / 1000 in
  n <- next_upstream_call ;;
  open_stream created n.

Definition generate_stream (req : ChatRequest)
  : M (AsyncGen ChatResponseChunk) :=
  retry (breaker_call (ret (generate_stream_body req))).

(** *** [OpenAIProvider.generate]

    An [async def]: the decorated call builds the coroutine object, and
    the handler's [await] runs the body. *)
Definition usage_of (u : option RawUsage) : list (string * Json.json) :=
  [("prompt_tokens", Json.of_opt_int (option_map u_prompt_tokens u));
   ("completion_tokens", Json.of_opt_int (option_map u_completion_tokens u));
   ("total_tokens", Json.of_opt_int (option_map u_total_tokens u))].

(** The [n]-th call of [chat.completions.create(stream=False)]. *)
Definition complete (created : Z) (n : nat) : M ChatResponseFull :=
  match upstream_completion env n with
  | CallFails d msg => await_ d ;; raise (UpstreamError msg)
  | Completes d resp =>
      await_ d ;;
      match rc_choices resp with
      | [] => raise (IndexError "list index out of range")
      | choice :: _ =>
          ret (mkFull (rc_id resp) (rc_model resp) created
                 (or_empty (ch_content choice)) (ch_finish_reason choice)
                 (Some (usage_of (rc_usage resp))))
      end
  end.

Definition generate_body (req : ChatRequest) : M ChatResponseFull :=
  t <- time_ms ;;
  let created := t / 1000 in
  n <- next_upstream_call ;;
  complete created n.

Definition generate (req : ChatRequest) : M (M ChatResponseFull) :=
  retry (breaker_call (ret (generate_body req))).

(** [services.router.resolve_provider]: there is one provider; the
    function returns the normalised model identifier. *)
Definition resolve_provider (model : string) : string :=
  if Py.startswith "openai:" model then model else "openai:" ++ model.

End WithEnv.
End Providers.

(** ** [app/api/routes/messages.py] *)

Module Messages.
Import Runtime Environment Providers.
Import Json.

(** [schemas.Message] *)
Record Message := mkMessage {
  role : string;
  content : string
}.

(** [schemas.MessagesRequest] ([temperature] left out, as in
    [ChatRequest]). *)
Record MessagesRequest := mkRequest {
  model : string;
  messages : list Message;
  max_tokens : option Z;
  stream : bool;
  conversation_id : option string
}.

(** The request-scoped database session of [SessionDep]. *)
Inductive Session : Type := RequestSession.

Inductive Response : Type :=
| JSONResponse (content : json)
| StreamingResponse (body : AsyncGen string).

Definition _sse_format (data : json) : string :=
  "data: " ++ dumps sse_opts data ++ Py.nl ++ Py.nl.

(** The terminal event, [data: [DONE]] followed by an empty line. *)
Definition DONE : string := "data: [DONE]" ++ Py.nl ++ Py.nl.

(** What leaves [async with asyncio.timeout(...)]: the timer is disarmed,
    and a cancellation it caused surfaces as [TimeoutError].

    The clock advances in the waits of the inner generator only.  Handing
    an event to the client takes no time here; in the program the
    generator is suspended at its [yield] inside the [async with] for as
    long as the client takes, and a deadline that passes then cancels the
    task in the consumer: the response ends there, with neither timeout
    event nor sentinel.  That ending is outside this definition: what is
    proved below about a stream and its deadline is stated for a deadline
    that passes in one of the generator's own waits, or not at all. *)
Definition asyncio_timeout (timeout_seconds : Z) (inner : AsyncGen string)
  : AsyncGen string :=
  t <- time_ms ;;
  modify (set_deadline (Armed (t + timeout_seconds * 1000))) ;;
  tr <- inner ;;
  d <- gets deadline ;;
  modify (set_deadline NoDeadline) ;;
  match d, outcome tr with
  | Fired, Some CancelledError => ret (mkTrace (emitted tr) (Some TimeoutError))
  | _, _ => ret tr
  end.

(** An event whose payload is an object with the key ["error"] first. *)
Definition is_error_event (event : string) : bool :=
  Py.startswith ("data: {" ++ Py.dq ++ "error" ++ Py.dq) event.

Definition timeout_data : json :=
  JObj [("error", JStr "Stream timeout exceeded")].

Definition _stream_with_timeout (generator : AsyncGen string)
    (timeout_seconds : Z) : AsyncGen string :=
  tr <- asyncio_timeout timeout_seconds generator ;;
  match outcome tr with
  | Some TimeoutError =>
      logger "error" "Streaming timeout exceeded" (pretty timeout_seconds) ;;
      ret (mkTrace
             (emitted tr
              ++ [_sse_format timeout_data; DONE])
             None)
  | _ => ret tr
  end.

(** The local variables of [event_gen] that outlive its loop. *)
Record Locals := mkLocals {
  tokens : Z;
  last_chunk : option ChatResponseChunk;
  full_content : string
}.

Definition first_user_title (msgs : list Message) : option string :=
  match List.find (fun msg => String.eqb (role msg) "user") msgs with
  | Some msg =>
      Some (if 100 <? Py.len (content msg)
            then Py.slice_to 100 (content msg) ++ "..."
            else content msg)
  | None => None
  end.

Definition or_public (x_api_key : option string) : string :=
  match x_api_key with
  | Some k => if Py.truthy k then k else "public"
  | None => "public"
  end.

Section WithEnv.
Context (env : Env).

(** [str(hash(api_key))] *)
Definition api_key_hash_of (api_key : string) : string :=
  pretty (py_hash env api_key).

(** One turn of the loop of [event_gen]. *)
Definition loop_step (conversation_id : option UUID)
    (acc : Locals * list string) (chunk : ChatResponseChunk)
  : Locals * list string :=
  let '(l, out) := acc in
  let counted := Py.truthy (chunk_delta chunk) in
  let tokens' := if counted then tokens l + 1 else tokens l in
  let full' :=
    if counted then full_content l ++ chunk_delta chunk else full_content l in
  let response_data :=
    [("id", JStr (chunk_id chunk));
     ("model", JStr (chunk_model chunk));
     ("created", JInt (chunk_created chunk));
     ("delta", JStr (chunk_delta chunk));
     ("finish_reason", of_opt_str (chunk_finish_reason chunk))] in
  let response_data :=
    match conversation_id with
    | Some cid =>
        if tokens' =? 1
        then dict_set "conversation_id" (JStr (uuid_str env cid)) response_data
        else response_data
    | None => response_data
    end in
  (mkLocals tokens' (Some chunk) full',
   (out ++ [_sse_format (JObj response_data)])%list).

Definition stream_usage_payload (request_id api_key : string)
    (req : ChatRequest) (tokens : Z) (elapsed : option Z) : json :=
  JObj ([("request_id", JStr request_id);
         ("api_key_hash", JInt (py_hash env api_key));
         ("model", JStr (req_model req));
         ("stream", JBool true);
         ("tokens_count_approx", JInt tokens)]
        ++ match elapsed with
           | Some ms => [("elapsed_ms", JInt ms)]
           | None => []
           end).

(** The [finally] block of [event_gen]. *)
Definition event_gen_finally (req : ChatRequest) (normalized api_key request_id : string)
    (conversation_id : option UUID) (start : Z) (l : Locals) : M unit :=
  match conversation_id with
  | Some cid =>
      when (Py.truthy (full_content l))
        (try_except
           (t <- time_ms ;;
            create <- Crud.create_chat_message cid "assistant" (full_content l)
              (Some (match last_chunk l with
                     | Some c => chunk_model c
                     | None => normalized
                     end))
              (Some request_id)
              (match last_chunk l with
               | Some c => chunk_finish_reason c
               | None => None
               end)
              None None None (Some (t - start)) ;;
            ret tt)
           is_Exception
           (fun e => logger "error" "Error saving message to database" (str e)))
  | None => ret tt
  end ;;
  try_except
    (t <- time_ms ;;
     UsageCallback.send_usage env
       (stream_usage_payload request_id api_key req (tokens l) (Some (t - start))))
    is_Exception
    (fun e => logger "error" "Error sending usage callback" (str e)).

(** [async for chunk in provider.generate_stream(req)], as the loop sees
    it: the chunks received and what ended the iteration.  An exception
    of the call itself ends it before the first chunk. *)
Definition provider_chunks (req : ChatRequest) : AsyncGen ChatResponseChunk :=
  call <- attempt (generate_stream env req) ;;
  match call with
  | Ok gen => gen
  | Raise e => gen_fail e
  end.

Definition run_loop (conversation_id : option UUID)
    (chunks : list ChatResponseChunk) : Locals * list string :=
  fold_left (loop_step conversation_id) chunks (mkLocals 0 None "", []).

Definition chunk_events (conversation_id : option UUID)
    (chunks : list ChatResponseChunk) : list string :=
  snd (run_loop conversation_id chunks).

Definition error_data (e : Exn) : json :=
  JObj [("error", JStr "Streaming error occurred");
        ("message", JStr (str e))].

Definition event_gen (req : ChatRequest) (normalized api_key request_id : string)
    (conversation_id : option UUID) : AsyncGen string :=
  start <- time_ms ;;
  (* try *)
  src <- provider_chunks req ;;
  let l := fst (run_loop conversation_id (emitted src)) in
  let out := chunk_events conversation_id (emitted src) in
  body <- match outcome src with
          | None => ret (mkTrace (out ++ [DONE]) None)
          | Some e =>
              (* except Exception as e *)
              if is_Exception e then
                logger "error" "Error during streaming" (str e) ;;
                ret (mkTrace (out ++ [_sse_format (error_data e); DONE]) None)
              else ret (mkTrace out (Some e))
          end ;;
  (* finally *)
  fin <- attempt (event_gen_finally req normalized api_key request_id
                    conversation_id start l) ;;
  match fin with
  | Ok _ => ret body
  | Raise e => ret (mkTrace (emitted body) (Some e))
  end.

(** Lines 72 to 77 of [_canonical_handler]: the conversation the request
    names, if it names one. *)
Definition lookup_requested (payload : MessagesRequest) : M (option Conversation) :=
  if Py.truthy_opt (conversation_id payload) then
    try_except
      (match uuid_parse env (default "" (conversation_id payload)) with
       | Some conv_uuid => Crud.get_conversation conv_uuid
       | None => raise (ValueError "badly formed hexadecimal UUID string")
       end)
      is_ValueError_or_TypeError
      (fun _ => ret None)
  else ret None.

Definition store_incoming (conversation_id : UUID) (normalized request_id : string)
    (msg : Message) : M unit :=
  created <- Crud.create_chat_message conversation_id (role msg) (content msg)
               (Some normalized) (Some request_id) None None None None None ;;
  ret tt.

(** Lines 66 to 107 of [_canonical_handler]: resolve or create the
    conversation, then store the incoming messages. *)
Definition record_incoming (payload : MessagesRequest)
    (normalized api_key request_id : string)
  : M (option Conversation * option UUID) :=
  let api_key_hash := api_key_hash_of api_key in
  found <- lookup_requested payload ;;
  conversation <-
    match found with
    | Some c => ret c
    | None =>
        Crud.create_conversation (first_user_title (messages payload))
          (Some api_key_hash)
    end ;;
  let conversation_id := c_id conversation in
  for_each (messages payload) (store_incoming conversation_id normalized request_id) ;;
  ret (Some conversation, Some conversation_id).

Definition usage_int (usage : option (list (string * json))) (k : string)
  : option Z :=
  match usage with
  | Some d =>
      match d with
      | [] => None
      | _ => match dict_get k d with Some (JInt z) => Some z | _ => None end
      end
  | None => None
  end.

(** [MessagesResponse(...).model_dump()] *)
Definition model_dump (res : ChatResponseFull) : list (string * json) :=
  [("id", JStr (res_id res));
   ("model", JStr (res_model res));
   ("created", JInt (res_created res));
   ("content", JStr (res_content res));
   ("finish_reason", of_opt_str (res_finish_reason res));
   ("usage", match res_usage res with Some d => JObj d | None => JNull end);
   ("conversation_id", JNull)].

(** Lines 189 to 235: the buffered path. *)
Definition buffered_path (req : ChatRequest) (api_key : string)
    (idem_key : option string) (request_id : string) (session : option Session)
    (conversation : option Conversation) (conversation_id : option UUID)
  : M Response :=
  start <- time_ms ;;
  coro <- generate env req ;;
  res <- coro ;;
  match session, conversation with
  | Some _, Some conv =>
      t <- time_ms ;;
      saved <- Crud.create_chat_message (c_id conv) "assistant"
                 (res_content res) (Some (res_model res)) (Some request_id)
                 (res_finish_reason res)
                 (usage_int (res_usage res) "prompt_tokens")
                 (usage_int (res_usage res) "completion_tokens")
                 (usage_int (res_usage res) "total_tokens")
                 (Some (t - start)) ;;
      ret tt
  | _, _ => ret tt
  end ;;
  let body := model_dump res in
  let body :=
    match conversation_id with
    | Some cid => dict_set "conversation_id" (JStr (uuid_str env cid)) body
    | None => body
    end in
  when (Py.truthy_opt idem_key)
    (Idempotency.set_cached_response env (default "" idem_key) (JObj body)) ;;
  t <- time_ms ;;
  UsageCallback.send_usage env
    (JObj [("request_id", JStr request_id);
           ("api_key_hash", JInt (py_hash env api_key));
           ("model", JStr (req_model req));
           ("stream", JBool false);
           ("usage", match res_usage res with
                     | Some d => JObj d
                     | None => JNull
                     end);
           ("elapsed_ms", JInt (t - start))]) ;;
  ret (JSONResponse (JObj body)).

(** Lines 56 to 235: the request is executed. *)
Definition handle_fresh (payload : MessagesRequest) (api_key : string)
    (idem_key : option string) (request_id : string) (session : option Session)
  : M Response :=
  let normalized := resolve_provider (model payload) in
  let req :=
    mkChatRequest normalized
      (List.map (fun m => mkChatMessage (role m) (content m)) (messages payload))
      (max_tokens payload) (stream payload) in
  recorded <-
    match session with
    | Some _ => record_incoming payload normalized api_key request_id
    | None => ret (None, None)
    end ;;
  let '(conversation, conversation_id) := recorded in
  if stream payload then
    ret (StreamingResponse
           (_stream_with_timeout
              (event_gen req normalized api_key request_id conversation_id)
              300))
  else
    buffered_path req api_key idem_key request_id session conversation
      conversation_id.

(** Lines 50 to 53: the idempotency store is consulted for non-streamed
    requests only; a falsy entry counts as a miss. *)
Definition cached_response (payload : MessagesRequest) (idem_key : option string)
  : M (option json) :=
  if Py.truthy_opt idem_key && negb (stream payload) then
    cached <- Idempotency.get_cached_response (default "" idem_key) ;;
    match cached with
    | Some c => ret (if Json.truthy c then Some c else None)
    | None => ret None
    end
  else ret None.

Definition _canonical_handler (payload : MessagesRequest) (api_key : string)
    (idem_key : option string) (request_id : string) (session : option Session)
  : M Response :=
  limiter <- RateLimit.get_limiter api_key ;;
  RateLimit.acquire limiter ;;
  cached <- cached_response payload idem_key ;;
  match cached with
  | Some c => ret (JSONResponse c)
  | None => handle_fresh payload api_key idem_key request_id session
  end.

(** What the idempotency store answers for [key] in [w], as the handler
    reads it: a truthy decoded body, or a miss. *)
Definition cache_hit (key : string) (w : World) : option json :=
  match fst (Idempotency.get_cached_response key w) with
  | Ok (Some c) => if Json.truthy c then Some c else None
  | _ => None
  end.

(** The conversation a request names in [w]: none when the field is empty,
    is not a UUID, or is the id of no conversation. *)
Definition requested_conversation (payload : MessagesRequest) (w : World)
  : option Conversation :=
  match conversation_id payload with
  | Some s =>
      if Py.truthy s then
        match uuid_parse env s with
        | Some conv_uuid => conversations w !! conv_uuid
        | None => None
        end
      else None
  | None => None
  end.


(** [create_message]: the canonical route. *)
Definition create_message (payload : MessagesRequest) (request_id : string)
    (idempotency_key x_api_key : option string) : M Response :=
  _canonical_handler payload (or_public x_api_key) idempotency_key request_id
    (Some RequestSession).

(** *** The OpenAI-compatible route, streamed branch

    [chat_completions] maps the request to the canonical form and, for
    [stream=True], streams vendor-shaped chunks from [sse_gen].  (Its
    buffered branch hands the request to [_canonical_handler] with
    [session=None] and re-wraps the body.) *)
Definition sse_step (acc : Z * list string) (chunk : ChatResponseChunk)
  : Z * list string :=
  let '(tokens, out) := acc in
  let tokens' := if Py.truthy (chunk_delta chunk) then tokens + 1 else tokens in
  let data :=
    JObj [("id", JStr (chunk_id chunk));
          ("object", JStr "chat.completion.chunk");
          ("created", JInt (chunk_created chunk));
          ("model", JStr (chunk_model chunk));
          ("choices",
           JArr [JObj [("index", JInt 0);
                       ("delta", JObj [("content", JStr (chunk_delta chunk))]);
                       ("finish_reason",
                        of_opt_str (chunk_finish_reason chunk))]])] in
  (tokens', (out ++ [_sse_format data])%list).

Definition oa_error_data (e : Exn) : json :=
  JObj [("error",
         JObj [("message", JStr ("Streaming error: " ++ str e));
               ("type", JStr "streaming_error")])].

Definition sse_gen (req : ChatRequest) (api_key request_id : string)
  : AsyncGen string :=
  src <- provider_chunks req ;;
  let '(tokens, out) := fold_left sse_step (emitted src) (0, []) in
  body <- match outcome src with
          | None => ret (mkTrace (out ++ [DONE]) None)
          | Some e =>
              if is_Exception e then
                logger "error" "Error during OpenAI streaming" (str e) ;;
                ret (mkTrace (out ++ [_sse_format (oa_error_data e); DONE]) None)
              else ret (mkTrace out (Some e))
          end ;;
  fin <- attempt
           (try_except
              (UsageCallback.send_usage env
                 (stream_usage_payload request_id api_key req tokens None))
              is_Exception
              (fun e => logger "error" "Error sending usage callback" (str e))) ;;
  match fin with
  | Ok _ => ret body
  | Raise e => ret (mkTrace (emitted body) (Some e))
  end.

Definition chat_completions_stream (payload : MessagesRequest)
    (request_id : string) (x_api_key : option string) : M Response :=
  let api_key := or_public x_api_key in
  let canon_model :=
    if Py.startswith "openai:" (model payload) then model payload
    else "openai:" ++ model payload in
  limiter <- RateLimit.get_limiter api_key ;;
  RateLimit.acquire limiter ;;
  let req :=
    mkChatRequest canon_model
      (List.map (fun m => mkChatMessage (role m) (content m)) (messages payload))
      (max_tokens payload) true in
  ret (StreamingResponse (_stream_with_timeout (sse_gen req api_key request_id) 300)).

(** The events a client receives: the handler's answer, with a streamed
    body driven to its end. *)
Inductive Delivered : Type :=
| Body (content : json)
| Events (wire : Trace string).

Definition deliver (handler : M Response) : M Delivered :=
  response <- handler ;;
  match response with
  | JSONResponse c => ret (Body c)
  | StreamingResponse g => tr <- g ;; ret (Events tr)
  end.

End WithEnv.
End Messages.

(** ** [app/api/routes/conversations.py] *)

Module Conversations.
Import Runtime Environment.

Section WithEnv.
Context (env : Env).

(** [conversation.api_key_hash and conversation.api_key_hash != api_key_hash] *)
Definition access_denied (conversation : Conversation) (x_api_key : option string)
  : bool :=
  let api_key_hash := Messages.api_key_hash_of env (Messages.or_public x_api_key) in
  match c_api_key_hash conversation with
  | Some h => Py.truthy h && negb (String.eqb h api_key_hash)
  | None => false
  end.

Definition parse_id (conversation_id : string) : M UUID :=
  match uuid_parse env conversation_id with
  | Some conv_uuid => ret conv_uuid
  | None => raise (HTTPException 400 "Invalid conversation ID format")
  end.

(** The loop of [list_conversations]: every conversation with its
    [message_count]. *)
Fixpoint with_counts (found : list Conversation)
  : M (list (Conversation * nat)) :=
  match found with
  | [] => ret []
  | conv :: rest =>
      n <- Crud.count_messages_in_conversation (c_id conv) ;;
      result <- with_counts rest ;;
      ret ((conv, n) :: result)
  end.

(** [skip] and [limit] arrive validated ([ge=0]; [ge=1, le=100]). *)
Definition list_conversations (x_api_key : option string) (skip limit : nat)
  : M (list (Conversation * nat)) :=
  let api_key_hash := Messages.api_key_hash_of env (Messages.or_public x_api_key) in
  found <- Crud.get_conversations (Some api_key_hash) skip limit ;;
  with_counts found.

Definition get_conversation_history (conversation_id : string)
    (x_api_key : option string)
  : M (Conversation * nat * list ChatMessage) :=
  conv_uuid <- parse_id conversation_id ;;
  result <- Crud.get_conversation_with_messages conv_uuid ;;
  match result with
  | None => raise (HTTPException 404 "Conversation not found")
  | Some (conversation, messages) =>
      if access_denied conversation x_api_key
      then raise (HTTPException 403 "Access denied to this conversation")
      else ret (conversation, length messages, messages)
  end.

Definition update_conversation_title (conversation_id title : string)
    (x_api_key : option string) : M Json.json :=
  conv_uuid <- parse_id conversation_id ;;
  found <- Crud.get_conversation conv_uuid ;;
  match found with
  | None => raise (HTTPException 404 "Conversation not found")
  | Some conversation =>
      if access_denied conversation x_api_key
      then raise (HTTPException 403 "Access denied to this conversation")
      else
        updated <- Crud.update_conversation conv_uuid (Some title) ;;
        match updated with
        | None => raise (HTTPException 404 "Conversation not found")
        | Some _ =>
            ret (Json.JObj
                   [("message", Json.JStr "Conversation updated successfully");
                    ("conversation_id", Json.JStr (uuid_str env conv_uuid))])
        end
  end.

Definition delete_conversation_endpoint (conversation_id : string)
    (x_api_key : option string) : M Json.json :=
  conv_uuid <- parse_id conversation_id ;;
  found <- Crud.get_conversation conv_uuid ;;
  match found with
  | None => raise (HTTPException 404 "Conversation not found")
  | Some conversation =>
      if access_denied conversation x_api_key
      then raise (HTTPException 403 "Access denied to this conversation")
      else
        success <- Crud.delete_conversation conv_uuid ;;
        if success
        then ret (Json.JObj
                    [("message", Json.JStr "Conversation deleted successfully")])
        else raise (HTTPException 404 "Conversation not found")
  end.

End WithEnv.
End Conversations.

(** ** Concrete environments and requests used by the examples *)

Module Scenarios.
Import Runtime Environment Providers Messages Json.

Definition base_settings : Settings :=
  mkSettings 5 60 600 None (Some "https://billing.example/usage").

(** Identifiers written in decimal stand in for the textual form of a UUID. *)
Definition uuid_of_decimal (s : string) : option UUID :=
  match parse_nat s with
  | Some (z, EmptyString) => Some (Z.to_N z)
  | _ => None
  end.

(** A stand-in for the built-in [hash]: keys of different lengths get
    different hashes. *)
Definition length_hash (s : string) : Z := Z.of_nat (String.length s).

Definition no_stream : nat -> StreamAttempt :=
  fun _ => ConnectFails 0 "streaming is not used here".

Definition no_completion : nat -> CompletionAttempt :=
  fun _ => CallFails 0 "completions are not used here".

Definition mk_env (streams : nat -> StreamAttempt)
    (completions : nat -> CompletionAttempt) (billing : Collector) : Env :=
  mkEnv base_settings length_hash uuid_of_decimal (fun u => pretty u)
    streams completions billing.

Definition fresh_world : World :=
  mkWorld 0 NoDeadline ∅ [] ∅ [] 0%N None (mkBreaker O Closed) O [] [].

Definition token (delay : N) (text : string) : RawEvent :=
  mkRawEvent delay "chatcmpl-1" "gpt-4o-mini" [mkRawChoice (Some text) None].

(** The usual shape of a vendor stream: an opening event without text,
    the tokens, a closing event that only carries the finish reason. *)
Definition opening : RawEvent :=
  mkRawEvent 20 "chatcmpl-1" "gpt-4o-mini" [mkRawChoice None None].

Definition closing : RawEvent :=
  mkRawEvent 20 "chatcmpl-1" "gpt-4o-mini" [mkRawChoice None (Some "stop")].

Definition hello_stream : MessagesRequest :=
  mkRequest "gpt-4o-mini" [mkMessage "user" "hello"] None true None.

Definition hello_buffered : MessagesRequest :=
  mkRequest "gpt-4o-mini" [mkMessage "user" "hello"] None false None.

Definition quick_billing : Collector := mkCollector 200 true.

(** One token arrives shortly before the 300 s deadline, the stream then
    ends, and the usage report is still in flight when the deadline
    passes. *)
Definition env_late_stream : Env :=
  mk_env (fun _ => Connected 100 [token 299800 "Hi"] (EndOfStream 50))
    no_completion quick_billing.

(** The vendor stream breaks after one token. *)
Definition leak : string := "502 from 10.0.0.7: key sk-live-123 rejected".

Definition env_broken_stream : Env :=
  mk_env (fun _ => Connected 100 [token 20 "Hi"] (StreamBreaks 20 leak))
    no_completion quick_billing.

Definition env_typical_stream : Env :=
  mk_env (fun _ => Connected 100 [opening; token 20 "Hi"; closing] (EndOfStream 5))
    no_completion quick_billing.

(** The first connection attempt is refused; a second one would stream. *)
Definition env_flaky_connect : Env :=
  mk_env (fun n =>
            match n with
            | O => ConnectFails 30 "connection refused"
            | S _ => Connected 100 [token 20 "Hi"] (EndOfStream 5)
            end)
    no_completion quick_billing.

Definition completion : RawCompletion :=
  mkRawCompletion "chatcmpl-2" "gpt-4o-mini"
    [mkRawChoice (Some "Hello!") (Some "stop")] (Some (mkRawUsage 3 2 5)).

Definition env_buffered : Env :=
  mk_env no_stream (fun _ => Completes 40 completion) quick_billing.

(** Alice has one conversation, created by her first buffered request. *)
Definition alice_world : World :=
  snd (deliver (_canonical_handler env_buffered hello_buffered "alice" None "req-1"
                  (Some RequestSession)) fresh_world).

(** Mallory names Alice's conversation in a request under another key. *)
Definition mallory_request : MessagesRequest :=
  mkRequest "gpt-4o-mini" [mkMessage "user" "injected"] None false (Some "0").

(** A first buffered request under the idempotency key ["k1"]. *)
Definition keyed_run : Result Response * World :=
  _canonical_handler env_buffered hello_buffered "alice" (Some "k1") "req-1"
    (Some RequestSession) fresh_world.

Definition keyed_world : World := snd keyed_run.

Definition keyed_body : json :=
  match fst keyed_run with
  | Ok (JSONResponse c) => c
  | _ => JNull
  end.

(** A request that names something that is no UUID. *)
Definition stray_request : MessagesRequest :=
  mkRequest "gpt-4o-mini" [mkMessage "system" "be brief"; mkMessage "user" "hello"]
    None false (Some "not-a-uuid").

Definition broken_request : ChatRequest :=
  mkChatRequest "openai:gpt-4o-mini" [mkChatMessage "user" "hello"] None true.

Definition contents_of (cid : UUID) (w : World) : list string :=
  List.map m_content (List.filter (Crud.in_conversation cid) (chat_messages w)).

End Scenarios.

(** ** Vocabulary of the statements *)

Definition sentinels (wire : list string) : nat :=
  count_occ String.string_dec wire Messages.DONE.

(** The events of a delivered stream (none for a body or an error). *)
Definition wire_of (r : Runtime.Result Messages.Delivered) : list string :=
  match r with
  | Runtime.Ok (Messages.Events tr) => Runtime.emitted tr
  | _ => []
  end.

(** An event written by the loop of [event_gen]: its payload is an object
    that starts with the chunk's ["id"]. *)
Definition is_chunk_event (event : string) : Prop :=
  exists i d,
    event = Messages._sse_format (Json.JObj (("id", Json.JStr i) :: d)).

(** The world [d] milliseconds later. *)
Definition elapse (d : Z) (w : Runtime.World) : Runtime.World :=
  Runtime.set_now (Runtime.now w + d) w.


(** Every run of [m] relates the world before to the world after by [R]. *)
Definition respects (R : Runtime.World -> Runtime.World -> Prop) {A}
    (m : Runtime.M A) : Prop :=
  forall w r w', m w = (r, w') -> R w w'.

(** No entry of the idempotency store changes, no upstream call is made,
    the breaker is left alone, and the clock does not run backwards. *)
Definition calm (w w' : Runtime.World) : Prop :=
  Runtime.cache w' = Runtime.cache w
  /\ Runtime.now w <= Runtime.now w'
  /\ Runtime.upstream_calls w' = Runtime.upstream_calls w
  /\ Runtime.breaker w' = Runtime.breaker w.


(** Only exceptions that satisfy [P] leave [m]. *)
Definition escapes_only (P : Runtime.Exn -> Prop) {A} (m : Runtime.M A) : Prop :=
  forall w e w', m w = (Runtime.Raise e, w') -> P e.

Definition same_deadline (w w' : Runtime.World) : Prop :=
  Runtime.deadline w' = Runtime.deadline w.

(** A generator always runs to its end, and when a cancellation ended it the
    deadline has fired. *)
Definition cancelled_by_deadline {Y} (g : Runtime.M (Runtime.Trace Y)) : Prop :=
  forall w, exists tr w',
    g w = (Runtime.Ok tr, w')
    /\ (Runtime.outcome tr = Some Runtime.CancelledError ->
        Runtime.deadline w' = Runtime.Fired).

(** [a] was updated no earlier than [b]. *)
Definition not_older (a b : Runtime.Conversation) : Prop :=
  Runtime.c_updated_at b <= Runtime.c_updated_at a.

(** The messages stored under a conversation, oldest first. *)
Definition messages_of (cid : Runtime.UUID) (w : Runtime.World)
  : list Runtime.ChatMessage :=
  List.filter (Crud.in_conversation cid) (Runtime.chat_messages w).

(** The conversations of the table whose owner hash is [h]. *)
Definition owned (h : string) (w : Runtime.World) : list Runtime.Conversation :=
  List.filter (Crud.owned_by (Some h))
    (List.map snd (map_to_list (Runtime.conversations w))).

(** The chunk [generate_stream] builds from an upstream event (from its
    first choice). *)
Definition chunk_of (created : Z) (event : Environment.RawEvent)
  : Providers.ChatResponseChunk :=
  match Environment.ev_choices event with
  | choice :: _ =>
      Providers.mkChunk (Environment.ev_id event) (Environment.ev_model event) created
        (Providers.or_empty (Environment.ch_content choice))
        (Environment.ch_finish_reason choice)
  | [] =>
      Providers.mkChunk (Environment.ev_id event) (Environment.ev_model event) created
        "" None
  end.

(** The time, in milliseconds, the upstream takes to deliver [events]. *)
Definition total_delay (events : list Environment.RawEvent) : Z :=
  fold_right (fun event t => Z.of_N (Environment.ev_delay event) + t) 0 events.

(** A run leaves the part [f] of the world as it was. *)
Definition keeps {A} (f : Runtime.World -> A) (w w' : Runtime.World) : Prop :=
  f w' = f w.

(** A deadline that has fired stays fired. *)
Definition stays_fired (w w' : Runtime.World) : Prop :=
  Runtime.deadline w = Runtime.Fired -> Runtime.deadline w' = Runtime.Fired.

(** The text of the chunks, in order. *)
Definition text_of (chunks : list Providers.ChatResponseChunk) : string :=
  String.concat "" (List.map Providers.chunk_delta chunks).

(** The number of chunks that carry text. *)
Definition count_tokens (chunks : list Providers.ChatResponseChunk) : Z :=
  Z.of_nat (length (List.filter (fun c => Py.truthy (Providers.chunk_delta c)) chunks)).

(** The world when the loop of [event_gen] is left: an exception of the
    provider has been logged. *)
Definition after_loop (src : Runtime.Trace Providers.ChatResponseChunk)
    (w : Runtime.World) : Runtime.World :=
  match Runtime.outcome src with
  | Some e =>
      if Runtime.is_Exception e
      then Runtime.set_log
             (Runtime.log w
              ++ [Runtime.mkLog "error" "Error during streaming" (Runtime.str e)]) w
      else w
  | None => w
  end.

(** No character of [s] is a control character (a code below 32, line
    feed and carriage return among them). *)
Fixpoint one_line (s : string) : bool :=
  match s with
  | EmptyString => true
  | String c rest => negb (N_of_ascii c <? 32)%N && one_line rest
  end.

(** * Properties *)

Section Evaluations.
Import Runtime Environment Providers Messages Json Scenarios.

(** C1 (violated by the code): exactly one terminal sentinel is expected on
    every exit path.  When the provider stream is exhausted just before the
    deadline and the deadline passes while the generator's [finally] block
    still awaits the usage report, the wrapper's timeout branch runs after
    the generator has already sent its sentinel: the client receives the
    chunk, the sentinel, the timeout event and a second sentinel. *)
Theorem late_usage_report_doubles_sentinel :
  let run := deliver (_canonical_handler env_late_stream hello_stream "alice" None
                        "req-1" (Some RequestSession)) fresh_world in
  fst run =
    Ok (Events (mkTrace
          (chunk_events env_late_stream (Some 0%N)
             [mkChunk "chatcmpl-1" "gpt-4o-mini" 0 "Hi" None]
           ++ [DONE; _sse_format timeout_data; DONE]) None))
  /\ sentinels (wire_of (fst run)) = 2%nat.
Proof.
  split; vm_compute; reflexivity.
Qed.

(** C3 (violated by the code): the first chunk should carry
    [conversation_id] and no later chunk should.  The code attaches it
    while its token counter equals one.  On a usual vendor stream (an
    opening event without text, one token, a closing event) with
    persistence active, the first chunk goes out without it and the second
    and third chunks both carry it. *)
Theorem conversation_id_follows_token_count :
  let run := deliver (_canonical_handler env_typical_stream hello_stream "alice" None
                        "req-1" (Some RequestSession)) fresh_world in
  exists first second third,
    fst run = Ok (Events (mkTrace [first; second; third; DONE] None))
    /\ Py.contains "conversation_id" first = false
    /\ Py.contains "conversation_id" second = true
    /\ Py.contains "conversation_id" third = true.
Proof.
  do 3 eexists. split; [vm_compute; reflexivity | ].
  repeat split; vm_compute; reflexivity.
Qed.

(** C4 (violated by the code): a request under another key must not be
    able to change a conversation whose owner hash is set.  The read
    route refuses Mallory with 403, yet her message request naming Alice's
    conversation is accepted: her message and the reply are appended to
    it and its [updated_at] moves. *)
Theorem foreign_key_appends_to_conversation :
  let run := deliver (_canonical_handler env_buffered mallory_request "mallory" None
                        "req-2" (Some RequestSession)) alice_world in
  option_map c_api_key_hash (conversations alice_world !! 0%N)
    = Some (Some (api_key_hash_of env_buffered "alice"))
  /\ api_key_hash_of env_buffered "mallory" <> api_key_hash_of env_buffered "alice"
  /\ fst (Conversations.get_conversation_history env_buffered "0" (Some "mallory")
            alice_world)
     = Raise (HTTPException 403 "Access denied to this conversation")
  /\ contents_of 0%N alice_world = ["hello"; "Hello!"]
  /\ (exists body, fst run = Ok (Body body))
  /\ contents_of 0%N (snd run) = ["hello"; "Hello!"; "injected"; "Hello!"]
  /\ option_map c_updated_at (conversations alice_world !! 0%N) = Some 40
  /\ option_map c_updated_at (conversations (snd run) !! 0%N) = Some 280.
Proof.
  repeat split; try (vm_compute; reflexivity).
  - vm_compute. discriminate.
  - eexists. vm_compute. reflexivity.
Qed.

(** C5 (violated by the code): a persistence failure must not reach the
    client.  In the buffered path the assistant message is saved outside
    any [try]: with a database that fails at the third commit the provider
    is called and answers, and the handler still ends with the database
    exception instead of the body.  A database that is down from the
    start fails the request before the provider is called. *)
Theorem buffered_persistence_failure_reaches_client :
  let handler := deliver (_canonical_handler env_buffered hello_buffered "alice" None
                            "req-1" (Some RequestSession)) in
  (exists body, fst (handler fresh_world) = Ok (Body body))
  /\ fst (handler (set_db_budget (Some 2%nat) fresh_world))
     = Raise (DBError "database unavailable")
  /\ upstream_calls (snd (handler (set_db_budget (Some 2%nat) fresh_world))) = 1%nat
  /\ fst (handler (set_db_budget (Some 0%nat) fresh_world))
     = Raise (DBError "database unavailable")
  /\ upstream_calls (snd (handler (set_db_budget (Some 0%nat) fresh_world))) = 0%nat.
Proof.
  repeat split; try (vm_compute; reflexivity).
  eexists. vm_compute. reflexivity.
Qed.


(** C7 (violated by the code): retry and breaker should cover stream
    establishment.  The decorators wrap the call that builds the generator
    object; the connection is opened when the generator is first iterated.
    A refused connection therefore ends the response with the in-band
    error event after a single attempt, although a second attempt would
    have streamed, and the breaker records no failure. *)
Theorem refused_connection_is_not_retried :
  let run := deliver (_canonical_handler env_flaky_connect hello_stream "alice" None
                        "req-1" (Some RequestSession)) fresh_world in
  upstream_stream env_flaky_connect 1%nat
    = Connected 100 [token 20 "Hi"] (EndOfStream 5)
  /\ fst run =
       Ok (Events (mkTrace
             [_sse_format (error_data (UpstreamError "connection refused")); DONE]
             None))
  /\ upstream_calls (snd run) = 1%nat
  /\ breaker (snd run) = mkBreaker 0 Closed.
Proof.
  repeat split; vm_compute; reflexivity.
Qed.

(** C2, the claim as stated fails: after one chunk the vendor stream
    breaks with a message that names an address and a key; the error
    event sent to the client contains that text. *)
Lemma error_event_discloses_exception_text :
  let run := deliver (_canonical_handler env_broken_stream hello_stream "alice" None
                        "req-1" (Some RequestSession)) fresh_world in
  exists chunk_event error_event,
    fst run = Ok (Events (mkTrace [chunk_event; error_event; DONE] None))
    /\ Py.contains leak error_event = true.
Proof.
  do 2 eexists. split; vm_compute; reflexivity.
Qed.

End Evaluations.

(** ** Reasoning about runs of the monad *)

Section Runs.
Import Runtime.

Lemma bind_ok {A B} (m : M A) (k : A -> M B) w b w' :
  bind m k w = (Ok b, w') ->
  exists a w1, m w = (Ok a, w1) /\ k a w1 = (Ok b, w').
Proof.
  unfold bind. destruct (m w) as [[a|e] w1]; [eauto | discriminate].
Qed.

Lemma bind_inv {A B} (m : M A) (k : A -> M B) w r w' :
  bind m k w = (r, w') ->
  (exists a w1, m w = (Ok a, w1) /\ k a w1 = (r, w'))
  \/ (exists e, m w = (Raise e, w') /\ r = Raise e).
Proof.
  unfold bind. destruct (m w) as [[a|e] w1]; intros H.
  - left. eauto.
  - right. inversion H; subst. eauto.
Qed.

Context (R : World -> World -> Prop).
Context (R_refl : forall w, R w w).
Context (R_trans : forall a b c, R a b -> R b c -> R a c).

Lemma respects_ret {A} (a : A) : respects R (ret a).
Proof. intros w r w' H. inversion H. apply R_refl. Qed.

Lemma respects_raise {A} e : respects R (@raise A e).
Proof. intros w r w' H. inversion H. apply R_refl. Qed.

Lemma respects_gets {A} (f : World -> A) : respects R (gets f).
Proof. intros w r w' H. inversion H. apply R_refl. Qed.

Lemma respects_modify f : (forall w, R w (f w)) -> respects R (modify f).
Proof. intros Hf w r w' H. inversion H. apply Hf. Qed.

Lemma respects_bind {A B} (m : M A) (k : A -> M B) :
  respects R m -> (forall a, respects R (k a)) -> respects R (bind m k).
Proof.
  intros Hm Hk w r w' H. unfold bind in H.
  destruct (m w) as [[a|e] w1] eqn:E.
  - eapply R_trans; [eapply Hm, E | eapply Hk, H].
  - inversion H; subst. eapply Hm, E.
Qed.

Lemma respects_try_except {A} (body : M A) c h :
  respects R body -> (forall e, respects R (h e)) -> respects R (try_except body c h).
Proof.
  intros Hm Hk w r w' H. unfold try_except in H.
  destruct (body w) as [[a|e] w1] eqn:E.
  - inversion H; subst. eapply Hm, E.
  - destruct (c e).
    + eapply R_trans; [eapply Hm, E | eapply Hk, H].
    + inversion H; subst. eapply Hm, E.
Qed.

Lemma respects_attempt {A} (m : M A) : respects R m -> respects R (attempt m).
Proof.
  intros Hm w r w' H. unfold attempt in H.
  destruct (m w) as [x w1] eqn:E. inversion H; subst. eapply Hm, E.
Qed.

Lemma respects_when b m : respects R m -> respects R (when b m).
Proof. intros Hm. destruct b; [exact Hm | apply respects_ret]. Qed.

Lemma respects_for_each {A} (l : list A) body :
  (forall a, respects R (body a)) -> respects R (for_each l body).
Proof.
  intros Hb. induction l as [|x l IH]; cbn.
  - apply respects_ret.
  - apply respects_bind; [apply Hb | intros _; exact IH].
Qed.

End Runs.

Lemma respects_weaken (R R' : Runtime.World -> Runtime.World -> Prop) {A}
    (m : Runtime.M A) :
  (forall w w', R w w' -> R' w w') -> respects R m -> respects R' m.
Proof. intros HR Hm w r w' H. apply HR. eapply Hm, H. Qed.

Lemma calm_refl w : calm w w.
Proof. unfold calm. auto with zarith. Qed.

Lemma calm_trans a b c : calm a b -> calm b c -> calm a c.
Proof.
  unfold calm. intros (?&?&?&?) (?&?&?&?).
  repeat split; [congruence | lia | congruence | congruence].
Qed.




Ltac split_match :=
  match goal with
  | |- respects _ (match ?x with _ => _ end) => destruct x
  end.

Ltac calm_step :=
  first
    [ split_match
    | apply respects_ret; apply calm_refl
    | apply respects_raise; apply calm_refl
    | apply respects_gets; apply calm_refl
    | apply respects_bind; [apply calm_trans | | intros ?]
    | apply respects_try_except; [apply calm_trans | | intros ?]
    | apply respects_attempt
    | apply respects_when; [apply calm_refl | ]
    | apply respects_for_each; [apply calm_refl | apply calm_trans | intros ?]
    | apply respects_modify; intros ?;
      repeat match goal with
             | |- context [match ?x with _ => _ end] => destruct x
             end;
      unfold calm; cbn; auto with zarith ].


(** ** The steps that leave the store and the upstream alone *)

Section Calm.
Import Runtime Environment Providers Messages Json.

Lemma calm_await d : respects calm (await_ d).
Proof.
  intros w r w' H. unfold await_ in H.
  destruct (deadline w) as [|at_ms|]; [ | destruct (at_ms <=? _) | ];
    inversion H; subst; unfold calm; cbn; repeat split; lia.
Qed.

Lemma calm_logger a b c : respects calm (logger a b c).
Proof. unfold logger. calm_step. Qed.

Lemma calm_commit : respects calm Crud.commit.
Proof.
  intros w r w' H. unfold Crud.commit in H.
  destruct (db_budget w) as [[|n]|]; inversion H; subst; unfold calm; cbn;
    auto with zarith.
Qed.

Lemma calm_uuid4 : respects calm Crud.uuid4.
Proof. intros w r w' H. inversion H; subst. unfold calm; cbn; auto with zarith. Qed.

Lemma calm_create_chat_message cid r c m rid fr pt ct tt el :
  respects calm (Crud.create_chat_message cid r c m rid fr pt ct tt el).
Proof.
  unfold Crud.create_chat_message, Crud.utcnow, Crud.get_conversation.
  repeat (apply calm_uuid4 || apply calm_commit || calm_step).
Qed.

Lemma calm_create_conversation title h : respects calm (Crud.create_conversation title h).
Proof.
  unfold Crud.create_conversation, Crud.utcnow.
  repeat (apply calm_uuid4 || apply calm_commit || calm_step).
Qed.

Lemma calm_lookup_requested env payload : respects calm (lookup_requested env payload).
Proof. unfold lookup_requested, Crud.get_conversation. repeat calm_step. Qed.

Lemma calm_record_incoming env payload normalized api_key rid :
  respects calm (record_incoming env payload normalized api_key rid).
Proof.
  unfold record_incoming, store_incoming.
  repeat (apply calm_lookup_requested || apply calm_create_conversation
          || apply calm_create_chat_message || calm_step).
Qed.

Lemma calm_send_usage env payload : respects calm (UsageCallback.send_usage env payload).
Proof.
  unfold UsageCallback.send_usage, UsageCallback.post.
  repeat (apply calm_await || apply calm_logger || calm_step).
Qed.



End Calm.

(** ** What the two policies do to the provider calls *)

Section Policies.
Import Runtime Environment Providers Messages Json.

(** The decorated call cannot fail on its own: either the breaker lets it
    through (and counts a success), or it rejects it without running it. *)
Lemma breaker_call_ret_cases env {A} (x : A) w :
  breaker_call env (ret x) w = (Ok x, set_breaker (mkBreaker 0 Closed) w)
  \/ exists msg, breaker_call env (ret x) w = (Raise (CircuitBreakerError msg), w).
Proof.
  unfold breaker_call, guarded, on_success, time_ms, bind, gets, modify, attempt, ret.
  destruct (state (breaker w)) as [|opened_at|]; cbn.
  - left. reflexivity.
  - destruct (now w <? _); [right; eexists; reflexivity | left].
    cbn. destruct w; reflexivity.
  - left. reflexivity.
Qed.

Lemma retrying_breaker_call env {A} (x : A) n w :
  retrying n (breaker_call env (ret x)) w
  = (Ok x, set_breaker (mkBreaker 0 Closed) w)
  \/ exists msg,
       retrying n (breaker_call env (ret x)) w = (Raise (CircuitBreakerError msg), w).
Proof.
  induction n as [|n IH]; cbn [retrying].
  - apply breaker_call_ret_cases.
  - unfold try_except.
    destruct (breaker_call_ret_cases env x w) as [-> | [msg ->]]; [left; reflexivity | ].
    cbn. exact IH.
Qed.

Lemma generate_cases env req w :
  generate env req w = (Ok (generate_body env req), set_breaker (mkBreaker 0 Closed) w)
  \/ exists msg, generate env req w = (Raise (CircuitBreakerError msg), w).
Proof. apply retrying_breaker_call. Qed.

Lemma generate_stream_cases env req w :
  generate_stream env req w
  = (Ok (generate_stream_body env req), set_breaker (mkBreaker 0 Closed) w)
  \/ exists msg, generate_stream env req w = (Raise (CircuitBreakerError msg), w).
Proof. apply retrying_breaker_call. Qed.

Lemma provider_chunks_cases env req w :
  provider_chunks env req w
  = generate_stream_body env req (set_breaker (mkBreaker 0 Closed) w)
  \/ exists msg,
       provider_chunks env req w
       = (Ok (mkTrace [] (Some (CircuitBreakerError msg))), w).
Proof.
  unfold provider_chunks, bind, attempt.
  destruct (generate_stream_cases env req w) as [-> | [msg ->]];
    [left | right; exists msg]; reflexivity.
Qed.


Lemma calm_iterate_stream created events fin :
  respects calm (iterate_stream created events fin).
Proof.
  induction events as [|event events IH]; cbn [iterate_stream].
  - unfold stream_end, gen_await, gen_stop, gen_fail.
    repeat (apply calm_await || calm_step).
  - unfold gen_await, gen_yield, gen_fail.
    repeat (apply IH || apply calm_await || calm_step).
Qed.

Lemma calm_open_stream env created n : respects calm (open_stream env created n).
Proof.
  unfold open_stream, gen_await, gen_fail.
  repeat (apply calm_iterate_stream || apply calm_await || calm_step).
Qed.

(** The body of [generate_stream] makes exactly one upstream call, whatever
    the upstream answers, and does not report to the breaker. *)
Lemma generate_stream_body_once env req w r w' :
  generate_stream_body env req w = (r, w') ->
  upstream_calls w' = S (upstream_calls w) /\ breaker w' = breaker w.
Proof.
  unfold generate_stream_body, next_upstream_call, time_ms.
  unfold bind at 1 2 3 4. unfold gets, modify, ret. cbn.
  intros H. apply calm_open_stream in H as (_ & _ & H1 & H2). cbn in H1, H2. auto.
Qed.

(** X17: no retry for a stream: iterating the provider's chunks makes at
    most one upstream call, and the breaker never counts a failure for it. *)
Lemma stream_is_attempted_once env req w r w' :
  provider_chunks env req w = (r, w') ->
  (upstream_calls w' <= S (upstream_calls w))%nat
  /\ (breaker w' = breaker w \/ breaker w' = mkBreaker 0 Closed).
Proof.
  intros H.
  destruct (provider_chunks_cases env req w) as [Hp | [msg Hp]]; rewrite Hp in H.
  - apply generate_stream_body_once in H as (H1 & H2). cbn in H1, H2.
    split; [lia | right; exact H2].
  - inversion H; subst. split; [lia | left; reflexivity].
Qed.





End Policies.

(** ** The handler, step by step *)

Section Handler.
Import Runtime Environment Providers Messages Json.

Lemma canonical_handler_under_limiter env payload api_key idem_key request_id session w :
  _canonical_handler env payload api_key idem_key request_id session w
  = bind (cached_response payload idem_key)
      (fun cached =>
         match cached with
         | Some c => ret (JSONResponse c)
         | None => handle_fresh env payload api_key idem_key request_id session
         end)
      (RateLimit.take_slot api_key w).
Proof.
  unfold _canonical_handler, RateLimit.get_limiter, RateLimit.acquire.
  unfold bind at 1 2 3. unfold modify, ret, RateLimit.take_slot.
  destruct (limiters w !! api_key) as [n|] eqn:E.
  - cbn. rewrite E. reflexivity.
  - cbn. rewrite lookup_insert_eq, insert_insert_eq.
    replace (set_limiters _ (set_limiters _ w))
      with (set_limiters (<[api_key:=S (default 0%nat None)]> (limiters w)) w)
      by (destruct w; reflexivity).
    reflexivity.
Qed.

Lemma cached_response_run payload K w :
  stream payload = false -> Py.truthy K = true ->
  cached_response payload (Some K) w = (Ok (cache_hit K w), w).
Proof.
  intros Hs HK. unfold cached_response, cache_hit. cbn. rewrite HK, Hs. cbn.
  unfold Idempotency.get_cached_response, Idempotency._redis_get, bind, gets, ret.
  destruct (find _ (cache w)) as [e|]; [ | reflexivity].
  destruct (Py.truthy (ce_raw e)); [ | reflexivity].
  destruct (loads (ce_raw e)); reflexivity.
Qed.

Lemma cached_response_pure payload idem w :
  exists r, cached_response payload idem w = (Ok r, w).
Proof.
  unfold cached_response.
  destruct (Py.truthy_opt idem && negb (stream payload)); [ | eexists; reflexivity].
  unfold Idempotency.get_cached_response, Idempotency._redis_get, bind, gets, ret.
  destruct (find _ (cache w)) as [e|]; [ | eexists; reflexivity].
  destruct (Py.truthy (ce_raw e)); [ | eexists; reflexivity].
  destruct (loads (ce_raw e)); eexists; reflexivity.
Qed.

Lemma cache_hit_take_slot K key w :
  cache_hit K (RateLimit.take_slot key w) = cache_hit K w.
Proof.
  unfold cache_hit, Idempotency.get_cached_response, Idempotency._redis_get,
    bind, gets, ret.
  cbn. destruct (find _ (cache w)) as [e|]; [ | reflexivity].
  destruct (Py.truthy (ce_raw e)); reflexivity.
Qed.

Lemma handler_on_hit env payload api_key K request_id session w c :
  stream payload = false -> Py.truthy K = true ->
  cache_hit K w = Some c ->
  _canonical_handler env payload api_key (Some K) request_id session w
  = (Ok (JSONResponse c), RateLimit.take_slot api_key w).
Proof.
  intros Hs HK Hc.
  rewrite canonical_handler_under_limiter. unfold bind.
  rewrite cached_response_run by assumption.
  rewrite cache_hit_take_slot, Hc. reflexivity.
Qed.

(** *** The idempotency store *)

Lemma find_filter_implied {A} (p q : A -> bool) l :
  (forall x, p x = true -> q x = true) ->
  List.find p (List.filter q l) = List.find p l.
Proof.
  intros Hpq. induction l as [|x l IH]; [reflexivity | ].
  cbn. destruct (q x) eqn:Q; cbn.
  - destruct (p x); [reflexivity | exact IH].
  - destruct (p x) eqn:P; [ | exact IH].
    apply Hpq in P. congruence.
Qed.

Lemma find_last_key key t (kept : list CacheEntry) e :
  Forall (fun x => Idempotency.has_key key x = false) kept ->
  Idempotency.has_key key e = true -> Idempotency.live t e = true ->
  List.find (fun x => Idempotency.has_key key x && Idempotency.live t x) (kept ++ [e])
  = Some e.
Proof.
  intros Hk He Hl. induction Hk as [|x kept Hx _ IH]; cbn.
  - rewrite He, Hl. reflexivity.
  - rewrite Hx. cbn. exact IH.
Qed.

Lemma set_cached_response_run env K v w :
  exists kept,
    Idempotency.set_cached_response env K v w
    = (Ok tt, set_cache (kept ++ [mkCacheEntry ("idemp:" ++ K)
                                   (dumps default_opts v)
                                   (now w + Idempotency.ttl_ms env)]) w)
    /\ Forall (fun x => Idempotency.has_key ("idemp:" ++ K) x = false) kept.
Proof.
  unfold Idempotency.set_cached_response, Idempotency._redis_set, modify.
  set (others := List.filter _ (List.filter _ (cache w))).
  assert (Ho : Forall (fun x => Idempotency.has_key ("idemp:" ++ K) x = false) others).
  { subst others. apply List.Forall_forall. intros x Hx.
    apply List.filter_In in Hx as [_ Hx]. apply negb_true_iff in Hx. exact Hx. }
  cbv beta iota delta [Idempotency.maxsize Idempotency._redis].
  destruct (existsb _ _).
  - exists others. split; [reflexivity | exact Ho].
  - exists (drop (S (length others) - 5000) others). split; [reflexivity | ].
    apply Forall_drop. exact Ho.
Qed.








End Handler.


(** ** [json.loads] reads back what [json.dumps] writes *)

Section RoundTrip.
Import Json.

Lemma append_cons c s t : String c s ++ t = String c (s ++ t).
Proof. reflexivity. Qed.

Lemma parse_escaped_char c tail :
  parse_string_body (escape_char true c ++ tail)
  = match parse_string_body tail with
    | Some (body, rest) => Some (String c body, rest)
    | None => None
    end.
Proof.
  destruct c as [[] [] [] [] [] [] [] []]; cbn; reflexivity.
Qed.

Lemma append_assoc (a b c : string) : (a ++ b) ++ c = a ++ (b ++ c).
Proof. induction a as [|x a IH]; [reflexivity | ]. change (String x ((a ++ b) ++ c) = String x (a ++ (b ++ c))). congruence. Qed.

Lemma parse_escaped s rest :
  parse_string_body (escape true s ++ Py.dq ++ rest) = Some (s, rest).
Proof.
  induction s as [|c s IH]; cbn [escape].
  - reflexivity.
  - rewrite append_assoc, parse_escaped_char, IH. reflexivity.
Qed.

Lemma parse_quoted s rest :
  exists tail,
    quote true s ++ rest = String Py.dquote tail
    /\ parse_string_body tail = Some (s, rest).
Proof.
  exists (escape true s ++ Py.dq ++ rest). split.
  - unfold quote. rewrite !append_assoc. reflexivity.
  - apply parse_escaped.
Qed.

(** *** Integers *)

Lemma parse_digits_stop acc rest :
  digit_next rest = false -> parse_digits acc rest = (acc, rest).
Proof.
  destruct rest as [|c r]; [reflexivity | ]. cbn.
  destruct (digit_val c); [discriminate | reflexivity].
Qed.

Lemma digit_val_char (x : N) :
  (x < 10)%N -> digit_val (pretty_N_char x) = Some (Z.of_N x).
Proof.
  intros H.
  assert (x = 0 \/ x = 1 \/ x = 2 \/ x = 3 \/ x = 4 \/ x = 5 \/ x = 6 \/ x = 7
          \/ x = 8 \/ x = 9)%N as Hx by lia.
  repeat (destruct Hx as [-> | Hx]; [reflexivity | ]). subst. reflexivity.
Qed.

(** The digits of a positive number start with a non-zero digit, and
    reading them back accumulates the number. *)
Lemma parse_pretty_go (x : N) :
  (0 < x)%N ->
  forall s, exists c r d,
    pretty_N_go x s = String c r
    /\ digit_val c = Some d /\ 0 < d
    /\ parse_digits d r = parse_digits (Z.of_N x) s.
Proof.
  induction (N.lt_wf_0 x) as [x _ IH]. intros Hpos s.
  rewrite pretty_N_go_step by exact Hpos.
  destruct (N.ltb_spec x 10) as [Hsmall | Hbig].
  - rewrite N.div_small, N.mod_small by exact Hsmall.
    rewrite pretty_N_go_0.
    exists (pretty_N_char x), s, (Z.of_N x).
    repeat split; [apply digit_val_char; exact Hsmall | lia].
  - assert (Hq : (0 < x / 10)%N) by (apply N.div_str_pos; lia).
    destruct (IH (x / 10)%N (N.div_lt x 10 Hpos eq_refl) Hq
                (String (pretty_N_char (x mod 10)) s))
      as (c & r & d & -> & Hc & Hd & Hp).
    exists c, r, d. repeat split; try assumption.
    rewrite Hp. cbn [parse_digits].
    rewrite digit_val_char by (apply N.mod_lt; lia).
    f_equal. rewrite <- N2Z.inj_mul with (n := 10%N), <- N2Z.inj_add.
    f_equal. rewrite (N.div_mod x 10) at 3 by lia. reflexivity.
Qed.

Lemma pretty_N_go_app x : forall s rest, pretty_N_go x s ++ rest = pretty_N_go x (s ++ rest).
Proof.
  induction (N.lt_wf_0 x) as [x _ IH]. intros s rest.
  destruct (N.eq_dec x 0%N) as [-> | Hx].
  - rewrite !pretty_N_go_0. reflexivity.
  - rewrite (pretty_N_go_step x s), (pretty_N_go_step x (s ++ rest)) by lia.
    rewrite IH by (apply N.div_lt; lia). reflexivity.
Qed.

Lemma parse_nat_pretty (x : N) rest :
  stops_number rest ->
  parse_nat (pretty x ++ rest) = Some (Z.of_N x, rest).
Proof.
  intros [Hd Hf]. unfold pretty, pretty_N.
  destruct (decide (x = 0%N)) as [-> | Hx].
  - change (parse_nat (String "0"%char rest) = Some (0, rest)).
    unfold parse_nat. change (digit_val "0"%char) with (Some 0).
    rewrite Hd. cbn [Z.eqb andb]. rewrite parse_digits_stop by exact Hd.
    rewrite Hf. reflexivity.
  - rewrite pretty_N_go_app. change ("" ++ rest) with rest.
    destruct (parse_pretty_go x ltac:(lia) rest) as (c & r & d & -> & Hc & Hpos & Hp).
    unfold parse_nat. rewrite Hc.
    replace (d =? 0) with false by (symmetry; apply Z.eqb_neq; lia). cbn [andb].
    rewrite Hp, parse_digits_stop by exact Hd. rewrite Hf. reflexivity.
Qed.

Lemma pretty_pos_head (p : positive) rest :
  exists c r d, pretty (Npos p) ++ rest = String c r /\ digit_val c = Some d.
Proof.
  unfold pretty, pretty_N. destruct (decide _) as [H | _]; [discriminate | ].
  rewrite pretty_N_go_app.
  destruct (parse_pretty_go (Npos p) ltac:(lia) ("" ++ rest)) as (c & r & d & E & Hc & _).
  rewrite E.
  eauto.
Qed.

Lemma digit_not_dash c d : digit_val c = Some d -> c <> "-"%char.
Proof. intros H ->. discriminate. Qed.

Lemma parse_int_pretty (z : Z) rest :
  stops_number rest ->
  parse_int (pretty z ++ rest) = Some (z, rest).
Proof.
  intros Hr. destruct z as [|p|p].
  - change (pretty 0) with (pretty 0%N). apply (parse_nat_pretty 0 rest Hr).
  - change (pretty (Z.pos p)) with (pretty (Npos p)).
    destruct (pretty_pos_head p rest) as (c & r & d & E & Hc).
    pose proof (parse_nat_pretty (Npos p) rest Hr) as H. rewrite E in *.
    unfold parse_int.
    destruct c as [[] [] [] [] [] [] [] []]; try exact H; discriminate.
  - change (pretty (Z.neg p) ++ rest) with (String "-"%char (pretty (Npos p) ++ rest)).
    unfold parse_int. rewrite (parse_nat_pretty (Npos p) rest Hr). reflexivity.
Qed.

(** *** Values *)

Lemma dumps_arr o items : dumps o (JArr items) = "[" ++ dumps_items o items ++ "]".
Proof.
  cbn [dumps].
  match goal with
  | |- _ ++ ?g items ++ _ = _ =>
      assert (H : forall l, g l = dumps_items o l);
      [ intros l; induction l as [|x l IH];
        [ reflexivity
        | destruct l as [|y l];
          [ reflexivity
          | change (g (x :: y :: l))
              with (dumps o x ++ item_separator o ++ g (y :: l));
            rewrite IH; reflexivity ] ]
      | rewrite H; reflexivity ]
  end.
Qed.

Lemma dumps_obj o members : dumps o (JObj members) = "{" ++ dumps_members o members ++ "}".
Proof.
  cbn [dumps].
  match goal with
  | |- _ ++ ?g members ++ _ = _ =>
      assert (H : forall l, g l = dumps_members o l);
      [ intros l; induction l as [|[k x] l IH];
        [ reflexivity
        | destruct l as [|[k' y] l];
          [ reflexivity
          | change (g ((k, x) :: (k', y) :: l))
              with (quote (ensure_ascii o) k ++ key_separator o ++ dumps o x
                    ++ item_separator o ++ g ((k', y) :: l));
            rewrite IH; reflexivity ] ]
      | rewrite H; reflexivity ]
  end.
Qed.

Lemma size_arr items : size (JArr items) = S (size_items items).
Proof.
  cbn [size].
  match goal with
  | |- S (?g items) = _ => assert (H : forall l, g l = size_items l)
  end.
  { intros l. induction l as [|x l IH]; [reflexivity | ].
    cbn [size_items]. rewrite <- IH. reflexivity. }
  rewrite H. reflexivity.
Qed.

Lemma size_obj members : size (JObj members) = S (size_members members).
Proof.
  cbn [size].
  match goal with
  | |- S (?g members) = _ => assert (H : forall l, g l = size_members l)
  end.
  { intros l. induction l as [|[k x] l IH]; [reflexivity | ].
    cbn [size_members]. rewrite <- IH. reflexivity. }
  rewrite H. reflexivity.
Qed.

Lemma parse_value_space f s : parse_value f (String " "%char s) = parse_value f s.
Proof. destruct f; reflexivity. Qed.

Lemma parse_items_space f s : parse_items f (String " "%char s) = parse_items f s.
Proof. destruct f; [reflexivity | ]. cbn [parse_items]. rewrite parse_value_space. reflexivity. Qed.

Lemma parse_value_number f c r z rest :
  (digit_val c <> None \/ c = "-"%char) ->
  parse_int (String c r) = Some (z, rest) ->
  parse_value (S f) (String c r) = Some (JInt z, rest).
Proof.
  intros Hc Hp.
  assert (E : parse_value (S f) (String c r)
              = match parse_int (String c r) with
                | Some (z, r') => Some (JInt z, r')
                | None => None
                end).
  { destruct Hc as [Hc | ->]; [ | reflexivity].
    destruct c as [[] [] [] [] [] [] [] []];
      try (exfalso; apply Hc; reflexivity); reflexivity. }
  rewrite E, Hp. reflexivity.
Qed.

Lemma pretty_Z_head (z : Z) rest :
  exists c r, pretty z ++ rest = String c r
              /\ (digit_val c <> None \/ c = "-"%char).
Proof.
  destruct z as [|p|p].
  - exists "0"%char, rest. split; [reflexivity | left; discriminate].
  - destruct (pretty_pos_head p rest) as (c & r & d & E & Hc).
    exists c, r. split; [exact E | left; congruence].
  - exists "-"%char, (pretty (Npos p) ++ rest). split; [reflexivity | right; reflexivity].
Qed.

Lemma parse_value_int f (z : Z) rest :
  stops_number rest ->
  parse_value (S f) (pretty z ++ rest) = Some (JInt z, rest).
Proof.
  intros Hr. destruct (pretty_Z_head z rest) as (c & r & E & Hc).
  pose proof (parse_int_pretty z rest Hr) as Hp. rewrite E in *.
  apply parse_value_number; assumption.
Qed.

Lemma parse_value_string f s rest :
  parse_value (S f) (quote true s ++ rest) = Some (JStr s, rest).
Proof.
  destruct (parse_quoted s rest) as (tail & -> & Hp).
  change (parse_value (S f) (String Py.dquote tail))
    with (match parse_string_body tail with
          | Some (x, r') => Some (JStr x, r')
          | None => None
          end).
  rewrite Hp. reflexivity.
Qed.

Lemma digit_or_dash_plain c :
  (digit_val c <> None \/ c = "-"%char) ->
  is_ws c = false /\ c <> "]"%char /\ c <> "}"%char.
Proof.
  intros [Hc | ->]; [ | repeat split; discriminate].
  destruct c as [[] [] [] [] [] [] [] []];
    try (exfalso; apply Hc; reflexivity); repeat split; discriminate.
Qed.

(** Every document starts with a character that is neither white space
    nor a closing bracket. *)
Lemma dumps_head o v rest :
  exists c r, dumps o v ++ rest = String c r
              /\ is_ws c = false /\ c <> "]"%char /\ c <> "}"%char.
Proof.
  destruct v as [|[]|z|s|items|members].
  - exists "n"%char, ("ull" ++ rest). repeat split; discriminate.
  - exists "t"%char, ("rue" ++ rest). repeat split; discriminate.
  - exists "f"%char, ("alse" ++ rest). repeat split; discriminate.
  - destruct (pretty_Z_head z rest) as (c & r & E & Hc).
    exists c, r. split; [exact E | apply digit_or_dash_plain; exact Hc].
  - exists Py.dquote, ((escape (ensure_ascii o) s ++ Py.dq) ++ rest).
    repeat split; discriminate.
  - rewrite dumps_arr. exists "["%char, ((dumps_items o items ++ "]") ++ rest).
    repeat split; discriminate.
  - rewrite dumps_obj. exists "{"%char, ((dumps_members o members ++ "}") ++ rest).
    repeat split; discriminate.
Qed.

Lemma parse_value_array f c r :
  is_ws c = false -> c <> "]"%char ->
  parse_value (S f) (String "["%char (String c r))
  = match parse_items f (String c r) with
    | Some (l, r') => Some (JArr l, r')
    | None => None
    end.
Proof.
  intros Hw Hc.
  destruct c as [[] [] [] [] [] [] [] []];
    try discriminate Hw; try (exfalso; apply Hc; reflexivity); reflexivity.
Qed.

Lemma parse_value_object f c r :
  is_ws c = false -> c <> "}"%char ->
  parse_value (S f) (String "{"%char (String c r))
  = match parse_members f (String c r) with
    | Some (l, r') => Some (JObj l, r')
    | None => None
    end.
Proof.
  intros Hw Hc.
  destruct c as [[] [] [] [] [] [] [] []];
    try discriminate Hw; try (exfalso; apply Hc; reflexivity); reflexivity.
Qed.

Lemma stops_at_comma r : stops_number (String ","%char r).
Proof. split; reflexivity. Qed.

Lemma stops_at_bracket r : stops_number (String "]"%char r).
Proof. split; reflexivity. Qed.

Lemma stops_at_brace r : stops_number (String "}"%char r).
Proof. split; reflexivity. Qed.

Lemma stops_at_end : stops_number "".
Proof. split; reflexivity. Qed.

Lemma parse_items_dumps items :
  items <> [] ->
  Forall reads_back items ->
  forall f rest,
    (size_items items < f)%nat ->
    parse_items f (dumps_items default_opts items ++ String "]"%char rest)
    = Some (items, rest).
Proof.
  intros Hne Hall. induction Hall as [|x items Hx Hall IH]; [congruence | ].
  intros f rest Hf. destruct f as [|f]; [lia | ].
  cbn [size_items] in Hf.
  destruct items as [|y items].
  - cbn [dumps_items parse_items].
    rewrite Hx by (lia || apply stops_at_bracket). reflexivity.
  - change (dumps_items default_opts (x :: y :: items))
      with (dumps default_opts x ++ ", " ++ dumps_items default_opts (y :: items)).
    rewrite !append_assoc.
    change (", " ++ ?t) with (String ","%char (String " "%char t)).
    cbn [parse_items].
    rewrite Hx by (lia || apply stops_at_comma).
    change (skip_ws (String ","%char ?t)) with (String ","%char t). cbv iota beta.
    rewrite parse_items_space, IH by (congruence || lia). reflexivity.
Qed.

Lemma parse_members_quoted f tail :
  parse_members (S f) (String Py.dquote tail)
  = match parse_string_body tail with
    | Some (k, r1) =>
        match skip_ws r1 with
        | String ":"%char r2 =>
            match parse_value f r2 with
            | Some (v, r3) =>
                match skip_ws r3 with
                | String ","%char r4 =>
                    match parse_members f r4 with
                    | Some (l, r5) => Some ((k, v) :: l, r5)
                    | None => None
                    end
                | String "}"%char r4 => Some ([(k, v)], r4)
                | _ => None
                end
            | None => None
            end
        | _ => None
        end
    | None => None
    end.
Proof. reflexivity. Qed.

Lemma parse_members_space f s : parse_members f (String " "%char s) = parse_members f s.
Proof. destruct f; reflexivity. Qed.

Lemma parse_members_dumps members :
  members <> [] ->
  Forall (fun kv => reads_back (snd kv)) members ->
  forall f rest,
    (size_members members < f)%nat ->
    parse_members f (dumps_members default_opts members ++ String "}"%char rest)
    = Some (members, rest).
Proof.
  intros Hne Hall. induction Hall as [|[k x] members Hx Hall IH]; [congruence | ].
  intros f rest Hf. destruct f as [|f]; [lia | ].
  cbn [size_members] in Hf. cbn [snd] in Hx.
  destruct members as [|[k' y] members].
  - change (dumps_members default_opts [(k, x)])
      with (quote true k ++ ": " ++ dumps default_opts x).
    rewrite !append_assoc.
    destruct (parse_quoted k (": " ++ dumps default_opts x ++ String "}"%char rest))
      as (tail & -> & Hk).
    rewrite parse_members_quoted, Hk.
    change (": " ++ ?t) with (String ":"%char (String " "%char t)).
    change (skip_ws (String ":"%char ?t)) with (String ":"%char t). cbv iota beta.
    rewrite parse_value_space, Hx by (lia || apply stops_at_brace). reflexivity.
  - change (dumps_members default_opts ((k, x) :: (k', y) :: members))
      with (quote true k ++ ": " ++ dumps default_opts x ++ ", "
            ++ dumps_members default_opts ((k', y) :: members)).
    rewrite !append_assoc.
    match goal with
    | |- parse_members _ (quote true k ++ ?t) = _ =>
        destruct (parse_quoted k t) as (tail & -> & Hk)
    end.
    rewrite parse_members_quoted, Hk.
    change (": " ++ ?t) with (String ":"%char (String " "%char t)).
    change (skip_ws (String ":"%char ?t)) with (String ":"%char t). cbv iota beta.
    change (", " ++ ?t) with (String ","%char (String " "%char t)).
    rewrite parse_value_space, Hx by (lia || apply stops_at_comma).
    change (skip_ws (String ","%char ?t)) with (String ","%char t). cbv iota beta.
    rewrite parse_members_space, IH by (congruence || lia). reflexivity.
Qed.

Lemma size_pos v : (0 < size v)%nat.
Proof. destruct v; cbn; lia. Qed.

Lemma size_items_In x items : In x items -> (size x < size_items items)%nat.
Proof.
  induction items as [|y items IH]; [contradiction | ].
  intros [-> | H]; cbn [size_items]; [lia | specialize (IH H); lia].
Qed.

Lemma size_members_In k x members :
  In (k, x) members -> (size x < size_members members)%nat.
Proof.
  induction members as [|[k' y] members IH]; [contradiction | ].
  intros [E | H]; cbn [size_members]; [inversion E; subst; lia | specialize (IH H); lia].
Qed.

Lemma parse_dumps v : reads_back v.
Proof.
  induction (Nat.lt_wf_0_projected size v) as [v _ IH].
  intros f rest Hf Hr. destruct f as [|f]; [lia | ].
  destruct v as [|[]|z|s|items|members].
  - reflexivity.
  - reflexivity.
  - reflexivity.
  - apply parse_value_int. exact Hr.
  - apply parse_value_string.
  - rewrite size_arr in Hf. rewrite dumps_arr, !append_assoc.
    change ("[" ++ ?t) with (String "["%char t).
    destruct items as [|x items]; [reflexivity | ].
    assert (Hall : Forall reads_back (x :: items)).
    { apply List.Forall_forall. intros u Hu. apply IH.
      rewrite size_arr. apply size_items_In in Hu. lia. }
    change ("]" ++ rest) with (String "]"%char rest).
    destruct (dumps_head default_opts x
                (match items with
                 | [] => ""
                 | _ => ", " ++ dumps_items default_opts items
                 end ++ String "]"%char rest))
      as (c & r & E & Hw & Hc & _).
    assert (E' : dumps_items default_opts (x :: items) ++ String "]"%char rest
                 = String c r).
    { rewrite <- E. destruct items; cbn [dumps_items]; rewrite ?append_assoc; reflexivity. }
    pose proof (parse_items_dumps (x :: items) ltac:(congruence) Hall f rest ltac:(lia))
      as Hp.
    rewrite E' in *. rewrite parse_value_array, Hp by assumption. reflexivity.
  - rewrite size_obj in Hf. rewrite dumps_obj, !append_assoc.
    change ("{" ++ ?t) with (String "{"%char t).
    destruct members as [|[k x] members]; [reflexivity | ].
    assert (Hall : Forall (fun kv => reads_back (snd kv)) ((k, x) :: members)).
    { apply List.Forall_forall. intros [k' u] Hu. cbn [snd]. apply IH.
      rewrite size_obj. apply size_members_In in Hu. lia. }
    change ("}" ++ rest) with (String "}"%char rest).
    pose proof (parse_members_dumps ((k, x) :: members) ltac:(congruence) Hall f rest
                  ltac:(lia)) as Hp.
    assert (E : exists r, dumps_members default_opts ((k, x) :: members)
                          ++ String "}"%char rest = String Py.dquote r).
    { destruct members as [|[k' y] members]; cbn [dumps_members]; unfold quote;
        rewrite !append_assoc; eexists; reflexivity. }
    destruct E as [r E]. rewrite E in *.
    rewrite parse_value_object, Hp by (reflexivity || discriminate). reflexivity.
Qed.

Lemma length_append (a b : string) :
  String.length (a ++ b) = (String.length a + String.length b)%nat.
Proof.
  induction a as [|c a IH]; [reflexivity | ].
  change (S (String.length (a ++ b)) = S (String.length a + String.length b)).
  rewrite IH. reflexivity.
Qed.

Lemma size_items_le items :
  Forall fits items ->
  (size_items items <= S (String.length (dumps_items default_opts items)))%nat.
Proof.
  intros Hall. induction Hall as [|x items Hx Hall IH]; [cbn; lia | ].
  unfold fits in Hx. destruct items as [|y items].
  - cbn [dumps_items size_items]. lia.
  - change (dumps_items default_opts (x :: y :: items))
      with (dumps default_opts x ++ ", " ++ dumps_items default_opts (y :: items)).
    rewrite !length_append. change (String.length ", ") with 2%nat.
    cbn [size_items] in *. lia.
Qed.

Lemma size_members_le members :
  Forall (fun kv => fits (snd kv)) members ->
  (size_members members <= S (String.length (dumps_members default_opts members)))%nat.
Proof.
  intros Hall. induction Hall as [|[k x] members Hx Hall IH]; [cbn; lia | ].
  unfold fits in Hx. cbn [snd] in Hx. destruct members as [|[k' y] members].
  - change (dumps_members default_opts [(k, x)])
      with (quote true k ++ ": " ++ dumps default_opts x).
    rewrite !length_append. cbn [size_members]. lia.
  - change (dumps_members default_opts ((k, x) :: (k', y) :: members))
      with (quote true k ++ ": " ++ dumps default_opts x ++ ", "
            ++ dumps_members default_opts ((k', y) :: members)).
    rewrite !length_append. change (String.length ", ") with 2%nat.
    cbn [size_members] in *. lia.
Qed.

Lemma size_le_length v : fits v.
Proof.
  induction (Nat.lt_wf_0_projected size v) as [v _ IH]. unfold fits.
  destruct v as [|[]|z|s|items|members]; try (cbn; lia).
  - destruct (pretty_Z_head z "") as (c & r & E & _).
    assert (E' : dumps default_opts (JInt z) = String c r).
    { rewrite <- E. cbn [dumps]. generalize (pretty z). intros t.
      induction t as [|x t IHt]; [reflexivity | ].
      change (String x t = String x (t ++ "")). rewrite <- IHt. reflexivity. }
    rewrite E'. cbn. lia.
  - change (dumps default_opts (JStr s)) with (String Py.dquote (escape true s ++ Py.dq)).
    cbn [size String.length]. lia.
  - rewrite size_arr, dumps_arr, !length_append. cbn [String.length].
    assert (H : Forall fits items).
    { apply List.Forall_forall. intros u Hu. apply IH.
      rewrite size_arr. apply size_items_In in Hu. lia. }
    apply size_items_le in H. lia.
  - rewrite size_obj, dumps_obj, !length_append. cbn [String.length].
    assert (H : Forall (fun kv => fits (snd kv)) members).
    { apply List.Forall_forall. intros [k u] Hu. cbn [snd]. apply IH.
      rewrite size_obj. apply size_members_In in Hu. lia. }
    apply size_members_le in H. lia.
Qed.

Lemma append_empty (s : string) : s ++ "" = s.
Proof.
  induction s as [|c s IH]; [reflexivity | ].
  change (String c (s ++ "") = String c s). rewrite IH. reflexivity.
Qed.

(** [json.loads(json.dumps(v))] gives [v] back. *)
Theorem loads_dumps v : loads (dumps default_opts v) = Some v.
Proof.
  unfold loads.
  pose proof (parse_dumps v (S (String.length (dumps default_opts v))) ""
                ltac:(pose proof (size_le_length v); unfold fits in *; lia)
                stops_at_end) as H.
  rewrite append_empty in H. rewrite H. reflexivity.
Qed.
End RoundTrip.

(** ** Idempotent replay *)

Section Replay.
Import Runtime Environment Providers Messages Json Scenarios.

(** C9: when a non-streamed request presents an idempotency key that hits
    the store, the handler answers with the cached body and changes nothing
    but the limiter of the caller's key: no provider call, no conversation,
    no message, no usage report, no write to the store. *)
Theorem cache_hit_has_no_other_effect env payload api_key K request_id session w c :
  stream payload = false ->
  Py.truthy K = true ->
  cache_hit K w = Some c ->
  _canonical_handler env payload api_key (Some K) request_id session w
  = (Ok (JSONResponse c), RateLimit.take_slot api_key w)
  /\ upstream_calls (RateLimit.take_slot api_key w) = upstream_calls w
  /\ breaker (RateLimit.take_slot api_key w) = breaker w
  /\ conversations (RateLimit.take_slot api_key w) = conversations w
  /\ chat_messages (RateLimit.take_slot api_key w) = chat_messages w
  /\ usage_posts (RateLimit.take_slot api_key w) = usage_posts w
  /\ cache (RateLimit.take_slot api_key w) = cache w.
Proof.
  intros Hs HK Hc. split; [ | repeat split].
  apply handler_on_hit; assumption.
Qed.

Lemma cache_hit_has_no_other_effect_witness :
  _canonical_handler env_buffered hello_buffered "alice" (Some "k1") "req-2"
    (Some RequestSession) keyed_world
  = (Ok (JSONResponse keyed_body), RateLimit.take_slot "alice" keyed_world)
  /\ upstream_calls (RateLimit.take_slot "alice" keyed_world) = 1%nat.
Proof.
  destruct (cache_hit_has_no_other_effect env_buffered hello_buffered "alice" "k1"
              "req-2" (Some RequestSession) keyed_world keyed_body)
    as (H & U & _).
  - reflexivity.
  - reflexivity.
  - vm_compute. reflexivity.
  - split; [exact H | rewrite U; vm_compute; reflexivity].
Defined.



End Replay.

(** ** Incoming persistence *)

Section Incoming.
Import Runtime Environment Providers Messages Json Scenarios.

Lemma lookup_requested_run env payload w :
  lookup_requested env payload w = (Ok (requested_conversation env payload w), w).
Proof.
  unfold lookup_requested, requested_conversation.
  destruct (conversation_id payload) as [s|]; cbn; [ | reflexivity].
  destruct (Py.truthy s); [ | reflexivity].
  unfold try_except. destruct (uuid_parse env s); reflexivity.
Qed.

(** With a healthy database every commit succeeds. *)
Lemma create_conversation_run title h w :
  db_budget w = None ->
  let c := mkConversation (next_uuid w) title h (now w) (now w) in
  Crud.create_conversation title h w
  = (Ok c, set_conversations (<[next_uuid w := c]> (conversations w))
             (set_next_uuid (N.succ (next_uuid w)) w)).
Proof.
  intros Hb. unfold Crud.create_conversation, Crud.utcnow, Crud.uuid4, Crud.commit,
    bind, gets, modify, ret. cbn. rewrite Hb. reflexivity.
Qed.

Lemma create_chat_message_run cid r c m rid fr pt ct tt el w :
  db_budget w = None ->
  let msg := Runtime.mkChatMessage (next_uuid w) cid r c m (now w) rid fr pt ct tt el in
  Crud.create_chat_message cid r c m rid fr pt ct tt el w
  = (Ok msg,
     set_chat_messages (chat_messages w ++ [msg])
       (match conversations w !! cid with
        | Some conv =>
            set_conversations (<[cid := Crud.touch (now w) conv]> (conversations w))
              (set_next_uuid (N.succ (next_uuid w)) w)
        | None => set_next_uuid (N.succ (next_uuid w)) w
        end)).
Proof.
  intros Hb. unfold Crud.create_chat_message, Crud.get_conversation, Crud.utcnow,
    Crud.uuid4, Crud.commit, bind, gets, modify, ret. cbn. rewrite Hb.
  destruct (conversations w !! cid); reflexivity.
Qed.

(** Storing the incoming messages appends them, in order, under the
    conversation and leaves its title alone. *)
Lemma store_all cid normalized rid msgs : forall w c,
  db_budget w = None -> conversations w !! cid = Some c ->
  exists w' c',
    for_each msgs (store_incoming cid normalized rid) w = (Ok tt, w')
    /\ db_budget w' = None
    /\ conversations w' !! cid = Some c'
    /\ c_title c' = c_title c
    /\ Crud.stored_under cid w'
       = (Crud.stored_under cid w ++ List.map (fun m => (role m, content m)) msgs)%list.
Proof.
  induction msgs as [|msg msgs IH]; intros w c Hb Hc.
  - exists w, c. cbn. rewrite app_nil_r. auto.
  - cbn [for_each]. unfold bind at 1. unfold store_incoming at 1. unfold bind at 1.
    rewrite create_chat_message_run by assumption. rewrite Hc. cbn [ret].
    match goal with |- context [for_each msgs _ ?W] => set (w1 := W) end.
    destruct (IH w1 (Crud.touch (now w) c)) as (w' & c' & Hrun & Hb' & Hc' & Ht & Hst).
    + subst w1. cbn. assumption.
    + subst w1. cbn. apply lookup_insert_eq.
    + exists w', c'. rewrite Hrun. repeat split; try assumption.
      rewrite Hst. subst w1. unfold Crud.stored_under. cbn.
      rewrite List.filter_app, List.map_app. cbn.
      unfold Crud.in_conversation at 2. cbn.
      rewrite N.eqb_refl. cbn. rewrite <- app_assoc. reflexivity.
Qed.

Lemma title_rule (s : string) :
  (if 100 <? Py.len s then Py.slice_to 100 s ++ "..." else s)
  = (if Py.len s <=? 100 then s else Py.slice_to 100 s ++ "...").
Proof.
  destruct (Z.ltb_spec 100 (Py.len s)), (Z.leb_spec (Py.len s) 100);
    (reflexivity || lia).
Qed.


(** C8: a request that names no existing conversation creates one; with a
    healthy database, the title stored for it is the content of the first
    message whose role is ["user"]: unchanged when it has at most 100
    characters, else its first 100 characters followed by ["..."]. *)
Theorem new_conversation_title env payload normalized api_key rid w msg :
  db_budget w = None ->
  requested_conversation env payload w = None ->
  List.find (fun m => String.eqb (role m) "user") (messages payload) = Some msg ->
  exists c w' stored,
    record_incoming env payload normalized api_key rid w
    = (Ok (Some c, Some (c_id c)), w')
    /\ conversations w' !! c_id c = Some stored
    /\ c_title stored
       = Some (if Py.len (content msg) <=? 100 then content msg
               else Py.slice_to 100 (content msg) ++ "...").
Proof.
  intros Hb Hreq Hfind.
  unfold record_incoming. unfold bind at 1. rewrite lookup_requested_run, Hreq.
  unfold bind at 1. rewrite create_conversation_run by assumption.
  set (c := mkConversation _ _ _ _ _).
  match goal with |- context [bind (for_each _ _) _ ?W] => set (w1 := W) end.
  destruct (store_all (c_id c) normalized rid (messages payload) w1 c)
    as (w' & c' & Hrun & _ & Hc' & Ht & _).
  - assumption.
  - subst w1 c. cbn. apply lookup_insert_eq.
  - exists c, w', c'. unfold bind. rewrite Hrun. cbn [ret].
    repeat split; [exact Hc' | ].
    rewrite Ht. subst c. cbn. unfold first_user_title. rewrite Hfind.
    rewrite title_rule. reflexivity.
Qed.

Lemma new_conversation_title_witness :
  exists c w' stored,
    record_incoming env_buffered stray_request "openai:gpt-4o-mini" "alice" "req-1"
      fresh_world
    = (Ok (Some c, Some (c_id c)), w')
    /\ conversations w' !! c_id c = Some stored
    /\ c_title stored = Some "hello".
Proof.
  apply (new_conversation_title env_buffered stray_request "openai:gpt-4o-mini"
           "alice" "req-1" fresh_world (mkMessage "user" "hello"));
    reflexivity.
Defined.



End Incoming.

(** ** The error event *)

Section ErrorEvent.
Import Runtime Environment Providers Messages Json Scenarios.

Lemma run_loop_snoc env cid chunks chunk :
  run_loop env cid (chunks ++ [chunk])
  = loop_step env cid (run_loop env cid chunks) chunk.
Proof. unfold run_loop. apply fold_left_app. Qed.

Lemma loop_step_events env cid acc chunk :
  exists d,
    snd (loop_step env cid acc chunk)
    = (snd acc ++ [_sse_format (JObj (("id", JStr (chunk_id chunk)) :: d))])%list.
Proof.
  destruct acc as [l out]. unfold loop_step.
  destruct cid as [c|]; [destruct (_ =? 1) | ]; cbn; eexists; reflexivity.
Qed.

Lemma chunk_events_shape env cid chunks :
  Forall is_chunk_event (chunk_events env cid chunks).
Proof.
  unfold chunk_events.
  induction chunks as [|chunk chunks IH] using rev_ind; [constructor | ].
  rewrite run_loop_snoc.
  destruct (loop_step_events env cid (run_loop env cid chunks) chunk) as [d ->].
  apply Forall_app. split; [exact IH | ].
  constructor; [ | constructor]. eexists _, _. reflexivity.
Qed.

Lemma chunk_event_not_sentinel event : is_chunk_event event -> event <> DONE.
Proof. intros (i & d & ->). cbn. discriminate. Qed.

Lemma chunk_event_not_error event : is_chunk_event event -> is_error_event event = false.
Proof. intros (i & d & ->). destruct d as [|[k v] d]; reflexivity. Qed.

Lemma sse_events_shape chunks :
  Forall is_chunk_event (snd (fold_left sse_step chunks (0, []))).
Proof.
  induction chunks as [|chunk chunks IH] using rev_ind; [constructor | ].
  rewrite fold_left_app. cbn [fold_left].
  destruct (fold_left sse_step chunks (0, [])) as [n out].
  cbn [sse_step snd] in *.
  apply Forall_app. split; [exact IH | ].
  constructor; [ | constructor]. eexists _, _. reflexivity.
Qed.

Lemma event_gen_error env req normalized api_key rid cid w src w1 e :
  provider_chunks env req w = (Ok src, w1) ->
  outcome src = Some e ->
  is_Exception e = true ->
  exists tr w2,
    event_gen env req normalized api_key rid cid w = (Ok tr, w2)
    /\ emitted tr = (chunk_events env cid (emitted src)
                     ++ [_sse_format (error_data e); DONE])%list.
Proof.
  intros Hsrc He Hx.
  unfold event_gen. unfold bind at 1. unfold time_ms, gets.
  unfold bind at 1. rewrite Hsrc.
  rewrite He, Hx.
  unfold bind at 1. unfold bind at 1. unfold logger, modify, ret.
  unfold bind at 1. unfold attempt.
  destruct (event_gen_finally _ _ _ _ _ _ _ _ _) as [[u|e'] w2];
    eexists _, _; (split; reflexivity).
Qed.

Lemma sse_gen_error env req api_key rid w src w1 e :
  provider_chunks env req w = (Ok src, w1) ->
  outcome src = Some e ->
  is_Exception e = true ->
  exists tr w2,
    sse_gen env req api_key rid w = (Ok tr, w2)
    /\ emitted tr = (snd (fold_left sse_step (emitted src) (0, []))
                     ++ [_sse_format (oa_error_data e); DONE])%list.
Proof.
  intros Hsrc He Hx.
  unfold sse_gen. unfold bind at 1. rewrite Hsrc.
  destruct (fold_left sse_step (emitted src) (0, [])) as [n out].
  rewrite He, Hx.
  unfold bind at 1 2. unfold logger, modify at 1, ret at 1. cbn beta iota zeta.
  unfold bind at 1. unfold attempt.
  destruct (try_except _ _ _ _) as [[u|e'] w2];
    eexists _, _; (split; reflexivity).
Qed.

(** C2, as the code has it: when the provider's chunk sequence ends with an
    exception [e], each of the two generators sends the events of the chunks
    received so far, none of which is an error event, then one error event
    that carries the text of the exception next to a fixed label, then the
    terminal sentinel, and nothing else.  The payload of the error event is
    [{"error": "Streaming error occurred", "message": str(e)}] on the
    canonical endpoint ([event_gen]) and
    [{"error": {"message": "Streaming error: " + str(e),
                "type": "streaming_error"}}]
    on the OpenAI-compatible one ([sse_gen]). *)
Theorem provider_error_event env req normalized api_key rid cid w src w1 e :
  provider_chunks env req w = (Ok src, w1) ->
  outcome src = Some e ->
  is_Exception e = true ->
  let canonical_error :=
    _sse_format (JObj [("error", JStr "Streaming error occurred");
                       ("message", JStr (str e))]) in
  let openai_error :=
    _sse_format
      (JObj [("error",
              JObj [("message", JStr ("Streaming error: " ++ str e));
                    ("type", JStr "streaming_error")])]) in
  (exists tr w2,
     event_gen env req normalized api_key rid cid w = (Ok tr, w2)
     /\ emitted tr
        = (chunk_events env cid (emitted src) ++ [canonical_error; DONE])%list
     /\ Forall (fun event => is_error_event event = false)
          (chunk_events env cid (emitted src))
     /\ is_error_event canonical_error = true)
  /\ (exists tr w2,
        sse_gen env req api_key rid w = (Ok tr, w2)
        /\ emitted tr
           = (snd (fold_left sse_step (emitted src) (0, []))
              ++ [openai_error; DONE])%list
        /\ Forall (fun event => is_error_event event = false)
             (snd (fold_left sse_step (emitted src) (0, [])))
        /\ is_error_event openai_error = true).
Proof.
  intros Hsrc He Hx canonical_error openai_error. split.
  - destruct (event_gen_error env req normalized api_key rid cid w src w1 e
                Hsrc He Hx) as (tr & w2 & H & E).
    exists tr, w2. split; [exact H | split; [exact E | split; [ | reflexivity]]].
    eapply Forall_impl; [apply chunk_events_shape | apply chunk_event_not_error].
  - destruct (sse_gen_error env req api_key rid w src w1 e Hsrc He Hx)
      as (tr & w2 & H & E).
    exists tr, w2. split; [exact H | split; [exact E | split; [ | reflexivity]]].
    eapply Forall_impl; [apply sse_events_shape | apply chunk_event_not_error].
Qed.

Lemma provider_error_event_witness :
  (exists tr w2,
     event_gen env_broken_stream broken_request "openai:gpt-4o-mini" "alice" "req-1"
       (Some 0%N) fresh_world = (Ok tr, w2)
     /\ emitted tr
        = (chunk_events env_broken_stream (Some 0%N)
             [mkChunk "chatcmpl-1" "gpt-4o-mini" 0 "Hi" None]
           ++ [_sse_format (JObj [("error", JStr "Streaming error occurred");
                                  ("message", JStr leak)]);
               DONE])%list)
  /\ (exists tr w2,
        sse_gen env_broken_stream broken_request "alice" "req-1" fresh_world
        = (Ok tr, w2)
        /\ emitted tr
           = (snd (fold_left sse_step
                     [mkChunk "chatcmpl-1" "gpt-4o-mini" 0 "Hi" None] (0, []))
              ++ [_sse_format
                    (JObj [("error",
                            JObj [("message", JStr ("Streaming error: " ++ leak));
                                  ("type", JStr "streaming_error")])]);
                  DONE])%list).
Proof.
  destruct (provider_error_event env_broken_stream broken_request "openai:gpt-4o-mini"
              "alice" "req-1" (Some 0%N) fresh_world
              (mkTrace [mkChunk "chatcmpl-1" "gpt-4o-mini" 0 "Hi" None]
                 (Some (UpstreamError leak)))
              (set_now 140
                 (set_upstream_calls 1%nat
                    (set_breaker (mkBreaker 0 Closed) fresh_world)))
              (UpstreamError leak))
    as [(tr & w2 & H & E & _) (tr' & w3 & H' & E' & _)].
  - vm_compute. reflexivity.
  - reflexivity.
  - reflexivity.
  - split; [exists tr, w2 | exists tr', w3]; split; assumption.
Defined.

End ErrorEvent.

(** ** What leaves the [finally] block, and the sentinel without a collector *)

Section Escapes.
Import Runtime Environment Providers Messages Json.

Lemma escapes_ret P {A} (a : A) : escapes_only P (ret a).
Proof. intros w e w' H. discriminate. Qed.

Lemma escapes_gets P {A} (f : World -> A) : escapes_only P (gets f).
Proof. intros w e w' H. discriminate. Qed.

Lemma escapes_modify P f : escapes_only P (modify f).
Proof. intros w e w' H. discriminate. Qed.

Lemma escapes_bind P {A B} (m : M A) (k : A -> M B) :
  escapes_only P m -> (forall a, escapes_only P (k a)) -> escapes_only P (bind m k).
Proof.
  intros Hm Hk w e w' H. unfold bind in H.
  destruct (m w) as [[a|e0] w1] eqn:E.
  - eapply Hk, H.
  - inversion H; subst. eapply Hm, E.
Qed.

Lemma escapes_try_except P Q {A} (body : M A) catches (h : Exn -> M A) :
  escapes_only P body ->
  (forall e, P e -> catches e = false -> Q e) ->
  (forall e, escapes_only Q (h e)) ->
  escapes_only Q (try_except body catches h).
Proof.
  intros Hb Hq Hh w e w' H. unfold try_except in H.
  destruct (body w) as [[a|e0] w1] eqn:E; [discriminate | ].
  destruct (catches e0) eqn:X.
  - eapply Hh, H.
  - inversion H; subst. eapply Hq; [eapply Hb, E | exact X].
Qed.

Lemma escapes_when P b m : escapes_only P m -> escapes_only P (when b m).
Proof. intros Hm. destruct b; [exact Hm | apply escapes_ret]. Qed.

Lemma escapes_commit : escapes_only (fun e => is_Exception e = true) Crud.commit.
Proof.
  intros w e w' H. unfold Crud.commit in H.
  destruct (db_budget w) as [[|n]|]; inversion H. reflexivity.
Qed.

Lemma escapes_create_chat_message cid r c m rid fr pt ct tt' el :
  escapes_only (fun e => is_Exception e = true)
    (Crud.create_chat_message cid r c m rid fr pt ct tt' el).
Proof.
  unfold Crud.create_chat_message, Crud.utcnow, Crud.get_conversation.
  repeat first
    [ apply escapes_commit | apply escapes_ret | apply escapes_gets
    | apply escapes_modify
    | apply escapes_bind; [ | intros ?] ].
  intros w e w' H. discriminate.
Qed.

(** Nothing that is an [Exception] leaves the [finally] block of
    [event_gen]: a failure to save the assistant message or to report usage
    is logged there and goes no further. *)
Lemma finally_swallows_exceptions env req normalized api_key rid cid start l :
  escapes_only (fun e => is_Exception e = false)
    (event_gen_finally env req normalized api_key rid cid start l).
Proof.
  unfold event_gen_finally.
  apply escapes_bind.
  - destruct cid; [ | apply escapes_ret].
    apply escapes_when.
    apply (escapes_try_except (fun _ => True)); [intros w e w' _; exact I | auto | ].
    intros e. apply escapes_modify.
  - intros _.
    apply (escapes_try_except (fun _ => True)); [intros w e w' _; exact I | auto | ].
    intros e. apply escapes_modify.
Qed.

Lemma same_deadline_refl w : same_deadline w w.
Proof. reflexivity. Qed.

Lemma same_deadline_trans a b c :
  same_deadline a b -> same_deadline b c -> same_deadline a c.
Proof. unfold same_deadline. congruence. Qed.

Ltac deadline_step :=
  first
    [ split_match
    | apply respects_ret; apply same_deadline_refl
    | apply respects_raise; apply same_deadline_refl
    | apply respects_gets; apply same_deadline_refl
    | apply respects_bind; [apply same_deadline_trans | | intros ?]
    | apply respects_try_except; [apply same_deadline_trans | | intros ?]
    | apply respects_attempt
    | apply respects_when; [apply same_deadline_refl | ]
    | apply respects_modify; intros ?;
      repeat match goal with
             | |- context [match ?x with _ => _ end] => destruct x
             end;
      reflexivity ].

Lemma same_deadline_create_chat_message cid r c m rid fr pt ct tt' el :
  respects same_deadline (Crud.create_chat_message cid r c m rid fr pt ct tt' el).
Proof.
  unfold Crud.create_chat_message, Crud.utcnow, Crud.get_conversation.
  repeat first
    [ deadline_step
    | intros w r0 w' H; unfold Crud.uuid4 in H; inversion H; reflexivity
    | intros w r0 w' H; unfold Crud.commit in H;
      destruct (db_budget w) as [[|n]|]; inversion H; reflexivity ].
Qed.

(** ** Cancellation comes from the deadline *)

Lemma cancelled_stop {Y} : cancelled_by_deadline (@gen_stop Y).
Proof. intros w. eexists _, _. split; [reflexivity | discriminate]. Qed.

Lemma cancelled_fail {Y} e :
  is_Exception e = true -> cancelled_by_deadline (@gen_fail Y e).
Proof.
  intros He w. eexists _, _. split; [reflexivity | ].
  cbn. intros [= ->]. discriminate.
Qed.

Lemma cancelled_yield {Y} (y : Y) rest :
  cancelled_by_deadline rest -> cancelled_by_deadline (gen_yield y rest).
Proof.
  intros Hr w. destruct (Hr w) as (tr & w' & E & F).
  unfold gen_yield, bind. rewrite E. eexists _, _. split; [reflexivity | exact F].
Qed.

Lemma cancelled_await {Y} d (k : AsyncGen Y) :
  cancelled_by_deadline k -> cancelled_by_deadline (gen_await d k).
Proof.
  intros Hk w. unfold gen_await, bind, attempt, await_.
  destruct (deadline w) as [|at_ms|]; try apply Hk.
  destruct (at_ms <=? _); [ | apply Hk].
  eexists _, _. split; [reflexivity | reflexivity].
Qed.

Lemma cancelled_iterate_stream created events fin :
  cancelled_by_deadline (iterate_stream created events fin).
Proof.
  induction events as [|event events IH]; cbn [iterate_stream].
  - destruct fin; cbn [stream_end]; apply cancelled_await;
      [apply cancelled_stop | apply cancelled_fail; reflexivity].
  - apply cancelled_await. destruct (ev_choices event).
    + apply cancelled_fail. reflexivity.
    + apply cancelled_yield, IH.
Qed.

Lemma cancelled_provider_chunks env req :
  cancelled_by_deadline (provider_chunks env req).
Proof.
  intros w.
  destruct (provider_chunks_cases env req w) as [-> | [msg ->]].
  - unfold generate_stream_body, next_upstream_call, time_ms.
    unfold bind at 1 2 3 4. unfold gets, modify, ret. cbn.
    unfold open_stream. destruct (upstream_stream env _); apply cancelled_await.
    + apply cancelled_fail. reflexivity.
    + apply cancelled_iterate_stream.
  - eexists _, _. split; [reflexivity | discriminate].
Qed.

End Escapes.

Section OneSentinel.
Import Runtime Environment Providers Messages Json.

Lemma chunk_events_no_sentinel env cid chunks :
  sentinels (chunk_events env cid chunks) = 0%nat.
Proof.
  unfold sentinels. apply count_occ_not_In. intros Hin.
  pose proof (chunk_events_shape env cid chunks) as Hf.
  rewrite List.Forall_forall in Hf.
  exact (chunk_event_not_sentinel _ (Hf _ Hin) eq_refl).
Qed.

Lemma sentinels_app a b : sentinels (a ++ b) = (sentinels a + sentinels b)%nat.
Proof. apply count_occ_app. Qed.

Lemma sentinels_closing data : sentinels [_sse_format (JObj data); DONE] = 1%nat.
Proof.
  unfold sentinels. cbn [count_occ].
  destruct (string_dec (_sse_format (JObj data)) DONE) as [E|_].
  - destruct data as [|[k v] data]; cbn in E; discriminate.
  - destruct (string_dec DONE DONE); [reflexivity | contradiction].
Qed.

Lemma sentinels_done : sentinels [DONE] = 1%nat.
Proof.
  unfold sentinels. cbn [count_occ].
  destruct (string_dec DONE DONE); [reflexivity | contradiction].
Qed.

End OneSentinel.

(** ** Ownership in the conversation routes *)

Section Ownership.
Import Runtime Environment Messages Conversations.

Lemma access_denied_foreign env conversation h key :
  c_api_key_hash conversation = Some h ->
  Py.truthy h = true ->
  h <> api_key_hash_of env (or_public key) ->
  access_denied env conversation key = true.
Proof.
  intros Hh Ht Hne. unfold access_denied. rewrite Hh, Ht.
  apply String.eqb_neq in Hne. rewrite Hne. reflexivity.
Qed.

(** X12: the three routes of [conversations.py] refuse a caller whose key
    hash differs from the conversation's non-empty owner hash: each answers
    403 and leaves the state as it was. *)
Lemma foreign_key_is_refused env text cid conversation h key title w :
  uuid_parse env text = Some cid ->
  conversations w !! cid = Some conversation ->
  c_api_key_hash conversation = Some h ->
  Py.truthy h = true ->
  h <> api_key_hash_of env (or_public key) ->
  let denied := HTTPException 403 "Access denied to this conversation" in
  get_conversation_history env text key w = (Raise denied, w)
  /\ update_conversation_title env text title key w = (Raise denied, w)
  /\ delete_conversation_endpoint env text key w = (Raise denied, w).
Proof.
  intros Hp Hc Hh Ht Hne denied.
  pose proof (access_denied_foreign env conversation h key Hh Ht Hne) as Hd.
  unfold get_conversation_history, update_conversation_title,
    delete_conversation_endpoint, parse_id, Crud.get_conversation_with_messages,
    Crud.get_conversation, Crud.get_chat_messages.
  rewrite Hp. unfold bind, ret, gets, raise. rewrite Hc. cbn beta iota zeta.
  rewrite Hd. auto.
Qed.

End Ownership.

(** ** The idempotency store *)

Section Store.
Import Runtime Environment Json Scenarios.

Lemma dumps_truthy v : Py.truthy (dumps default_opts v) = true.
Proof.
  pose proof (loads_dumps v) as H.
  destruct (dumps default_opts v); [discriminate | reflexivity].
Qed.

Lemma prefixed_key_inj (K K' : string) : K <> K' -> "idemp:" ++ K <> "idemp:" ++ K'.
Proof.
  intros H E. apply H.
  cbv beta iota fix delta [String.append] in E. congruence.
Qed.

Lemma find_none_last {A} (p : A -> bool) l x :
  Forall (fun y => p y = false) l -> p x = false -> List.find p (l ++ [x]) = None.
Proof.
  intros Hl Hx. induction Hl as [|y l Hy _ IH]; cbn.
  - rewrite Hx. reflexivity.
  - rewrite Hy. exact IH.
Qed.

(** X1: what [set_cached_response] stores under a key is what
    [get_cached_response] answers for that key, for every JSON value, as long
    as less than the TTL has passed since the write. *)
Theorem cached_response_round_trip env K v w d :
  0 <= d -> d < Idempotency.ttl_ms env ->
  let w1 := snd (Idempotency.set_cached_response env K v w) in
  Idempotency.get_cached_response K (elapse d w1) = (Ok (Some v), elapse d w1).
Proof.
  intros Hd Ht w1. subst w1.
  destruct (set_cached_response_run env K v w) as (kept & -> & Hkept).
  unfold Idempotency.get_cached_response, Idempotency._redis_get, bind, gets, ret.
  cbn [snd elapse cache set_cache set_now now].
  rewrite find_last_key.
  - cbn [ce_raw]. rewrite dumps_truthy, loads_dumps. reflexivity.
  - exact Hkept.
  - unfold Idempotency.has_key. cbn. apply String.eqb_refl.
  - unfold Idempotency.live. cbn. apply Z.ltb_lt. lia.
Qed.

Lemma cached_response_round_trip_witness :
  Idempotency.get_cached_response "k1"
    (elapse 599999
       (snd (Idempotency.set_cached_response env_buffered "k1"
               (JObj [("content", JStr "Hello!")]) fresh_world)))
  = (Ok (Some (JObj [("content", JStr "Hello!")])),
     elapse 599999
       (snd (Idempotency.set_cached_response env_buffered "k1"
               (JObj [("content", JStr "Hello!")]) fresh_world))).
Proof.
  apply (cached_response_round_trip env_buffered "k1"
           (JObj [("content", JStr "Hello!")]) fresh_world 599999).
  - lia.
  - vm_compute. reflexivity.
Defined.

(** X2: once the TTL has passed since the write, the entry is gone: the
    lookup is a miss. *)
Theorem cached_response_expires env K v w d :
  Idempotency.ttl_ms env <= d ->
  let w1 := snd (Idempotency.set_cached_response env K v w) in
  Idempotency.get_cached_response K (elapse d w1) = (Ok None, elapse d w1).
Proof.
  intros Ht w1. subst w1.
  destruct (set_cached_response_run env K v w) as (kept & -> & Hkept).
  unfold Idempotency.get_cached_response, Idempotency._redis_get, bind, gets, ret.
  cbn [snd elapse cache set_cache set_now now].
  rewrite find_none_last; [reflexivity | | ].
  - eapply Forall_impl; [exact Hkept | ]. cbn. intros x ->. reflexivity.
  - unfold Idempotency.live. cbn. rewrite andb_false_iff. right.
    apply Z.ltb_ge. lia.
Qed.

Lemma cached_response_expires_witness :
  Idempotency.get_cached_response "k1"
    (elapse 600000
       (snd (Idempotency.set_cached_response env_buffered "k1"
               (JObj [("content", JStr "Hello!")]) fresh_world)))
  = (Ok None,
     elapse 600000
       (snd (Idempotency.set_cached_response env_buffered "k1"
               (JObj [("content", JStr "Hello!")]) fresh_world))).
Proof.
  apply (cached_response_expires env_buffered "k1"
           (JObj [("content", JStr "Hello!")]) fresh_world 600000).
  vm_compute. discriminate.
Defined.

(** X3: a second write under the same key replaces the first: the lookup
    answers the value written last. *)
Theorem cached_response_last_write_wins env K v1 v2 w d1 d2 :
  0 <= d2 -> d2 < Idempotency.ttl_ms env ->
  let w1 := elapse d1 (snd (Idempotency.set_cached_response env K v1 w)) in
  let w2 := snd (Idempotency.set_cached_response env K v2 w1) in
  Idempotency.get_cached_response K (elapse d2 w2) = (Ok (Some v2), elapse d2 w2).
Proof.
  intros Hd Ht w1 w2. subst w2.
  destruct (set_cached_response_run env K v2 w1) as (kept & -> & Hkept).
  unfold Idempotency.get_cached_response, Idempotency._redis_get, bind, gets, ret.
  cbn [snd elapse cache set_cache set_now now].
  rewrite find_last_key.
  - cbn [ce_raw]. rewrite dumps_truthy, loads_dumps. reflexivity.
  - exact Hkept.
  - unfold Idempotency.has_key. cbn. apply String.eqb_refl.
  - unfold Idempotency.live. cbn. apply Z.ltb_lt. lia.
Qed.

Lemma cached_response_last_write_wins_witness :
  Idempotency.get_cached_response "k1"
    (elapse 10
       (snd (Idempotency.set_cached_response env_buffered "k1" (JStr "second")
               (elapse 5
                  (snd (Idempotency.set_cached_response env_buffered "k1"
                          (JStr "first") fresh_world))))))
  = (Ok (Some (JStr "second")),
     elapse 10
       (snd (Idempotency.set_cached_response env_buffered "k1" (JStr "second")
               (elapse 5
                  (snd (Idempotency.set_cached_response env_buffered "k1"
                          (JStr "first") fresh_world)))))).
Proof.
  apply (cached_response_last_write_wins env_buffered "k1" (JStr "first")
           (JStr "second") fresh_world 5 10).
  - lia.
  - vm_compute. reflexivity.
Defined.

Lemma find_app_miss {A} (p : A -> bool) l x :
  p x = false -> List.find p (l ++ [x]) = List.find p l.
Proof.
  intros Hx. induction l as [|y l IH]; cbn.
  - rewrite Hx. reflexivity.
  - destruct (p y); [reflexivity | exact IH].
Qed.

(** X4: while the in-process cache holds fewer than 5000 entries, a write
    under one key does not change what the lookup answers for any other
    key.  The setting [REDIS_URL] plays no part: the application never
    opens the shared store. *)
Theorem cached_response_other_key env K K' v w :
  K <> K' ->
  (length (cache w) < 5000)%nat ->
  fst (Idempotency.get_cached_response K'
         (snd (Idempotency.set_cached_response env K v w)))
  = fst (Idempotency.get_cached_response K' w).
Proof.
  intros Hne Hroom.
  assert (Hk : forall e, Idempotency.has_key ("idemp:" ++ K') e = true ->
                         Idempotency.has_key ("idemp:" ++ K) e = false).
  { intros e He. unfold Idempotency.has_key in *.
    apply String.eqb_eq in He. apply String.eqb_neq. rewrite He.
    apply not_eq_sym, prefixed_key_inj, Hne. }
  assert (Hfind :
    List.find (fun e => Idempotency.has_key ("idemp:" ++ K') e
                        && Idempotency.live (now w) e)
      (snd (Idempotency.set_cached_response env K v w)).(cache)
    = List.find (fun e => Idempotency.has_key ("idemp:" ++ K') e
                          && Idempotency.live (now w) e) (cache w)).
  { unfold Idempotency.set_cached_response, Idempotency._redis_set, modify.
    cbn [snd cache set_cache].
    set (alive := List.filter (Idempotency.live (now w)) (cache w)).
    set (others := List.filter _ alive).
    assert (Hkept : match Idempotency.maxsize with
                    | Some n => if existsb (Idempotency.has_key ("idemp:" ++ K)) alive
                                then others
                                else drop (S (length others) - n) others
                    | None => others
                    end = others).
    { cbv beta iota delta [Idempotency.maxsize Idempotency._redis].
      destruct (existsb _ alive); [reflexivity | ].
      replace (S (length others) - 5000)%nat with 0%nat; [reflexivity | ].
      assert (length others <= length (cache w))%nat; [ | lia].
      subst others alive.
      etransitivity; [apply List.filter_length_le | apply List.filter_length_le]. }
    rewrite Hkept. rewrite find_app_miss.
    - subst others alive. rewrite !find_filter_implied; [reflexivity | | ].
      + intros x Hx. apply andb_true_iff in Hx as [_ Hx]. exact Hx.
      + intros x Hx. apply andb_true_iff in Hx as [Hx _]. apply Hk in Hx.
        rewrite Hx. reflexivity.
    - apply andb_false_iff. left. unfold Idempotency.has_key. cbn [ce_key].
      apply String.eqb_neq, prefixed_key_inj, Hne. }
  unfold Idempotency.get_cached_response, Idempotency._redis_get, bind, gets, ret.
  replace (now (snd (Idempotency.set_cached_response env K v w))) with (now w)
    by reflexivity.
  rewrite Hfind.
  destruct (List.find _ (cache w)) as [e|]; [ | reflexivity].
  destruct (Py.truthy (ce_raw e)); reflexivity.
Qed.

Lemma cached_response_other_key_witness :
  fst (Idempotency.get_cached_response "k1"
         (snd (Idempotency.set_cached_response env_buffered "k2" (JStr "other")
                 keyed_world)))
  = fst (Idempotency.get_cached_response "k1" keyed_world).
Proof.
  apply (cached_response_other_key env_buffered "k2" "k1" (JStr "other") keyed_world).
  - discriminate.
  - vm_compute. lia.
Defined.

(** The in-process cache is bounded: a write never leaves it with more
    than 5000 entries. *)
Lemma memory_cache_is_bounded env K v w :
  (length (cache w) <= 5000)%nat ->
  (length (cache (snd (Idempotency.set_cached_response env K v w))) <= 5000)%nat.
Proof.
  intros Hlen.
  unfold Idempotency.set_cached_response, Idempotency._redis_set, modify.
  cbn [snd cache set_cache].
  cbv beta iota delta [Idempotency.maxsize Idempotency._redis].
  set (alive := List.filter (Idempotency.live (now w)) (cache w)).
  set (others := List.filter _ alive).
  assert (Ha : (length alive <= length (cache w))%nat)
    by apply List.filter_length_le.
  rewrite length_app. cbn [length].
  destruct (existsb _ alive) eqn:E.
  - assert (length others < length alive)%nat; [ | lia].
    apply existsb_exists in E as (x & Hin & Hx).
    subst others. clear Ha. induction alive as [|y l IH]; [destruct Hin | ].
    cbn. destruct Hin as [-> | Hin].
    + rewrite Hx. cbn. pose proof (List.filter_length_le
        (fun e => negb (Idempotency.has_key ("idemp:" ++ K) e)) l). lia.
    + destruct (negb _); cbn; [apply IH in Hin; lia | ].
      pose proof (List.filter_length_le
        (fun e => negb (Idempotency.has_key ("idemp:" ++ K) e)) l). lia.
  - rewrite length_drop. lia.
Qed.

End Store.

(** ** Conversations and messages in the database *)

Section Database.
Import Runtime Environment Json Scenarios Crud.

(** X6: a conversation that [create_conversation] has created is what
    [get_conversation] finds under its id: it carries the given title and
    owner hash and the time of creation as both timestamps; every other
    conversation and every stored message is left as it was. *)
Theorem created_conversation_is_found title h w c w1 :
  create_conversation title h w = (Ok c, w1) ->
  get_conversation (c_id c) w1 = (Ok (Some c), w1)
  /\ c = mkConversation (next_uuid w) title h (now w) (now w)
  /\ (forall other, other <> c_id c ->
        conversations w1 !! other = conversations w !! other)
  /\ chat_messages w1 = chat_messages w.
Proof.
  unfold create_conversation, utcnow, uuid4, commit, get_conversation,
    bind, gets, modify, ret. cbn.
  destruct (db_budget w) as [[|n]|]; intros H; inversion H; subst; clear H; cbn;
    (split; [rewrite lookup_insert_eq; reflexivity | ]);
    (split; [reflexivity | ]);
    (split; [ | reflexivity]);
    intros other Ho; apply lookup_insert_ne; congruence.
Qed.

Lemma created_conversation_is_found_witness :
  get_conversation 0%N
    (snd (create_conversation (Some "hello") (Some "5") fresh_world))
  = (Ok (Some (mkConversation 0%N (Some "hello") (Some "5") 0 0)),
     snd (create_conversation (Some "hello") (Some "5") fresh_world)).
Proof.
  destruct (created_conversation_is_found (Some "hello") (Some "5") fresh_world
              (mkConversation 0%N (Some "hello") (Some "5") 0 0)
              (snd (create_conversation (Some "hello") (Some "5") fresh_world)))
    as (H & _).
  - vm_compute. reflexivity.
  - exact H.
Defined.

Lemma filter_filter_neg cid (l : list ChatMessage) :
  List.filter (in_conversation cid)
    (List.filter (fun m => negb (in_conversation cid m)) l) = [].
Proof.
  induction l as [|m l IH]; [reflexivity | ].
  cbn. destruct (in_conversation cid m) eqn:E; cbn; [exact IH | ].
  rewrite E. exact IH.
Qed.

Lemma filter_filter_other cid other (l : list ChatMessage) :
  other <> cid ->
  List.filter (in_conversation other)
    (List.filter (fun m => negb (in_conversation cid m)) l)
  = List.filter (in_conversation other) l.
Proof.
  intros Hne. induction l as [|m l IH]; [reflexivity | ].
  cbn. destruct (in_conversation cid m) eqn:E; cbn.
  - assert (in_conversation other m = false) as ->; [ | exact IH].
    unfold in_conversation in *. apply N.eqb_eq in E. apply N.eqb_neq. congruence.
  - destruct (in_conversation other m); [f_equal | ]; exact IH.
Qed.

(** X7: [delete_conversation] has three outcomes.  For an id that names
    no conversation it returns [False] and changes nothing; when the commit
    fails nothing is changed either; when it returns [True] the conversation
    and all its messages are gone, and every other conversation keeps its row
    and its messages. *)
Theorem delete_conversation_outcomes cid w r w1 :
  delete_conversation cid w = (r, w1) ->
  (r = Ok false /\ w1 = w /\ conversations w !! cid = None)
  \/ (exists msg, r = Raise (DBError msg) /\ w1 = w)
  \/ (r = Ok true
      /\ conversations w !! cid <> None
      /\ conversations w1 !! cid = None
      /\ messages_of cid w1 = []
      /\ forall other, other <> cid ->
           conversations w1 !! other = conversations w !! other
           /\ messages_of other w1 = messages_of other w).
Proof.
  unfold delete_conversation, get_conversation, commit, bind, gets, modify, ret.
  destruct (conversations w !! cid) as [c|] eqn:E.
  - destruct (db_budget w) as [[|n]|]; intros H; inversion H; subst; clear H.
    + right. left. eauto.
    + right. right. split; [reflexivity | ]. split; [discriminate | ].
      unfold messages_of. cbn.
      split; [apply lookup_delete_eq | ]. split; [apply filter_filter_neg | ].
      intros other Ho. split; [apply lookup_delete_ne; congruence | ].
      apply filter_filter_other, Ho.
    + right. right. split; [reflexivity | ]. split; [discriminate | ].
      unfold messages_of. cbn.
      split; [apply lookup_delete_eq | ]. split; [apply filter_filter_neg | ].
      intros other Ho. split; [apply lookup_delete_ne; congruence | ].
      apply filter_filter_other, Ho.
  - intros H. inversion H; subst. left. auto.
Qed.

Lemma delete_conversation_outcomes_witness :
  conversations (snd (delete_conversation 0%N alice_world)) !! 0%N = None
  /\ messages_of 0%N (snd (delete_conversation 0%N alice_world)) = [].
Proof.
  destruct (delete_conversation_outcomes 0%N alice_world (Ok true)
              (snd (delete_conversation 0%N alice_world)))
    as [(H & _) | [(msg & H & _) | (_ & _ & H1 & H2 & _)]].
  - vm_compute. reflexivity.
  - discriminate H.
  - discriminate H.
  - split; [exact H1 | exact H2].
Defined.

(** X8: a message that [create_chat_message] has stored is the newest
    message of its conversation; the conversation, when it exists, gets the
    current time as [updated_at]; other conversations and their messages are
    left as they were. *)
Theorem chat_message_is_appended cid r c m rid fr pt ct tt' el w msg w1 :
  create_chat_message cid r c m rid fr pt ct tt' el w = (Ok msg, w1) ->
  msg = Runtime.mkChatMessage (next_uuid w) cid r c m (now w) rid fr pt ct tt' el
  /\ chat_messages w1 = (chat_messages w ++ [msg])%list
  /\ messages_of cid w1 = (messages_of cid w ++ [msg])%list
  /\ conversations w1 !! cid = option_map (touch (now w)) (conversations w !! cid)
  /\ forall other, other <> cid ->
       conversations w1 !! other = conversations w !! other
       /\ messages_of other w1 = messages_of other w.
Proof.
  unfold create_chat_message, get_conversation, utcnow, uuid4, commit,
    bind, gets, modify, ret. cbn.
  assert (Hmine : forall l x, m_conversation_id x = cid ->
            List.filter (in_conversation cid) (l ++ [x])
            = (List.filter (in_conversation cid) l ++ [x])%list).
  { intros l x Hx. rewrite List.filter_app. cbn. unfold in_conversation at 2.
    rewrite Hx, N.eqb_refl. reflexivity. }
  assert (Hother : forall other l x, m_conversation_id x = cid -> other <> cid ->
            List.filter (in_conversation other) (l ++ [x])
            = List.filter (in_conversation other) l).
  { intros other l x Hx Ho. rewrite List.filter_app. cbn. unfold in_conversation at 2.
    rewrite Hx. destruct (N.eqb_spec cid other); [congruence | apply app_nil_r]. }
  unfold messages_of.
  destruct (db_budget w) as [[|n]|]; intros H; inversion H; subst; clear H;
    (split; [reflexivity | ]);
    destruct (conversations w !! cid) as [conv|] eqn:E; cbn;
    (split; [reflexivity | ]);
    (split; [apply Hmine; reflexivity | ]);
    (split; [first [apply lookup_insert_eq | rewrite E; reflexivity] | ]);
    intros other Ho;
    (split; [first [apply lookup_insert_ne; congruence | reflexivity]
            | apply Hother; [reflexivity | exact Ho]]).
Qed.

Lemma chat_message_is_appended_witness :
  messages_of 0%N
    (snd (create_chat_message 0%N "user" "again" None None None None None None None
            alice_world))
  = (messages_of 0%N alice_world
     ++ [Runtime.mkChatMessage 3%N 0%N "user" "again" None 240 None None None None None
           None])%list.
Proof.
  destruct (chat_message_is_appended 0%N "user" "again" None None None None None None
              None alice_world
              (Runtime.mkChatMessage 3%N 0%N "user" "again" None 240 None None None None None
                 None)
              (snd (create_chat_message 0%N "user" "again" None None None None None
                      None None alice_world)))
    as (_ & _ & H & _).
  - vm_compute. reflexivity.
  - exact H.
Defined.

End Database.

(** ** The conversation routes *)

Section Routes.
Import Runtime Environment Json Scenarios Crud Messages Conversations.

Lemma pretty_Z_truthy (z : Z) : Py.truthy (pretty z) = true.
Proof.
  destruct (pretty_Z_head z "") as (c & r & E & _).
  rewrite append_empty in E. rewrite E. reflexivity.
Qed.

Lemma insert_newest_perm c l : Permutation (insert_newest c l) (c :: l).
Proof.
  induction l as [|x l IH]; cbn; [reflexivity | ].
  destruct (c_updated_at x <? c_updated_at c); [reflexivity | ].
  rewrite IH. apply perm_swap.
Qed.

Lemma newest_first_perm l : Permutation (newest_first l) l.
Proof.
  induction l as [|x l IH]; cbn; [reflexivity | ].
  rewrite insert_newest_perm. constructor. exact IH.
Qed.

Lemma insert_newest_sorted c l :
  StronglySorted not_older l -> StronglySorted not_older (insert_newest c l).
Proof.
  induction 1 as [|x l Hs IH Hx]; cbn.
  - constructor; constructor.
  - destruct (Z.ltb_spec (c_updated_at x) (c_updated_at c)).
    + constructor; [constructor; assumption | ].
      constructor; [unfold not_older; lia | ].
      eapply Forall_impl; [exact Hx | ]. unfold not_older. intros y Hy. cbn in *. lia.
    + constructor; [exact IH | ].
      rewrite (insert_newest_perm c l). constructor; [unfold not_older; lia | exact Hx].
Qed.

Lemma newest_first_sorted l : StronglySorted not_older (newest_first l).
Proof.
  induction l as [|x l IH]; cbn; [constructor | apply insert_newest_sorted, IH].
Qed.

Lemma sorted_drop {A} (R : A -> A -> Prop) n l :
  StronglySorted R l -> StronglySorted R (drop n l).
Proof.
  intros H. revert n. induction H as [|x l Hs IH Hx]; intros [|n]; cbn;
    try constructor; auto.
Qed.

Lemma sorted_take {A} (R : A -> A -> Prop) n l :
  StronglySorted R l -> StronglySorted R (take n l).
Proof.
  intros H. revert n. induction H as [|x l Hs IH Hx]; intros [|n]; cbn;
    try constructor; auto.
  apply Forall_take. exact Hx.
Qed.

Lemma with_counts_run found w :
  with_counts found w
  = (Ok (List.map (fun c => (c, length (messages_of (c_id c) w))) found), w).
Proof.
  induction found as [|c found IH]; [reflexivity | ].
  cbn [with_counts List.map]. unfold bind at 1.
  unfold count_messages_in_conversation at 1. unfold gets at 1.
  unfold bind at 1. rewrite IH. reflexivity.
Qed.

(** X10: [list_conversations] changes nothing and returns at most [limit]
    conversations, every one of them stored under the caller's key hash,
    newest [updated_at] first, each with the number of its stored messages. *)
Theorem listed_conversations_belong_to_caller env key skip limit w :
  let h := api_key_hash_of env (or_public key) in
  exists found,
    list_conversations env key skip limit w
    = (Ok (List.map (fun c => (c, length (messages_of (c_id c) w))) found), w)
    /\ (length found <= limit)%nat
    /\ Forall (fun c => c_api_key_hash c = Some h
                        /\ exists id, conversations w !! id = Some c) found
    /\ StronglySorted not_older found.
Proof.
  intros h. unfold list_conversations, get_conversations. unfold bind, gets.
  fold h. rewrite with_counts_run.
  eexists. split; [reflexivity | ]. split; [ | split].
  - rewrite length_take. lia.
  - apply Forall_take, Forall_drop.
    rewrite (newest_first_perm _).
    apply List.Forall_forall. intros c Hc.
    apply List.filter_In in Hc as [Hin Hown].
    split.
    + unfold owned_by in Hown. unfold h, api_key_hash_of in *.
      rewrite pretty_Z_truthy in Hown.
      destruct (c_api_key_hash c) as [h'|]; [ | discriminate].
      apply String.eqb_eq in Hown. congruence.
    + apply List.in_map_iff in Hin as ([id c'] & <- & Hin).
      exists id. apply elem_of_map_to_list, list_elem_of_In, Hin.
  - apply sorted_take, sorted_drop, newest_first_sorted.
Qed.

(** X11: when the caller owns no more than [limit] conversations, the
    first page of [list_conversations] contains every one of them, with its
    message count. *)
Theorem own_conversations_are_listed env key limit w id c :
  conversations w !! id = Some c ->
  c_api_key_hash c = Some (api_key_hash_of env (or_public key)) ->
  (length (owned (api_key_hash_of env (or_public key)) w) <= limit)%nat ->
  exists result,
    list_conversations env key 0 limit w = (Ok result, w)
    /\ In (c, length (messages_of (c_id c) w)) result.
Proof.
  intros Hc Hh Hlen.
  unfold list_conversations, get_conversations. unfold bind, gets.
  rewrite with_counts_run. eexists. split; [reflexivity | ].
  apply List.in_map_iff. exists c. split; [reflexivity | ].
  rewrite drop_0, take_ge.
  - apply (Permutation_in _ (Permutation_sym (newest_first_perm _))).
    apply List.filter_In. split.
    + apply List.in_map_iff. exists (id, c). split; [reflexivity | ].
      apply list_elem_of_In, elem_of_map_to_list, Hc.
    + unfold owned_by. unfold api_key_hash_of. rewrite pretty_Z_truthy.
      rewrite Hh. apply String.eqb_refl.
  - rewrite (Permutation_length (newest_first_perm _)). exact Hlen.
Qed.

Lemma own_conversations_are_listed_witness :
  exists result,
    list_conversations env_buffered (Some "alice") 0 20 alice_world
    = (Ok result, alice_world)
    /\ In (mkConversation 0%N (Some "hello") (Some "5") 0 40, 2%nat) result.
Proof.
  destruct (own_conversations_are_listed env_buffered (Some "alice") 20 alice_world
              0%N (mkConversation 0%N (Some "hello") (Some "5") 0 40))
    as (result & H & Hin).
  - vm_compute. reflexivity.
  - reflexivity.
  - vm_compute. lia.
  - exists result. split; [exact H | exact Hin].
Defined.

(** X9: for a caller that is not refused, [get_conversation_history]
    returns the conversation with its oldest 1000 messages, and its
    [message_count] is the number of messages returned, at most 1000, whereas
    [count_messages_in_conversation] (used by the listing) counts all of
    them. *)
Theorem history_holds_first_thousand env text cid conv key w :
  uuid_parse env text = Some cid ->
  conversations w !! cid = Some conv ->
  access_denied env conv key = false ->
  get_conversation_history env text key w
  = (Ok (conv, Nat.min 1000 (length (messages_of cid w)),
         take 1000 (messages_of cid w)), w)
  /\ count_messages_in_conversation cid w = (Ok (length (messages_of cid w)), w).
Proof.
  intros Hp Hc Hd.
  unfold get_conversation_history, parse_id, get_conversation_with_messages,
    get_conversation, get_chat_messages, count_messages_in_conversation.
  rewrite Hp. unfold bind, ret, gets. rewrite Hc. cbn beta iota zeta.
  rewrite Hd, drop_0, length_take. split; reflexivity.
Qed.

Lemma history_holds_first_thousand_witness :
  get_conversation_history env_buffered "0" (Some "alice") alice_world
  = (Ok (mkConversation 0%N (Some "hello") (Some "5") 0 40,
         Nat.min 1000 (length (messages_of 0%N alice_world)),
         take 1000 (messages_of 0%N alice_world)), alice_world).
Proof.
  apply (history_holds_first_thousand env_buffered "0" 0%N
           (mkConversation 0%N (Some "hello") (Some "5") 0 40) (Some "alice")
           alice_world); vm_compute; reflexivity.
Defined.

(** X13: the read, update and delete routes answer 400 to an id that is
    not a UUID and 404 to an id that names no conversation, and change
    nothing. *)
Theorem bad_conversation_ids_are_rejected env text key title w :
  match uuid_parse env text with
  | Some cid => conversations w !! cid = None
  | None => True
  end ->
  let refusal :=
    match uuid_parse env text with
    | Some _ => HTTPException 404 "Conversation not found"
    | None => HTTPException 400 "Invalid conversation ID format"
    end in
  get_conversation_history env text key w = (Raise refusal, w)
  /\ update_conversation_title env text title key w = (Raise refusal, w)
  /\ delete_conversation_endpoint env text key w = (Raise refusal, w).
Proof.
  intros H refusal. subst refusal.
  unfold get_conversation_history, update_conversation_title,
    delete_conversation_endpoint, parse_id, get_conversation_with_messages,
    get_conversation.
  destruct (uuid_parse env text) as [cid|].
  - unfold bind, ret, gets, raise. rewrite H. auto.
  - auto.
Qed.

Lemma bad_conversation_ids_are_rejected_witness :
  get_conversation_history env_buffered "not-a-uuid" (Some "alice") alice_world
  = (Raise (HTTPException 400 "Invalid conversation ID format"), alice_world)
  /\ get_conversation_history env_buffered "7" (Some "alice") alice_world
     = (Raise (HTTPException 404 "Conversation not found"), alice_world).
Proof.
  split.
  - apply (bad_conversation_ids_are_rejected env_buffered "not-a-uuid" (Some "alice")
             "t" alice_world). exact I.
  - apply (bad_conversation_ids_are_rejected env_buffered "7" (Some "alice")
             "t" alice_world). vm_compute. reflexivity.
Defined.

(** X14: when the delete route answers with success, the caller was not
    refused, the messages of the conversation are gone, and the read route
    answers 404 for that id from then on, whoever asks. *)
Theorem deleted_conversation_is_not_found env text key w body w1 :
  delete_conversation_endpoint env text key w = (Ok body, w1) ->
  exists cid conv,
    uuid_parse env text = Some cid
    /\ conversations w !! cid = Some conv
    /\ access_denied env conv key = false
    /\ messages_of cid w1 = []
    /\ forall key',
         get_conversation_history env text key' w1
         = (Raise (HTTPException 404 "Conversation not found"), w1).
Proof.
  unfold delete_conversation_endpoint, parse_id.
  destruct (uuid_parse env text) as [cid|] eqn:Hp; [ | discriminate].
  unfold bind at 1. unfold ret at 1. unfold bind at 1.
  unfold get_conversation at 1. unfold gets at 1.
  destruct (conversations w !! cid) as [conv|] eqn:Hc; [ | discriminate].
  destruct (access_denied env conv key) eqn:Hd; [discriminate | ].
  intros H. apply bind_ok in H as (success & w2 & Hdel & H).
  destruct success; [ | discriminate]. inversion H; subst body w2. clear H.
  unfold delete_conversation, get_conversation, commit, bind, gets, modify, ret in Hdel.
  rewrite Hc in Hdel.
  exists cid, conv. split; [reflexivity | ]. split; [exact Hc | ].
  split; [exact Hd | ].
  assert (Hgone : conversations w1 !! cid = None
                  /\ messages_of cid w1 = []).
  { unfold messages_of.
    destruct (db_budget w) as [[|n]|]; inversion Hdel; subst; cbn;
      (split; [apply lookup_delete_eq | ]);
      clear; induction (chat_messages w) as [|m l IH]; cbn; try reflexivity;
      destruct (in_conversation cid m) eqn:E; cbn; rewrite ?E; exact IH. }
  destruct Hgone as [Hgone Hmsgs]. split; [exact Hmsgs | ].
  intros key'. unfold get_conversation_history, parse_id. rewrite Hp.
  unfold get_conversation_with_messages, get_conversation, bind, ret, gets.
  rewrite Hgone. reflexivity.
Qed.

Lemma deleted_conversation_is_not_found_witness :
  get_conversation_history env_buffered "0" (Some "alice")
    (snd (delete_conversation_endpoint env_buffered "0" (Some "alice") alice_world))
  = (Raise (HTTPException 404 "Conversation not found"),
     snd (delete_conversation_endpoint env_buffered "0" (Some "alice") alice_world)).
Proof.
  destruct (deleted_conversation_is_not_found env_buffered "0" (Some "alice")
              alice_world
              (JObj [("message", JStr "Conversation deleted successfully")])
              (snd (delete_conversation_endpoint env_buffered "0" (Some "alice")
                      alice_world)))
    as (cid & conv & _ & _ & _ & _ & H).
  - vm_compute. reflexivity.
  - exact (H (Some "alice")).
Defined.

(** X15: when the update route answers with success, the caller was not
    refused and the conversation carries the new title (an empty one
    included) and the current time as [updated_at]; its id, owner hash and
    creation time, the other conversations and the stored messages are as
    before. *)
Theorem title_update_is_stored env text title key w body w1 :
  update_conversation_title env text title key w = (Ok body, w1) ->
  exists cid conv,
    uuid_parse env text = Some cid
    /\ conversations w !! cid = Some conv
    /\ access_denied env conv key = false
    /\ conversations w1 !! cid
       = Some (mkConversation (c_id conv) (Some title) (c_api_key_hash conv)
                 (c_created_at conv) (now w))
    /\ (forall other, other <> cid ->
          conversations w1 !! other = conversations w !! other)
    /\ chat_messages w1 = chat_messages w.
Proof.
  unfold update_conversation_title, parse_id.
  destruct (uuid_parse env text) as [cid|] eqn:Hp; [ | discriminate].
  unfold bind at 1. unfold ret at 1. unfold bind at 1.
  unfold get_conversation at 1. unfold gets at 1.
  destruct (conversations w !! cid) as [conv|] eqn:Hc; [ | discriminate].
  destruct (access_denied env conv key) eqn:Hd; [discriminate | ].
  unfold update_conversation, get_conversation, utcnow, commit, bind, gets, modify, ret.
  rewrite Hc.
  intros H. exists cid, conv. split; [reflexivity | ]. split; [exact Hc | ].
  split; [exact Hd | ].
  destruct (db_budget w) as [[|n]|]; inversion H; subst; cbn;
    (split; [apply lookup_insert_eq | ]);
    (split; [ | reflexivity]);
    intros other Ho; apply lookup_insert_ne; congruence.
Qed.

Lemma title_update_is_stored_witness :
  conversations
    (snd (update_conversation_title env_buffered "0" "" (Some "alice") alice_world))
    !! 0%N
  = Some (mkConversation 0%N (Some "") (Some "5") 0 240).
Proof.
  destruct (title_update_is_stored env_buffered "0" "" (Some "alice") alice_world
              (JObj [("message", JStr "Conversation updated successfully");
                     ("conversation_id", JStr "0")])
              (snd (update_conversation_title env_buffered "0" "" (Some "alice")
                      alice_world)))
    as (cid & conv & Hp & Hc & _ & H & _).
  - vm_compute. reflexivity.
  - vm_compute in Hp. injection Hp as <-.
    vm_compute in Hc. injection Hc as <-. exact H.
Defined.

End Routes.

(** ** The usage report and the provider calls *)

Section Upstream.
Import Runtime Environment Json Scenarios Providers Messages.

(** X5: [send_usage] never raises an [Exception], whatever the collector
    does: only the cancellation of the task by its deadline can leave it,
    and it completes when no deadline is armed.  A post that fails is logged
    as a warning and the call still returns.  When no collector is
    configured it returns at once and logs nothing. *)
Theorem usage_report_is_best_effort env payload w r w' :
  UsageCallback.send_usage env payload w = (r, w') ->
  (forall e, r = Raise e -> e = CancelledError /\ deadline w' = Fired)
  /\ now w <= now w'
  /\ (deadline w = NoDeadline -> r = Ok tt)
  /\ (r = Ok tt ->
      Py.truthy_opt (USAGE_CALLBACK_URL (settings env)) = true ->
      post_ok (collector env) = false ->
      exists detail,
        log w' = (log w ++ [mkLog "warning" "usage_callback_failed" detail])%list)
  /\ (Py.truthy_opt (USAGE_CALLBACK_URL (settings env)) = false ->
      r = Ok tt /\ now w' = now w /\ log w' = log w).
Proof.
  unfold UsageCallback.send_usage, UsageCallback.post.
  unfold bind at 1. unfold modify at 1.
  set (w0 := set_usage_posts _ w).
  assert (Hnow : now w0 = now w) by reflexivity.
  assert (Hdl : deadline w0 = deadline w) by reflexivity.
  assert (Hlog : log w0 = log w) by reflexivity.
  rewrite <- Hnow, <- Hdl, <- Hlog. clearbody w0. clear Hnow Hdl Hlog.
  destruct (Py.truthy_opt (USAGE_CALLBACK_URL (settings env))); cbn [negb].
  2:{ intros Hrun. inversion Hrun; subst.
      repeat split; try lia; intros; discriminate. }
  unfold try_except, bind, await_, logger, modify, ret, raise. cbv zeta.
  destruct (deadline w0) as [|at_ms|] eqn:Hd;
    try match goal with
        | |- context [?a <=? ?b] => destruct (Z.leb_spec a b)
        end;
    try destruct (post_ok (collector env));
    cbn; intros Hrun; inversion Hrun; subst; clear Hrun; cbn;
    (split; [intros e He; split; congruence | ]);
    (split; [lia | ]);
    (split; [intros; congruence | ]);
    (split; [intros; try discriminate; eexists; reflexivity
            | intros; discriminate]).
Qed.

Lemma usage_report_is_best_effort_witness :
  let run :=
    UsageCallback.send_usage
      (mk_env no_stream no_completion (mkCollector 9000 false)) JNull fresh_world in
  fst run = Ok tt
  /\ exists detail,
       log (snd run) = [mkLog "warning" "usage_callback_failed" detail].
Proof.
  intros run.
  destruct (usage_report_is_best_effort
              (mk_env no_stream no_completion (mkCollector 9000 false)) JNull
              fresh_world (fst run) (snd run))
    as (_ & _ & Hok & Hlog & _).
  - vm_compute. reflexivity.
  - split; [apply Hok; reflexivity | ].
    destruct Hlog as (detail & Hl);
      [apply Hok; reflexivity | reflexivity | reflexivity | ].
    exists detail. exact Hl.
Defined.

Lemma breaker_call_closed env {A} (x : A) w :
  state (breaker w) = Closed ->
  breaker_call env (ret x) w = (Ok x, set_breaker (mkBreaker 0 Closed) w).
Proof.
  intros Hc.
  unfold breaker_call, guarded, on_success, bind, gets, modify, attempt, ret.
  rewrite Hc. reflexivity.
Qed.

Lemma retrying_closed env {A} (x : A) n w :
  state (breaker w) = Closed ->
  retrying n (breaker_call env (ret x)) w
  = (Ok x, set_breaker (mkBreaker 0 Closed) w).
Proof.
  intros Hc. destruct n as [|n]; cbn [retrying].
  - apply breaker_call_closed, Hc.
  - unfold try_except. rewrite breaker_call_closed by exact Hc. reflexivity.
Qed.

Lemma calm_complete env created n : respects calm (complete env created n).
Proof. unfold complete. repeat (apply calm_await || calm_step). Qed.

(** X16: awaiting [provider.generate(req)] makes at most one upstream
    call.  With the breaker closed it makes exactly one, whether the call
    succeeds or fails, and leaves the breaker closed with no failure counted:
    a failed call is not repeated. *)
Theorem buffered_call_is_attempted_once env req w r w' :
  (coro <- generate env req ;; coro) w = (r, w') ->
  (upstream_calls w' <= S (upstream_calls w))%nat
  /\ (state (breaker w) = Closed ->
      upstream_calls w' = S (upstream_calls w)
      /\ breaker w' = mkBreaker 0 Closed).
Proof.
  intros H. unfold bind in H.
  assert (Hbody : forall w0 r0 w0',
            generate_body env req w0 = (r0, w0') ->
            upstream_calls w0' = S (upstream_calls w0) /\ breaker w0' = breaker w0).
  { intros w0 r0 w0'. unfold generate_body, next_upstream_call, time_ms.
    unfold bind at 1 2 3 4. unfold gets, modify, ret. cbn.
    intros Hb. apply calm_complete in Hb as (_ & _ & H1 & H2). cbn in H1, H2. auto. }
  split.
  - destruct (generate_cases env req w) as [Hg | [msg Hg]]; rewrite Hg in H.
    + apply Hbody in H as [H _]. cbn in H. lia.
    + inversion H; subst. lia.
  - intros Hc. unfold generate, retry in H. rewrite retrying_closed in H by exact Hc.
    apply Hbody in H. cbn in H. exact H.
Qed.

Lemma buffered_call_is_attempted_once_witness :
  let env := mk_env no_stream (fun _ => CallFails 10 "overloaded") quick_billing in
  fst ((coro <- generate env broken_request ;; coro) fresh_world)
  = Raise (UpstreamError "overloaded")
  /\ upstream_calls (snd ((coro <- generate env broken_request ;; coro) fresh_world))
     = 1%nat
  /\ breaker (snd ((coro <- generate env broken_request ;; coro) fresh_world))
     = mkBreaker 0 Closed.
Proof.
  intros env.
  destruct (buffered_call_is_attempted_once env broken_request fresh_world
              (Raise (UpstreamError "overloaded"))
              (snd ((coro <- generate env broken_request ;; coro) fresh_world)))
    as (_ & H).
  - vm_compute. reflexivity.
  - split; [vm_compute; reflexivity | ]. apply H. reflexivity.
Defined.

Lemma prefix_append (p s : string) : String.prefix p (p ++ s) = true.
Proof.
  induction p as [|c p IH].
  - destruct s; reflexivity.
  - rewrite append_cons. cbn [String.prefix].
    destruct (Ascii.ascii_dec c c); [exact IH | contradiction].
Qed.

(** The normalised model identifier carries the provider prefix, and
    normalising it again changes nothing. *)
Lemma resolve_provider_normalises model :
  Py.startswith "openai:" (resolve_provider model) = true
  /\ resolve_provider (resolve_provider model) = resolve_provider model
  /\ (resolve_provider model = model \/ resolve_provider model = "openai:" ++ model).
Proof.
  assert (H : Py.startswith "openai:" (resolve_provider model) = true).
  { unfold resolve_provider.
    destruct (Py.startswith "openai:" model) eqn:E; [exact E | ].
    apply (prefix_append "openai:" model). }
  split; [exact H | ]. split.
  - unfold resolve_provider at 1. rewrite H. reflexivity.
  - unfold resolve_provider. destruct (Py.startswith "openai:" model); auto.
Qed.

(** The upstream stream, without a deadline. *)
Lemma gen_await_run {Y} d (k : AsyncGen Y) w :
  deadline w = NoDeadline ->
  gen_await d k w = k (set_now (now w + Z.of_N d) w).
Proof.
  intros Hd. unfold gen_await, bind, attempt, await_. rewrite Hd. reflexivity.
Qed.

Lemma iterate_stream_prefix created pre : forall rest fin w,
  deadline w = NoDeadline ->
  Forall (fun event => ev_choices event <> []) pre ->
  exists tr w',
    iterate_stream created rest fin (set_now (now w + total_delay pre) w) = (Ok tr, w')
    /\ iterate_stream created (pre ++ rest) fin w
       = (Ok (mkTrace (List.map (chunk_of created) pre ++ emitted tr) (outcome tr)), w').
Proof.
  induction pre as [|event pre IH]; intros rest fin w Hd Hall.
  - cbn [total_delay fold_right]. rewrite Z.add_0_r.
    replace (set_now (now w) w) with w by (destruct w; reflexivity).
    destruct (cancelled_iterate_stream created rest fin w) as (tr & w' & E & _).
    exists tr, w'. split; [exact E | ]. cbn. rewrite E. destruct tr; reflexivity.
  - inversion Hall as [|? ? Hev Hpre]; subst.
    cbn [app iterate_stream]. rewrite gen_await_run by exact Hd.
    destruct (ev_choices event) as [|choice others] eqn:Ec; [congruence | ].
    unfold gen_yield, bind.
    destruct (IH rest fin (set_now (now w + Z.of_N (ev_delay event)) w))
      as (tr & w' & Hrest & Hrun); [exact Hd | exact Hpre | ].
    exists tr, w'. split.
    + rewrite <- Hrest. f_equal.
      change (set_now (now w + (Z.of_N (ev_delay event) + total_delay pre)) w
              = set_now (now w + Z.of_N (ev_delay event) + total_delay pre) w).
      f_equal. lia.
    + rewrite Hrun. cbn [ret List.map app emitted outcome].
      unfold chunk_of at 2. rewrite Ec. reflexivity.
Qed.

(** X18: an upstream event whose [choices] list is empty ends the stream
    with [IndexError] (the index [0] is out of range), after the chunks of
    the events before it. *)
Theorem event_without_choices_ends_stream env created n w d pre bad post fin :
  deadline w = NoDeadline ->
  upstream_stream env n = Connected d (pre ++ bad :: post) fin ->
  Forall (fun event => ev_choices event <> []) pre ->
  ev_choices bad = [] ->
  exists w',
    open_stream env created n w
    = (Ok (mkTrace (List.map (chunk_of created) pre)
             (Some (IndexError "list index out of range"))), w').
Proof.
  intros Hd Hup Hpre Hbad. unfold open_stream. rewrite Hup.
  rewrite gen_await_run by exact Hd.
  destruct (iterate_stream_prefix created pre (bad :: post) fin
              (set_now (now w + Z.of_N d) w) Hd Hpre) as (tr & w' & Hrest & Hrun).
  exists w'. rewrite Hrun.
  cbn [iterate_stream] in Hrest. rewrite gen_await_run in Hrest by exact Hd.
  rewrite Hbad in Hrest. inversion Hrest; subst. cbn. rewrite app_nil_r. reflexivity.
Qed.

Lemma event_without_choices_ends_stream_witness :
  let env :=
    mk_env (fun _ => Connected 100
                       [token 20 "Hi"; mkRawEvent 5 "chatcmpl-1" "gpt-4o-mini" [];
                        token 20 "there"]
                       (EndOfStream 5))
      no_completion quick_billing in
  exists w',
    open_stream env 0 0 fresh_world
    = (Ok (mkTrace [mkChunk "chatcmpl-1" "gpt-4o-mini" 0 "Hi" None]
             (Some (IndexError "list index out of range"))), w').
Proof.
  intros env.
  apply (event_without_choices_ends_stream env 0 0%nat fresh_world 100
           [token 20 "Hi"] (mkRawEvent 5 "chatcmpl-1" "gpt-4o-mini" [])
           [token 20 "there"] (EndOfStream 5)).
  - reflexivity.
  - reflexivity.
  - repeat constructor. discriminate.
  - reflexivity.
Defined.

(** X19: when no deadline is armed and every upstream event has a choice,
    [generate_stream] yields one chunk per event, in order, each built from
    the first choice (a missing content becomes the empty delta), all with
    the [created] second at which the generator started; it ends as the
    upstream stream ends, and the clock has advanced by the upstream delays. *)
Theorem stream_is_translated_in_order env req w d events fin :
  deadline w = NoDeadline ->
  upstream_stream env (upstream_calls w) = Connected d events fin ->
  Forall (fun event => ev_choices event <> []) events ->
  exists w',
    generate_stream_body env req w
    = (Ok (mkTrace (List.map (chunk_of (now w / 1000)) events)
             match fin with
             | EndOfStream _ => None
             | StreamBreaks _ msg => Some (UpstreamError msg)
             end), w')
    /\ now w' = now w + Z.of_N d + total_delay events
                + match fin with
                  | EndOfStream d' | StreamBreaks d' _ => Z.of_N d'
                  end.
Proof.
  intros Hd Hup Hall.
  unfold generate_stream_body, next_upstream_call, time_ms.
  unfold bind at 1 2 3 4. unfold gets, modify, ret. cbn beta iota.
  unfold open_stream. cbn [upstream_calls set_upstream_calls]. rewrite Hup.
  rewrite gen_await_run by exact Hd.
  match goal with |- context [iterate_stream _ _ _ ?W] => set (w1 := W) end.
  destruct (iterate_stream_prefix (now w / 1000) events [] fin w1 Hd Hall)
    as (tr & w' & Hrest & Hrun).
  rewrite app_nil_r in Hrun. exists w'. rewrite Hrun.
  cbn [iterate_stream] in Hrest.
  destruct fin as [d'|d' msg]; cbn [stream_end] in Hrest;
    rewrite gen_await_run in Hrest by exact Hd;
    inversion Hrest; subst; cbn; rewrite app_nil_r; (split; [reflexivity | lia]).
Qed.

Lemma stream_is_translated_in_order_witness :
  exists w',
    generate_stream_body env_typical_stream broken_request fresh_world
    = (Ok (mkTrace
             [mkChunk "chatcmpl-1" "gpt-4o-mini" 0 "" None;
              mkChunk "chatcmpl-1" "gpt-4o-mini" 0 "Hi" None;
              mkChunk "chatcmpl-1" "gpt-4o-mini" 0 "" (Some "stop")] None), w')
    /\ now w' = 165.
Proof.
  destruct (stream_is_translated_in_order env_typical_stream broken_request fresh_world
              100 [opening; token 20 "Hi"; closing] (EndOfStream 5))
    as (w' & H & Ht).
  - reflexivity.
  - reflexivity.
  - repeat constructor; discriminate.
  - exists w'. split; [exact H | exact Ht].
Defined.

End Upstream.

(** ** What a run leaves alone *)

Lemma keeps_refl {A} (f : Runtime.World -> A) w : keeps f w w.
Proof. reflexivity. Qed.

Lemma keeps_trans {A} (f : Runtime.World -> A) a b c :
  keeps f a b -> keeps f b c -> keeps f a c.
Proof. unfold keeps. congruence. Qed.

Ltac keeps_modify :=
  intros; unfold keeps;
  repeat match goal with
         | |- context [match ?x with _ => _ end] => destruct x
         end;
  repeat match goal with
         | H : forall _ _, _ = _ |- _ => rewrite H
         end;
  reflexivity.

Ltac keeps_step :=
  first
    [ split_match
    | apply respects_ret; apply keeps_refl
    | apply respects_raise; apply keeps_refl
    | apply respects_gets; apply keeps_refl
    | apply respects_bind; [apply keeps_trans | | intros ?]
    | apply respects_try_except; [apply keeps_trans | | intros ?]
    | apply respects_attempt
    | apply respects_when; [apply keeps_refl | ]
    | apply respects_for_each; [apply keeps_refl | apply keeps_trans | intros ?]
    | apply respects_modify; keeps_modify ].

Section Shapes.
Import Runtime Environment Providers Messages Json.

(** The buffered path answers with a JSON body. *)
Lemma buffered_path_json env req api_key idem rid session conversation cid w resp w' :
  buffered_path env req api_key idem rid session conversation cid w = (Ok resp, w') ->
  exists c, resp = JSONResponse c.
Proof.
  unfold buffered_path. intros H.
  repeat (apply bind_ok in H as (? & ? & _ & H)).
  inversion H. eauto.
Qed.

(** The handler passes the limiter, then answers from the store or executes
    the request. *)
Lemma delivered_after_slot env payload api_key idem rid session w r w' :
  deliver (_canonical_handler env payload api_key idem rid session) w = (r, w') ->
  (exists c, r = Ok (Body c) /\ w' = RateLimit.take_slot api_key w)
  \/ deliver (handle_fresh env payload api_key idem rid session)
       (RateLimit.take_slot api_key w) = (r, w').
Proof.
  unfold deliver at 1. unfold bind at 1. rewrite canonical_handler_under_limiter.
  unfold bind at 1.
  destruct (cached_response_pure payload idem (RateLimit.take_slot api_key w))
    as ([c|] & ->).
  - intros H. inversion H. left. eauto.
  - intros H. right. exact H.
Qed.

End Shapes.

Section Frames.
Import Runtime Environment Providers Messages Json.
Context {A : Type} (f : World -> A).

Hypothesis f_now : forall t w, f (set_now t w) = f w.
Hypothesis f_deadline : forall d w, f (set_deadline d w) = f w.
Hypothesis f_upstream : forall n w, f (set_upstream_calls n w) = f w.
Hypothesis f_breaker : forall b w, f (set_breaker b w) = f w.
Hypothesis f_log : forall l w, f (set_log l w) = f w.
Hypothesis f_usage : forall l w, f (set_usage_posts l w) = f w.
Hypothesis f_conversations : forall c w, f (set_conversations c w) = f w.
Hypothesis f_messages : forall l w, f (set_chat_messages l w) = f w.
Hypothesis f_supply : forall n w, f (set_next_uuid n w) = f w.
Hypothesis f_budget : forall b w, f (set_db_budget b w) = f w.
Hypothesis f_cache : forall c w, f (set_cache c w) = f w.

Lemma keeps_await d : respects (keeps f) (await_ d).
Proof.
  intros w r w' H. unfold await_ in H.
  destruct (deadline w) as [|at_ms|]; [ | destruct (at_ms <=? _) | ];
    inversion H; subst; unfold keeps; rewrite ?f_deadline, ?f_now; reflexivity.
Qed.

Lemma keeps_iterate_stream created events fin :
  respects (keeps f) (iterate_stream created events fin).
Proof.
  induction events as [|event events IH]; cbn [iterate_stream].
  - unfold stream_end, gen_await, gen_stop, gen_fail.
    repeat (apply keeps_await || keeps_step).
  - unfold gen_await, gen_yield, gen_fail.
    repeat (apply IH || apply keeps_await || keeps_step).
Qed.

Lemma keeps_open_stream env created n : respects (keeps f) (open_stream env created n).
Proof.
  unfold open_stream, gen_await, gen_fail.
  repeat (apply keeps_iterate_stream || apply keeps_await || keeps_step).
Qed.

Lemma keeps_complete env created n : respects (keeps f) (complete env created n).
Proof. unfold complete. repeat (apply keeps_await || keeps_step). Qed.

Lemma keeps_generate_stream_body env req :
  respects (keeps f) (generate_stream_body env req).
Proof.
  unfold generate_stream_body, next_upstream_call, time_ms.
  repeat (apply keeps_open_stream || keeps_step).
Qed.

Lemma keeps_provider_chunks env req : respects (keeps f) (provider_chunks env req).
Proof.
  intros w r w' H.
  destruct (provider_chunks_cases env req w) as [Hp | [msg Hp]]; rewrite Hp in H.
  - apply keeps_generate_stream_body in H. unfold keeps in *.
    rewrite H. apply f_breaker.
  - inversion H. reflexivity.
Qed.

Lemma keeps_generate_body env req : respects (keeps f) (generate_body env req).
Proof.
  unfold generate_body, next_upstream_call, time_ms.
  repeat (apply keeps_complete || keeps_step).
Qed.

Lemma keeps_logger a b c : respects (keeps f) (logger a b c).
Proof. unfold logger. keeps_step. Qed.

Lemma keeps_stream_with_timeout g n :
  respects (keeps f) g -> respects (keeps f) (_stream_with_timeout g n).
Proof.
  intros Hg. unfold _stream_with_timeout, asyncio_timeout, time_ms.
  repeat (apply Hg || apply keeps_logger || keeps_step).
Qed.

Lemma keeps_post env : respects (keeps f) (UsageCallback.post env).
Proof.
  unfold UsageCallback.post. repeat (apply keeps_await || keeps_step).
Qed.

Lemma keeps_send_usage env payload :
  respects (keeps f) (UsageCallback.send_usage env payload).
Proof.
  unfold UsageCallback.send_usage.
  repeat (apply keeps_post || apply keeps_logger || keeps_step).
Qed.

Lemma keeps_uuid4 : respects (keeps f) Crud.uuid4.
Proof. intros w r w' H. inversion H; subst. apply f_supply. Qed.

Lemma keeps_commit : respects (keeps f) Crud.commit.
Proof.
  intros w r w' H. unfold Crud.commit in H.
  destruct (db_budget w) as [[|n]|]; inversion H; subst; unfold keeps;
    rewrite ?f_budget; reflexivity.
Qed.

Lemma keeps_create_chat_message cid r c m rid fr pt ct tt el :
  respects (keeps f) (Crud.create_chat_message cid r c m rid fr pt ct tt el).
Proof.
  unfold Crud.create_chat_message, Crud.utcnow, Crud.get_conversation.
  repeat (apply keeps_uuid4 || apply keeps_commit || keeps_step).
Qed.

Lemma keeps_create_conversation title h :
  respects (keeps f) (Crud.create_conversation title h).
Proof.
  unfold Crud.create_conversation, Crud.utcnow.
  repeat (apply keeps_uuid4 || apply keeps_commit || keeps_step).
Qed.

Lemma keeps_record_incoming env payload normalized api_key rid :
  respects (keeps f) (record_incoming env payload normalized api_key rid).
Proof.
  unfold record_incoming, store_incoming, lookup_requested, Crud.get_conversation.
  repeat (apply keeps_create_conversation || apply keeps_create_chat_message
          || keeps_step).
Qed.

Lemma keeps_event_gen_finally env req normalized api_key rid cid start l :
  respects (keeps f) (event_gen_finally env req normalized api_key rid cid start l).
Proof.
  unfold event_gen_finally, time_ms.
  repeat (apply keeps_create_chat_message || apply keeps_send_usage
          || apply keeps_logger || keeps_step).
Qed.

Lemma keeps_event_gen env req normalized api_key rid cid :
  respects (keeps f) (event_gen env req normalized api_key rid cid).
Proof.
  unfold event_gen, time_ms.
  repeat (apply keeps_provider_chunks || apply keeps_event_gen_finally
          || apply keeps_logger || keeps_step).
Qed.

Lemma keeps_sse_gen env req api_key rid :
  respects (keeps f) (sse_gen env req api_key rid).
Proof.
  unfold sse_gen.
  apply respects_bind; [apply keeps_trans | apply keeps_provider_chunks | intros src].
  destruct (fold_left sse_step (emitted src) (0, [])) as [n out].
  repeat (apply keeps_send_usage || apply keeps_logger || keeps_step).
Qed.

Lemma keeps_set_cached_response env K v :
  respects (keeps f) (Idempotency.set_cached_response env K v).
Proof.
  unfold Idempotency.set_cached_response, Idempotency._redis_set.
  apply respects_modify. intros w. apply f_cache.
Qed.

Lemma keeps_buffered_path env req api_key idem rid session conversation cid :
  respects (keeps f)
    (buffered_path env req api_key idem rid session conversation cid).
Proof.
  unfold buffered_path. intros w r w' H.
  unfold bind at 1 in H. unfold time_ms at 1, gets at 1 in H.
  unfold bind at 1 in H.
  destruct (generate_cases env req w) as [Hg | [msg Hg]]; rewrite Hg in H.
  2:{ inversion H. reflexivity. }
  unfold bind at 1 in H.
  destruct (generate_body env req _) as [[res|e] w1] eqn:Hb.
  2:{ inversion H; subst. apply keeps_generate_body in Hb.
      unfold keeps in *. rewrite Hb. apply f_breaker. }
  apply keeps_generate_body in Hb. cbv beta in H.
  match type of H with ?m w1 = _ => assert (R : respects (keeps f) m) end.
  { unfold time_ms.
    repeat (apply keeps_create_chat_message || apply keeps_send_usage
            || apply keeps_set_cached_response || keeps_step). }
  apply R in H. unfold keeps in *. rewrite H, Hb. apply f_breaker.
Qed.

Lemma keeps_delivered_fresh env payload api_key idem rid session :
  respects (keeps f) (deliver (handle_fresh env payload api_key idem rid session)).
Proof.
  intros w r w' H. unfold deliver, handle_fresh in H.
  assert (Rrec : respects (keeps f)
            match session with
            | Some _ =>
                record_incoming env payload (resolve_provider (model payload))
                  api_key rid
            | None => ret (None, None)
            end).
  { destruct session; [apply keeps_record_incoming | keeps_step]. }
  apply bind_inv in H as [(resp & w3 & H & Hd) | (e & H & _)].
  - apply bind_ok in H as ([conversation cid] & w2 & Hrec & H).
    apply Rrec in Hrec.
    destruct (stream payload).
    + inversion H; subst resp w3. clear H.
      assert (R : respects (keeps f)
                (tr <- _stream_with_timeout
                         (event_gen env
                            (mkChatRequest (resolve_provider (model payload))
                               (List.map (fun m => mkChatMessage (role m) (content m))
                                  (messages payload))
                               (max_tokens payload) true)
                            (resolve_provider (model payload)) api_key rid cid) 300 ;;
                 ret (Events tr))).
      { repeat (apply keeps_stream_with_timeout || apply keeps_event_gen
                || keeps_step). }
      apply R in Hd. unfold keeps in *. congruence.
    + pose proof (keeps_buffered_path _ _ _ _ _ _ _ _ _ _ _ H) as Hbuf.
      destruct (buffered_path_json _ _ _ _ _ _ _ _ _ _ _ H) as (c & ->).
      inversion Hd; subst. unfold keeps in *. congruence.
  - apply bind_inv in H as [([conversation cid] & w2 & Hrec & H) | (e' & Hrec & _)].
    + apply Rrec in Hrec. destruct (stream payload); [discriminate | ].
      apply keeps_buffered_path in H. unfold keeps in *. congruence.
    + apply Rrec in Hrec. exact Hrec.
Qed.

End Frames.

(** ** Streams: the loop, the usage report, the saved text *)

Section Streams.
Import Runtime Environment Providers Messages Json Scenarios.

Lemma concat_empty_snoc (l : list string) (s : string) :
  String.concat "" (l ++ [s]) = String.concat "" l ++ s.
Proof.
  induction l as [|x l IH]; cbn [app String.concat].
  - reflexivity.
  - destruct l as [|y l].
    + cbn [app String.concat]. reflexivity.
    + cbn [app] in *. rewrite IH.
      change (x ++ "" ++ (String.concat "" (y :: l) ++ s)
              = (x ++ "" ++ String.concat "" (y :: l)) ++ s).
      rewrite !append_assoc. reflexivity.
Qed.

Lemma run_loop_accumulates env cid chunks :
  length (chunk_events env cid chunks) = length chunks
  /\ full_content (fst (run_loop env cid chunks)) = text_of chunks
  /\ tokens (fst (run_loop env cid chunks)) = count_tokens chunks
  /\ last_chunk (fst (run_loop env cid chunks)) = last chunks.
Proof.
  unfold chunk_events, text_of, count_tokens.
  induction chunks as [|chunk chunks IH] using rev_ind.
  - cbn. auto.
  - rewrite run_loop_snoc.
    destruct (run_loop env cid chunks) as [l out]. cbn [fst snd] in *.
    destruct IH as (I1 & I2 & I3 & I4).
    unfold loop_step. cbn [fst snd tokens full_content last_chunk].
    rewrite !length_app, List.map_app, List.filter_app, length_app. cbn [length List.map].
    rewrite concat_empty_snoc, last_snoc. cbn [List.filter].
    destruct (chunk_delta chunk) as [|c d] eqn:E; cbn [Py.truthy length].
    + rewrite append_empty. repeat split; [lia | exact I2 | lia].
    + repeat split; [lia | congruence | lia].
Qed.

(** X20: the loop of [event_gen] sends one event per chunk and keeps count:
    the accumulated text is the concatenation of the deltas, [tokens] is the
    number of chunks with a non-empty delta, and [last_chunk] is the last
    chunk received. *)
Theorem stream_loop_accumulates env cid chunks :
  length (chunk_events env cid chunks) = length chunks
  /\ full_content (fst (run_loop env cid chunks)) = text_of chunks
  /\ tokens (fst (run_loop env cid chunks)) = count_tokens chunks
  /\ last_chunk (fst (run_loop env cid chunks)) = last chunks.
Proof. apply run_loop_accumulates. Qed.

(** [event_gen], step by step: the provider's chunks, the loop, the
    [finally] block. *)
Lemma event_gen_steps env req normalized api_key rid cid w :
  exists src w1 fin w2 tr,
    provider_chunks env req w = (Ok src, w1)
    /\ event_gen_finally env req normalized api_key rid cid (now w)
         (fst (run_loop env cid (emitted src))) (after_loop src w1) = (fin, w2)
    /\ event_gen env req normalized api_key rid cid w = (Ok tr, w2).
Proof.
  destruct (cancelled_provider_chunks env req w) as (src & w1 & Hsrc & _).
  unfold event_gen. unfold bind at 1. unfold time_ms, gets.
  unfold bind at 1. rewrite Hsrc.
  exists src, w1.
  destruct (event_gen_finally env req normalized api_key rid cid (now w)
              (fst (run_loop env cid (emitted src))) (after_loop src w1))
    as [fin w2] eqn:Hfin.
  exists fin, w2. unfold after_loop in Hfin.
  destruct (outcome src) as [e|]; [destruct (is_Exception e) | ];
    unfold ret, bind, logger, modify, attempt; cbn beta iota zeta;
    rewrite Hfin; destruct fin; eexists; (split; [reflexivity | ]);
    (split; reflexivity).
Qed.

Lemma send_usage_records env payload w r w' :
  UsageCallback.send_usage env payload w = (r, w') ->
  usage_posts w' = (usage_posts w ++ [payload])%list.
Proof.
  unfold UsageCallback.send_usage. unfold bind at 1. unfold modify at 1.
  intros H.
  match type of H with ?m ?w0 = _ => assert (R : respects (keeps usage_posts) m) end.
  { repeat (apply keeps_post || apply keeps_logger || keeps_step);
      intros; reflexivity. }
  apply R in H. exact H.
Qed.

Lemma finally_reports_usage env req normalized api_key rid cid start l w fin w2 :
  event_gen_finally env req normalized api_key rid cid start l w = (fin, w2) ->
  exists t,
    now w <= t
    /\ usage_posts w2
       = (usage_posts w
          ++ [stream_usage_payload env rid api_key req (tokens l) (Some (t - start))])%list.
Proof.
  unfold event_gen_finally. intros H.
  apply bind_inv in H as [(u & wp & Hp & H) | (e & Hp & _)].
  - assert (Hk : usage_posts wp = usage_posts w /\ now w <= now wp).
    { match type of Hp with
      | ?m w = _ =>
          assert (Rk : respects (keeps usage_posts) m);
          [ | assert (Rc : respects calm m) ]
      end.
      - unfold time_ms.
        repeat (apply keeps_create_chat_message || apply keeps_logger || keeps_step);
          intros; reflexivity.
      - unfold time_ms.
        repeat (apply calm_create_chat_message || apply calm_logger || calm_step).
      - split; [exact (Rk _ _ _ Hp) | apply (Rc _ _ _ Hp)]. }
    destruct Hk as [Hk Hn].
    unfold try_except in H. unfold bind at 1 in H. unfold time_ms, gets in H.
    cbv beta iota in H.
    exists (now wp). split; [exact Hn | ]. rewrite <- Hk.
    destruct (UsageCallback.send_usage env _ wp) as [[u'|e] w3] eqn:Hs;
      apply send_usage_records in Hs.
    + inversion H; subst. exact Hs.
    + destruct (is_Exception e); inversion H; subst; exact Hs.
  - exfalso.
    match type of Hp with
    | ?m w = _ => assert (R : escapes_only (fun _ => False) m)
    end.
    { destruct cid; [ | apply escapes_ret].
      apply escapes_when.
      apply (escapes_try_except (fun e => is_Exception e = true)).
      + unfold time_ms.
        repeat first [ apply escapes_create_chat_message | apply escapes_ret
                     | apply escapes_gets | apply escapes_bind; [ | intros ?] ].
      + congruence.
      + intros e'. apply escapes_modify. }
    exact (R _ _ _ Hp).
Qed.

(** X21: every streamed response hands exactly one usage report to
    [send_usage], however the stream ends; the report counts the chunks with
    a non-empty delta, and its elapsed time is not negative. *)
Theorem stream_reports_usage_once env req normalized api_key rid cid w :
  exists src w1 tr w2 elapsed,
    provider_chunks env req w = (Ok src, w1)
    /\ event_gen env req normalized api_key rid cid w = (Ok tr, w2)
    /\ 0 <= elapsed
    /\ usage_posts w2
       = (usage_posts w
          ++ [JObj [("request_id", JStr rid);
                    ("api_key_hash", JInt (py_hash env api_key));
                    ("model", JStr (req_model req));
                    ("stream", JBool true);
                    ("tokens_count_approx", JInt (count_tokens (emitted src)));
                    ("elapsed_ms", JInt elapsed)]])%list.
Proof.
  destruct (event_gen_steps env req normalized api_key rid cid w)
    as (src & w1 & fin & w2 & tr & Hsrc & Hfin & Hgen).
  apply finally_reports_usage in Hfin as (t & Ht & Hu).
  exists src, w1, tr, w2, (t - now w).
  split; [exact Hsrc | ]. split; [exact Hgen | ].
  assert (Hw1 : usage_posts w1 = usage_posts w /\ now w <= now w1).
  { split.
    - apply (keeps_provider_chunks usage_posts) in Hsrc; [exact Hsrc | | | | ];
        intros; reflexivity.
    - destruct (provider_chunks_cases env req w) as [Hp | [msg Hp]];
        rewrite Hp in Hsrc.
      + unfold generate_stream_body, next_upstream_call, time_ms in Hsrc.
        unfold bind at 1 2 3 4 in Hsrc. unfold gets, modify, ret in Hsrc.
        cbn in Hsrc. apply calm_open_stream in Hsrc as (_ & Hn & _).
        cbn in Hn. exact Hn.
      + inversion Hsrc. lia. }
  destruct Hw1 as [Hu1 Hn1].
  assert (Ha : usage_posts (after_loop src w1) = usage_posts w1
               /\ now (after_loop src w1) = now w1).
  { unfold after_loop. destruct (outcome src) as [e|]; [destruct (is_Exception e) | ];
      split; reflexivity. }
  destruct Ha as [Ha1 Ha2].
  split; [lia | ].
  rewrite Hu, Ha1, Hu1.
  destruct (run_loop_accumulates env cid (emitted src)) as (_ & _ & -> & _).
  reflexivity.
Qed.

Lemma finally_saves_text env req normalized api_key rid c start l w fin w2 :
  db_budget w = None ->
  event_gen_finally env req normalized api_key rid (Some c) start l w = (fin, w2) ->
  if Py.truthy (full_content l)
  then exists msg,
         chat_messages w2 = (chat_messages w ++ [msg])%list
         /\ m_conversation_id msg = c
         /\ m_role msg = "assistant"
         /\ m_content msg = full_content l
         /\ m_request_id msg = Some rid
         /\ m_finish_reason msg
            = match last_chunk l with
              | Some ch => chunk_finish_reason ch
              | None => None
              end
  else chat_messages w2 = chat_messages w.
Proof.
  intros Hb. unfold event_gen_finally. intros H.
  assert (Hrest : forall wp,
            try_except
              (t <- time_ms ;;
               UsageCallback.send_usage env
                 (stream_usage_payload env rid api_key req (tokens l) (Some (t - start))))
              is_Exception
              (fun e => logger "error" "Error sending usage callback" (str e)) wp
            = (fin, w2) ->
            chat_messages w2 = chat_messages wp).
  { intros wp Hr.
    match type of Hr with ?m wp = _ => assert (R : respects (keeps chat_messages) m) end.
    { unfold time_ms.
      repeat (apply keeps_send_usage || apply keeps_logger || keeps_step);
        intros; reflexivity. }
    exact (R _ _ _ Hr). }
  destruct (Py.truthy (full_content l)); cbn [when] in H.
  - unfold bind at 1 in H. unfold try_except at 1 in H.
    unfold bind at 1 in H. unfold time_ms at 1, gets at 1 in H.
    unfold bind at 1 in H.
    rewrite create_chat_message_run in H by exact Hb.
    cbn [ret] in H. apply Hrest in H. rewrite H.
    eexists. split.
    + destruct (conversations w !! c); reflexivity.
    + cbn. repeat split; reflexivity.
  - unfold bind at 1 in H. unfold ret at 1 in H. apply Hrest in H. exact H.
Qed.

(** X22: with a healthy database, the text received from the provider is
    saved as one assistant message under the conversation when the stream is
    over, whether it ended normally, with an error or at the deadline; when
    no text was received, nothing is saved. *)
Theorem streamed_text_is_saved env req normalized api_key rid c w :
  db_budget w = None ->
  exists src w1 tr w2,
    provider_chunks env req w = (Ok src, w1)
    /\ event_gen env req normalized api_key rid (Some c) w = (Ok tr, w2)
    /\ if Py.truthy (text_of (emitted src))
       then exists msg,
              chat_messages w2 = (chat_messages w ++ [msg])%list
              /\ m_conversation_id msg = c
              /\ m_role msg = "assistant"
              /\ m_content msg = text_of (emitted src)
              /\ m_request_id msg = Some rid
              /\ m_finish_reason msg
                 = match last (emitted src) with
                   | Some ch => chunk_finish_reason ch
                   | None => None
                   end
       else chat_messages w2 = chat_messages w.
Proof.
  intros Hb.
  destruct (event_gen_steps env req normalized api_key rid (Some c) w)
    as (src & w1 & fin & w2 & tr & Hsrc & Hfin & Hgen).
  exists src, w1, tr, w2. split; [exact Hsrc | ]. split; [exact Hgen | ].
  assert (Hw1 : chat_messages w1 = chat_messages w /\ db_budget w1 = db_budget w).
  { split.
    - apply (keeps_provider_chunks chat_messages) in Hsrc; [exact Hsrc | | | | ];
        intros; reflexivity.
    - apply (keeps_provider_chunks db_budget) in Hsrc; [exact Hsrc | | | | ];
        intros; reflexivity. }
  destruct Hw1 as [Hm1 Hb1].
  assert (Ha : chat_messages (after_loop src w1) = chat_messages w1
               /\ db_budget (after_loop src w1) = db_budget w1).
  { unfold after_loop. destruct (outcome src) as [e|]; [destruct (is_Exception e) | ];
      split; reflexivity. }
  destruct Ha as [Ha1 Ha2].
  apply finally_saves_text in Hfin; [ | congruence].
  destruct (run_loop_accumulates env (Some c) (emitted src)) as (_ & Ht & _ & Hl).
  rewrite Ht, Hl, Ha1, Hm1 in Hfin. exact Hfin.
Qed.

Lemma streamed_text_is_saved_witness :
  exists msg,
    chat_messages
      (snd (event_gen env_broken_stream broken_request "openai:gpt-4o-mini" "alice"
              "req-1" (Some 0%N) fresh_world)) = [msg]
    /\ m_role msg = "assistant" /\ m_content msg = "Hi".
Proof.
  destruct (streamed_text_is_saved env_broken_stream broken_request
              "openai:gpt-4o-mini" "alice" "req-1" 0%N fresh_world)
    as (src & w1 & tr & w2 & Hsrc & Hgen & Hsaved).
  - reflexivity.
  - vm_compute in Hsrc. injection Hsrc as <- _.
    destruct Hsaved as (msg & Hm & _ & Hr & Hc & _).
    pose proof (f_equal snd Hgen) as E. cbn [snd] in E. rewrite <- E in Hm.
    exists msg. split; [exact Hm | ]. split; [exact Hr | exact Hc].
Defined.

End Streams.

(** ** Streams and the deadline *)

Section Deadline.
Import Runtime Environment Providers Messages Json Scenarios.

Lemma stays_fired_refl w : stays_fired w w.
Proof. intros H. exact H. Qed.

Lemma stays_fired_trans a b c : stays_fired a b -> stays_fired b c -> stays_fired a c.
Proof. unfold stays_fired. auto. Qed.

Ltac fired_step :=
  first
    [ split_match
    | apply respects_ret; apply stays_fired_refl
    | apply respects_raise; apply stays_fired_refl
    | apply respects_gets; apply stays_fired_refl
    | apply respects_bind; [apply stays_fired_trans | | intros ?]
    | apply respects_try_except; [apply stays_fired_trans | | intros ?]
    | apply respects_attempt
    | apply respects_when; [apply stays_fired_refl | ]
    | apply respects_modify; intros ? ?; assumption ].

Lemma stays_fired_await d : respects stays_fired (await_ d).
Proof.
  intros w r w' H Hf. unfold await_ in H. rewrite Hf in H.
  inversion H; subst. exact Hf.
Qed.

Lemma stays_fired_finally env req normalized api_key rid cid start l :
  respects stays_fired (event_gen_finally env req normalized api_key rid cid start l).
Proof.
  assert (W : forall {B} (m : M B), respects same_deadline m -> respects stays_fired m).
  { intros B m. apply respects_weaken. unfold same_deadline, stays_fired. congruence. }
  unfold event_gen_finally, UsageCallback.send_usage, UsageCallback.post, logger, time_ms.
  repeat (apply W, same_deadline_create_chat_message || apply stays_fired_await
          || fired_step).
Qed.

(** X23: when the deadline fires while the provider's chunks are awaited,
    the client receives the events of the chunks that had arrived, then the
    timeout event, then the terminal sentinel, and nothing else; the
    deadline is disarmed afterwards. *)
Theorem deadline_ends_stream_with_timeout_event
    env req normalized api_key rid cid seconds w src w1 :
  provider_chunks env req (set_deadline (Armed (now w + seconds * 1000)) w)
  = (Ok src, w1) ->
  outcome src = Some CancelledError ->
  exists w',
    _stream_with_timeout (event_gen env req normalized api_key rid cid) seconds w
    = (Ok (mkTrace
             (chunk_events env cid (emitted src)
              ++ [_sse_format (JObj [("error", JStr "Stream timeout exceeded")]);
                  DONE])
             None), w')
    /\ deadline w' = NoDeadline.
Proof.
  intros Hsrc Hout.
  set (wa := set_deadline (Armed (now w + seconds * 1000)) w) in *.
  assert (Hfired : deadline w1 = Fired).
  { destruct (cancelled_provider_chunks env req wa) as (src' & w1' & E & Hf).
    rewrite Hsrc in E. inversion E; subst. apply Hf, Hout. }
  unfold _stream_with_timeout, asyncio_timeout, event_gen, time_ms.
  unfold bind at 1 2 3 4 5. unfold gets at 1 2. unfold modify at 1.
  cbn beta iota. fold wa.
  unfold bind at 1. rewrite Hsrc. rewrite Hout. cbn [is_Exception].
  unfold ret, bind, logger, modify, attempt, gets. cbn beta iota zeta.
  destruct (event_gen_finally env req normalized api_key rid cid (now wa)
              (fst (run_loop env cid (emitted src))) w1) as [fin w2] eqn:Hfin.
  pose proof (stays_fired_finally _ _ _ _ _ _ _ _ _ _ _ Hfin Hfired) as Hf2.
  assert (Htr : match fin with
                | Ok _ => Some CancelledError
                | Raise e => Some e
                end = Some CancelledError).
  { destruct fin as [u|e]; [reflexivity | ].
    apply finally_swallows_exceptions in Hfin. destruct e; try discriminate.
    reflexivity. }
  destruct fin as [u|e]; cbn beta iota zeta; rewrite Hf2; cbn [outcome emitted];
    [ | injection Htr as ->];
    (eexists; split; [reflexivity | reflexivity]).
Qed.

Lemma deadline_ends_stream_with_timeout_event_witness :
  let env :=
    mk_env (fun _ => Connected 100 [token 20 "Hi"; token 400000 "late"] (EndOfStream 5))
      no_completion quick_billing in
  exists w',
    _stream_with_timeout
      (event_gen env broken_request "openai:gpt-4o-mini" "alice" "req-1" None) 300
      fresh_world
    = (Ok (mkTrace
             (chunk_events env None [mkChunk "chatcmpl-1" "gpt-4o-mini" 0 "Hi" None]
              ++ [_sse_format (JObj [("error", JStr "Stream timeout exceeded")]);
                  DONE])
             None), w').
Proof.
  intros env.
  destruct (deadline_ends_stream_with_timeout_event env broken_request
              "openai:gpt-4o-mini" "alice" "req-1" None 300 fresh_world
              (mkTrace [mkChunk "chatcmpl-1" "gpt-4o-mini" 0 "Hi" None]
                 (Some CancelledError))
              (snd (provider_chunks env broken_request
                      (set_deadline (Armed (now fresh_world + 300 * 1000))
                         fresh_world))))
    as (w' & H & _).
  - vm_compute. reflexivity.
  - reflexivity.
  - exists w'. exact H.
Defined.

(** A usage report is abandoned only when the deadline fires during the
    post. *)
Lemma send_usage_cancelled env payload w e w' :
  UsageCallback.send_usage env payload w = (Raise e, w') ->
  e = CancelledError /\ deadline w' = Fired.
Proof.
  unfold UsageCallback.send_usage, UsageCallback.post.
  unfold bind at 1. unfold modify at 1.
  set (w0 := set_usage_posts _ w). clearbody w0.
  destruct (Py.truthy_opt (USAGE_CALLBACK_URL (settings env))); cbn [negb];
    [ | intros H; inversion H].
  unfold try_except, bind, await_, logger, modify, ret, raise. cbv zeta.
  destruct (deadline w0) as [|at_ms|];
    try match goal with
        | |- context [?a <=? ?b] => destruct (Z.leb_spec a b)
        end;
    try destruct (post_ok (collector env));
    cbn; intros Hrun; inversion Hrun; subst; split; reflexivity.
Qed.

Lemma reported_usage_cancelled env payload h w e w' :
  try_except (UsageCallback.send_usage env payload) is_Exception
    (fun e => logger "error" h (str e)) w = (Raise e, w') ->
  e = CancelledError /\ deadline w' = Fired.
Proof.
  unfold try_except. intros H.
  destruct (UsageCallback.send_usage env payload w) as [[u|e'] w3] eqn:Hs;
    [inversion H | ].
  destruct (is_Exception e'); [unfold logger, modify in H; inversion H | ].
  inversion H; subst. eapply send_usage_cancelled. exact Hs.
Qed.

(** The [finally] block of [event_gen] is left by an exception only when
    the deadline fires during the usage report. *)
Lemma finally_cancelled env req normalized api_key rid cid start l w e w' :
  event_gen_finally env req normalized api_key rid cid start l w = (Raise e, w') ->
  e = CancelledError /\ deadline w' = Fired.
Proof.
  unfold event_gen_finally. intros H.
  apply bind_inv in H as [(u & wp & _ & H) | (e' & Hp & _)].
  - unfold try_except in H. unfold bind at 1 in H. unfold time_ms, gets in H.
    cbv beta iota in H.
    eapply (reported_usage_cancelled env _ "Error sending usage callback").
    unfold try_except. exact H.
  - exfalso.
    match type of Hp with
    | ?m w = _ => assert (R : escapes_only (fun _ => False) m)
    end.
    { destruct cid; [ | apply escapes_ret].
      apply escapes_when.
      apply (escapes_try_except (fun e => is_Exception e = true)).
      + unfold time_ms.
        repeat first [ apply escapes_create_chat_message | apply escapes_ret
                     | apply escapes_gets | apply escapes_bind; [ | intros ?] ].
      + congruence.
      + intros e''. apply escapes_modify. }
    exact (R _ _ _ Hp).
Qed.

Lemma stays_fired_reported_usage env payload h :
  respects stays_fired
    (try_except (UsageCallback.send_usage env payload) is_Exception
       (fun e => logger "error" h (str e))).
Proof.
  unfold UsageCallback.send_usage, UsageCallback.post, logger.
  repeat (apply stays_fired_await || fired_step).
Qed.

Lemma last_closing (out : list string) (event : string) :
  last (out ++ [event; DONE]) = Some DONE.
Proof.
  change [event; DONE] with ([event] ++ [DONE])%list.
  rewrite List.app_assoc. apply last_snoc.
Qed.

(** Under [_stream_with_timeout] a generator that ends without an
    exception hands its events on as they are, and the deadline is
    disarmed. *)
Lemma stream_with_timeout_passes (g : AsyncGen string) seconds w tr w1 :
  g (set_deadline (Armed (now w + seconds * 1000)) w) = (Ok tr, w1) ->
  outcome tr = None ->
  _stream_with_timeout g seconds w = (Ok tr, set_deadline NoDeadline w1).
Proof.
  intros H Ho.
  unfold _stream_with_timeout, asyncio_timeout, time_ms.
  unfold bind at 1 2 3. unfold gets at 1. unfold modify at 1. cbn beta iota.
  unfold bind at 1. rewrite H.
  unfold bind, gets, modify, ret. cbn beta iota. rewrite Ho.
  destruct (deadline w1); cbn beta iota; rewrite Ho; reflexivity.
Qed.

Lemma event_gen_within_deadline env req normalized api_key rid cid w tr w' :
  event_gen env req normalized api_key rid cid w = (Ok tr, w') ->
  deadline w' <> Fired ->
  outcome tr = None
  /\ sentinels (emitted tr) = 1%nat
  /\ last (emitted tr) = Some DONE.
Proof.
  intros H Hd.
  unfold event_gen in H. unfold bind at 1 in H. unfold time_ms, gets in H.
  unfold bind at 1 in H.
  destruct (cancelled_provider_chunks env req w) as (src & w1 & Hsrc & Hfired).
  rewrite Hsrc in H.
  destruct (outcome src) as [e|] eqn:Ho; [destruct (is_Exception e) eqn:Hx | ];
    unfold ret, bind, logger, modify, attempt in H; cbn beta iota zeta in H;
    match type of H with
    | context [event_gen_finally _ _ _ _ _ _ ?s ?l ?w0] =>
        destruct (event_gen_finally env req normalized api_key rid cid s l w0)
          as [[u|e'] w2] eqn:Hfin
    end;
    inversion H; subst; clear H;
    try (apply finally_cancelled in Hfin as [_ Hf]; contradiction).
  - cbn [outcome emitted]. split; [reflexivity | split].
    + rewrite sentinels_app, chunk_events_no_sentinel. apply sentinels_closing.
    + apply last_closing.
  - destruct e; try discriminate.
    apply stays_fired_finally in Hfin. elim Hd. apply Hfin, Hfired. reflexivity.
  - cbn [outcome emitted]. split; [reflexivity | split].
    + rewrite sentinels_app, chunk_events_no_sentinel. apply sentinels_done.
    + apply last_snoc.
Qed.

Lemma sse_gen_within_deadline env req api_key rid w tr w' :
  sse_gen env req api_key rid w = (Ok tr, w') ->
  deadline w' <> Fired ->
  outcome tr = None
  /\ sentinels (emitted tr) = 1%nat
  /\ last (emitted tr) = Some DONE.
Proof.
  intros H Hd.
  unfold sse_gen in H. unfold bind at 1 in H.
  destruct (cancelled_provider_chunks env req w) as (src & w1 & Hsrc & Hfired).
  rewrite Hsrc in H.
  pose proof (sse_events_shape (emitted src)) as Hshape.
  destruct (fold_left sse_step (emitted src) (0, [])) as [n out]. cbn [snd] in Hshape.
  assert (Hout : sentinels out = 0%nat).
  { unfold sentinels. apply count_occ_not_In. intros Hin.
    rewrite List.Forall_forall in Hshape.
    exact (chunk_event_not_sentinel _ (Hshape _ Hin) eq_refl). }
  destruct (outcome src) as [e|] eqn:Ho; [destruct (is_Exception e) eqn:Hx | ];
    unfold ret, bind, logger, modify, attempt in H; cbn beta iota zeta in H;
    match type of H with
    | context [try_except (UsageCallback.send_usage env ?p) _ ?h ?w0] =>
        destruct (try_except (UsageCallback.send_usage env p) is_Exception h w0)
          as [[u|e'] w2] eqn:Hfin
    end;
    inversion H; subst; clear H;
    try (apply reported_usage_cancelled in Hfin as [_ Hf]; contradiction).
  - cbn [outcome emitted]. split; [reflexivity | split].
    + rewrite sentinels_app, Hout. apply sentinels_closing.
    + apply last_closing.
  - destruct e; try discriminate.
    apply stays_fired_reported_usage in Hfin. elim Hd. apply Hfin, Hfired. reflexivity.
  - cbn [outcome emitted]. split; [reflexivity | split].
    + rewrite sentinels_app, Hout. apply sentinels_done.
    + apply last_snoc.
Qed.

(** X24: when the deadline of a streamed response has not passed by the
    time [event_gen] has finished (the provider's chunks are exhausted or the
    provider has failed, and the [finally] block has run), the response ends
    without an exception, its events carry exactly one terminal sentinel,
    which is the last event, and the deadline is disarmed.  This holds with
    and without a usage collector.  The clock counts the waits of the
    generator; a deadline that passes while an event is being sent to the
    client is outside the condition. *)
Theorem stream_within_deadline_has_one_sentinel
    env req normalized api_key rid cid seconds w tr w1 :
  event_gen env req normalized api_key rid cid
    (set_deadline (Armed (now w + seconds * 1000)) w) = (Ok tr, w1) ->
  deadline w1 <> Fired ->
  _stream_with_timeout (event_gen env req normalized api_key rid cid) seconds w
  = (Ok tr, set_deadline NoDeadline w1)
  /\ outcome tr = None
  /\ sentinels (emitted tr) = 1%nat
  /\ last (emitted tr) = Some DONE.
Proof.
  intros H Hd.
  destruct (event_gen_within_deadline _ _ _ _ _ _ _ _ _ H Hd) as (Ho & Hs & Hl).
  split; [ | split; [exact Ho | split; [exact Hs | exact Hl]]].
  apply stream_with_timeout_passes; assumption.
Qed.

Lemma stream_within_deadline_has_one_sentinel_witness :
  let run :=
    event_gen env_broken_stream broken_request "openai:gpt-4o-mini" "alice" "req-1"
      None (set_deadline (Armed (now fresh_world + 300 * 1000)) fresh_world) in
  exists tr,
    _stream_with_timeout
      (event_gen env_broken_stream broken_request "openai:gpt-4o-mini" "alice"
         "req-1" None) 300 fresh_world
    = (Ok tr, set_deadline NoDeadline (snd run))
    /\ sentinels (emitted tr) = 1%nat.
Proof.
  intros run.
  destruct (stream_within_deadline_has_one_sentinel env_broken_stream broken_request
              "openai:gpt-4o-mini" "alice" "req-1" None 300 fresh_world
              (match fst run with Ok tr => tr | Raise _ => mkTrace [] None end)
              (snd run))
    as (H & _ & Hs & _).
  - vm_compute. reflexivity.
  - vm_compute. discriminate.
  - eexists. split; [exact H | exact Hs].
Defined.

(** X25: the same for the OpenAI-compatible route: when the deadline has
    not passed by the time [sse_gen] has finished, the response ends without
    an exception and its events carry exactly one terminal sentinel, the
    last event. *)
Theorem openai_stream_within_deadline_has_one_sentinel
    env req api_key rid seconds w tr w1 :
  sse_gen env req api_key rid (set_deadline (Armed (now w + seconds * 1000)) w)
  = (Ok tr, w1) ->
  deadline w1 <> Fired ->
  _stream_with_timeout (sse_gen env req api_key rid) seconds w
  = (Ok tr, set_deadline NoDeadline w1)
  /\ outcome tr = None
  /\ sentinels (emitted tr) = 1%nat
  /\ last (emitted tr) = Some DONE.
Proof.
  intros H Hd.
  destruct (sse_gen_within_deadline _ _ _ _ _ _ _ H Hd) as (Ho & Hs & Hl).
  split; [ | split; [exact Ho | split; [exact Hs | exact Hl]]].
  apply stream_with_timeout_passes; assumption.
Qed.

Lemma openai_stream_within_deadline_has_one_sentinel_witness :
  let run :=
    sse_gen env_typical_stream broken_request "alice" "req-1"
      (set_deadline (Armed (now fresh_world + 300 * 1000)) fresh_world) in
  exists tr,
    _stream_with_timeout (sse_gen env_typical_stream broken_request "alice" "req-1")
      300 fresh_world
    = (Ok tr, set_deadline NoDeadline (snd run))
    /\ sentinels (emitted tr) = 1%nat.
Proof.
  intros run.
  destruct (openai_stream_within_deadline_has_one_sentinel env_typical_stream
              broken_request "alice" "req-1" 300 fresh_world
              (match fst run with Ok tr => tr | Raise _ => mkTrace [] None end)
              (snd run))
    as (H & _ & Hs & _).
  - vm_compute. reflexivity.
  - vm_compute. discriminate.
  - eexists. split; [exact H | exact Hs].
Defined.

End Deadline.

(** ** Requests without a session, and admission *)

Section Sessionless.
Import Runtime Environment Providers Messages Json.
Context {A : Type} (f : World -> A).

Hypothesis f_now : forall t w, f (set_now t w) = f w.
Hypothesis f_deadline : forall d w, f (set_deadline d w) = f w.
Hypothesis f_upstream : forall n w, f (set_upstream_calls n w) = f w.
Hypothesis f_breaker : forall b w, f (set_breaker b w) = f w.
Hypothesis f_log : forall l w, f (set_log l w) = f w.
Hypothesis f_usage : forall l w, f (set_usage_posts l w) = f w.
Hypothesis f_cache : forall c w, f (set_cache c w) = f w.

Lemma keeps_buffered_sessionless env req api_key idem rid conversation cid :
  respects (keeps f)
    (buffered_path env req api_key idem rid None conversation cid).
Proof.
  unfold buffered_path. intros w r w' H.
  unfold bind at 1 in H. unfold time_ms at 1, gets at 1 in H.
  unfold bind at 1 in H.
  destruct (generate_cases env req w) as [Hg | [msg Hg]]; rewrite Hg in H.
  2:{ inversion H. reflexivity. }
  unfold bind at 1 in H.
  destruct (generate_body env req _) as [[res|e] w1] eqn:Hb.
  2:{ inversion H; subst. apply (keeps_generate_body f) in Hb; try assumption.
      unfold keeps in *. rewrite Hb. apply f_breaker. }
  apply (keeps_generate_body f) in Hb; try assumption. cbv beta in H.
  match type of H with ?m w1 = _ => assert (R : respects (keeps f) m) end.
  { unfold time_ms.
    repeat (apply keeps_send_usage || apply keeps_set_cached_response || keeps_step);
      assumption. }
  apply R in H. unfold keeps in *. rewrite H, Hb. apply f_breaker.
Qed.

(** Without a session nothing is handed to the database. *)
Lemma keeps_delivered_sessionless env payload api_key idem rid :
  respects (keeps f) (deliver (handle_fresh env payload api_key idem rid None)).
Proof.
  intros w r w' H. unfold deliver, handle_fresh in H.
  unfold bind at 2 in H. unfold ret at 1 in H.
  destruct (stream payload).
  - unfold bind at 1 in H. unfold ret at 1 in H.
    match type of H with ?m w = _ => assert (R : respects (keeps f) m) end.
    { unfold event_gen, event_gen_finally, time_ms.
      repeat (apply keeps_stream_with_timeout || apply keeps_provider_chunks
              || apply keeps_send_usage || apply keeps_logger || keeps_step);
        assumption. }
    exact (R _ _ _ H).
  - apply bind_inv in H as [(resp & w3 & H & Hd) | (e & H & _)].
    + pose proof (keeps_buffered_sessionless _ _ _ _ _ _ _ _ _ _ H) as Hk.
      destruct (buffered_path_json _ _ _ _ _ _ _ _ _ _ _ H) as (c & ->).
      inversion Hd; subst. exact Hk.
    + exact (keeps_buffered_sessionless _ _ _ _ _ _ _ _ _ _ H).
Qed.

End Sessionless.

Section Admission.
Import Runtime Environment Providers Messages Json Scenarios.

Lemma chat_completions_stream_run env payload rid key w :
  chat_completions_stream env payload rid key w
  = (Ok (StreamingResponse
           (_stream_with_timeout
              (sse_gen env
                 (mkChatRequest
                    (if Py.startswith "openai:" (model payload) then model payload
                     else "openai:" ++ model payload)
                    (List.map (fun m => mkChatMessage (role m) (content m))
                       (messages payload))
                    (max_tokens payload) true)
                 (or_public key) rid) 300)),
     RateLimit.take_slot (or_public key) w).
Proof.
  unfold chat_completions_stream, RateLimit.get_limiter, RateLimit.acquire.
  unfold bind, modify, ret, RateLimit.take_slot.
  destruct (limiters w !! or_public key) as [n|] eqn:E.
  - cbn. rewrite E. reflexivity.
  - cbn. rewrite lookup_insert_eq, insert_insert_eq.
    replace (set_limiters _ (set_limiters _ w))
      with (set_limiters (<[or_public key:=S (default 0%nat None)]> (limiters w)) w)
      by (destruct w; reflexivity).
    reflexivity.
Qed.

(** X26: a streamed request on the OpenAI-compatible route takes one slot of
    the caller's limiter and leaves the conversations, the stored messages
    and the idempotency store as they were. *)
Theorem openai_stream_leaves_stores_alone env payload rid key w r w' :
  deliver (chat_completions_stream env payload rid key) w = (r, w') ->
  conversations w' = conversations w
  /\ chat_messages w' = chat_messages w
  /\ cache w' = cache w
  /\ limiters w'
     = <[or_public key := S (default 0%nat (limiters w !! or_public key))]> (limiters w).
Proof.
  intros H. unfold deliver in H. unfold bind at 1 in H.
  rewrite chat_completions_stream_run in H.
  assert (R : forall {B} (g : World -> B),
            (forall t x, g (set_now t x) = g x) ->
            (forall d x, g (set_deadline d x) = g x) ->
            (forall n x, g (set_upstream_calls n x) = g x) ->
            (forall b x, g (set_breaker b x) = g x) ->
            (forall l x, g (set_log l x) = g x) ->
            (forall l x, g (set_usage_posts l x) = g x) ->
            g w' = g (RateLimit.take_slot (or_public key) w)).
  { intros B g g1 g2 g3 g4 g5 g6.
    match type of H with ?m _ = _ => assert (R : respects (keeps g) m) end.
    { repeat (apply keeps_stream_with_timeout || apply keeps_sse_gen || keeps_step);
        assumption. }
    exact (R _ _ _ H). }
  repeat split; (rewrite R; [reflexivity | intros; reflexivity ..]).
Qed.

Lemma openai_stream_leaves_stores_alone_witness :
  chat_messages
    (snd (deliver (chat_completions_stream env_broken_stream hello_stream "req-2"
                     (Some "alice")) alice_world))
  = chat_messages alice_world.
Proof.
  destruct (openai_stream_leaves_stores_alone env_broken_stream hello_stream "req-2"
              (Some "alice") alice_world
              (fst (deliver (chat_completions_stream env_broken_stream hello_stream
                               "req-2" (Some "alice")) alice_world))
              (snd (deliver (chat_completions_stream env_broken_stream hello_stream
                               "req-2" (Some "alice")) alice_world)))
    as (_ & H & _).
  - destruct (deliver _ alice_world). reflexivity.
  - exact H.
Defined.

(** X27: a request handled without a session (the buffered branch of the
    OpenAI-compatible route) leaves the conversations and the stored
    messages as they were, whatever the upstream answers. *)
Theorem sessionless_request_leaves_database_alone env payload api_key idem rid w r w' :
  deliver (_canonical_handler env payload api_key idem rid None) w = (r, w') ->
  conversations w' = conversations w
  /\ chat_messages w' = chat_messages w
  /\ next_uuid w' = next_uuid w.
Proof.
  intros H.
  apply delivered_after_slot in H as [(c & _ & ->) | H]; [repeat split | ].
  assert (R : forall {B} (g : World -> B),
            (forall t x, g (set_now t x) = g x) ->
            (forall d x, g (set_deadline d x) = g x) ->
            (forall n x, g (set_upstream_calls n x) = g x) ->
            (forall b x, g (set_breaker b x) = g x) ->
            (forall l x, g (set_log l x) = g x) ->
            (forall l x, g (set_usage_posts l x) = g x) ->
            (forall c x, g (set_cache c x) = g x) ->
            g w' = g (RateLimit.take_slot api_key w)).
  { intros B g g1 g2 g3 g4 g5 g6 g7.
    exact (keeps_delivered_sessionless g g1 g2 g3 g4 g5 g6 g7 _ _ _ _ _ _ _ _ H). }
  repeat split; (rewrite R; [reflexivity | intros; reflexivity ..]).
Qed.

Lemma sessionless_request_leaves_database_alone_witness :
  chat_messages
    (snd (deliver (_canonical_handler env_buffered hello_buffered "alice" None "req-2"
                     None) alice_world))
  = chat_messages alice_world.
Proof.
  destruct (sessionless_request_leaves_database_alone env_buffered hello_buffered
              "alice" None "req-2" alice_world
              (fst (deliver (_canonical_handler env_buffered hello_buffered "alice"
                               None "req-2" None) alice_world))
              (snd (deliver (_canonical_handler env_buffered hello_buffered "alice"
                               None "req-2" None) alice_world)))
    as (_ & H & _).
  - destruct (deliver _ alice_world). reflexivity.
  - exact H.
Defined.

(** X28: every request on the canonical route, whether it is answered from
    the idempotency store, executed, streamed or fails, takes exactly one
    slot of the limiter of its API key (["public"] when the header is
    missing or empty) and touches no other limiter. *)
Theorem every_request_takes_one_slot env payload rid idem key w r w' :
  deliver (create_message env payload rid idem key) w = (r, w') ->
  limiters w'
  = <[or_public key := S (default 0%nat (limiters w !! or_public key))]> (limiters w).
Proof.
  intros H. unfold create_message in H.
  apply delivered_after_slot in H as [(c & _ & ->) | H]; [reflexivity | ].
  apply (keeps_delivered_fresh limiters) in H; [exact H | intros; reflexivity ..].
Qed.

Lemma every_request_takes_one_slot_witness :
  limiters (snd (deliver (create_message env_buffered hello_buffered "req-2" None None)
                   alice_world))
  = <["public" := 1%nat]> (limiters alice_world).
Proof.
  apply (every_request_takes_one_slot env_buffered hello_buffered "req-2" None None
           alice_world
           (fst (deliver (create_message env_buffered hello_buffered "req-2" None None)
                   alice_world))).
  destruct (deliver _ alice_world). reflexivity.
Defined.

End Admission.

(** ** Instances of the refusal and of the single attempt *)

Section Instances.
Import Runtime Environment Providers Messages Conversations Json Scenarios.

Lemma foreign_key_is_refused_witness :
  get_conversation_history env_buffered "0" (Some "mallory") alice_world
  = (Raise (HTTPException 403 "Access denied to this conversation"), alice_world)
  /\ update_conversation_title env_buffered "0" "taken" (Some "mallory") alice_world
     = (Raise (HTTPException 403 "Access denied to this conversation"), alice_world)
  /\ delete_conversation_endpoint env_buffered "0" (Some "mallory") alice_world
     = (Raise (HTTPException 403 "Access denied to this conversation"), alice_world).
Proof.
  apply (foreign_key_is_refused env_buffered "0" 0%N
           (mkConversation 0%N (Some "hello") (Some "5") 0 40) "5" (Some "mallory")
           "taken" alice_world).
  - reflexivity.
  - vm_compute. reflexivity.
  - reflexivity.
  - reflexivity.
  - vm_compute. discriminate.
Defined.

Lemma stream_is_attempted_once_witness :
  (upstream_calls (snd (provider_chunks env_flaky_connect broken_request fresh_world))
   <= 1)%nat.
Proof.
  destruct (stream_is_attempted_once env_flaky_connect broken_request fresh_world
              (fst (provider_chunks env_flaky_connect broken_request fresh_world))
              (snd (provider_chunks env_flaky_connect broken_request fresh_world)))
    as (H & _).
  - destruct (provider_chunks _ _ fresh_world). reflexivity.
  - exact H.
Defined.

End Instances.

(** ** The framing of an event *)

Section Framing.
Import Runtime Environment Providers Messages Json Scenarios.

Lemma one_line_app a b : one_line (a ++ b) = one_line a && one_line b.
Proof.
  induction a as [|c a IH]; [reflexivity | ].
  rewrite append_cons. cbn [one_line]. rewrite IH, andb_assoc. reflexivity.
Qed.

Lemma one_line_escape_char e c : one_line (escape_char e c) = true.
Proof. destruct c as [[] [] [] [] [] [] [] []], e; reflexivity. Qed.

Lemma one_line_escape e s : one_line (escape e s) = true.
Proof.
  induction s as [|c s IH]; [reflexivity | ].
  cbn [escape]. rewrite one_line_app, one_line_escape_char, IH. reflexivity.
Qed.

Lemma one_line_quote e s : one_line (quote e s) = true.
Proof.
  unfold quote. rewrite !one_line_app, one_line_escape. reflexivity.
Qed.

Lemma one_line_digit (x : N) : (x < 10)%N -> one_line (String (pretty_N_char x) "") = true.
Proof.
  intros H.
  assert (x = 0 \/ x = 1 \/ x = 2 \/ x = 3 \/ x = 4 \/ x = 5 \/ x = 6 \/ x = 7
          \/ x = 8 \/ x = 9)%N as Hx by lia.
  repeat (destruct Hx as [-> | Hx]; [reflexivity | ]). subst. reflexivity.
Qed.

Lemma one_line_pretty_go (x : N) : forall s,
  one_line s = true -> one_line (pretty_N_go x s) = true.
Proof.
  induction (N.lt_wf_0 x) as [x _ IH]. intros s Hs.
  destruct (N.eq_dec x 0%N) as [-> | Hx].
  - rewrite pretty_N_go_0. exact Hs.
  - rewrite pretty_N_go_step by lia.
    apply IH; [apply N.div_lt; lia | ].
    change (String (pretty_N_char (x mod 10)) s)
      with (String (pretty_N_char (x mod 10)) "" ++ s).
    rewrite one_line_app, one_line_digit, Hs; [reflexivity | apply N.mod_lt; lia].
Qed.

Lemma one_line_pretty_N (x : N) : one_line (pretty x) = true.
Proof.
  unfold pretty, pretty_N. destruct (decide (x = 0%N)); [reflexivity | ].
  apply one_line_pretty_go. reflexivity.
Qed.

Lemma one_line_pretty_Z (z : Z) : one_line (pretty z) = true.
Proof.
  destruct z as [|p|p].
  - reflexivity.
  - apply (one_line_pretty_N (Npos p)).
  - change (one_line ("-" ++ pretty (Npos p)) = true).
    rewrite one_line_app, one_line_pretty_N. reflexivity.
Qed.

Lemma one_line_dumps o :
  one_line (item_separator o) = true -> one_line (key_separator o) = true ->
  forall v, one_line (dumps o v) = true.
Proof.
  intros Hi Hk.
  assert (H : forall n v, (size v < n)%nat -> one_line (dumps o v) = true).
  { induction n as [|n IH]; intros v Hv; [lia | ].
    destruct v as [|[]|z|s|items|members]; try reflexivity.
    - apply one_line_pretty_Z.
    - apply one_line_quote.
    - rewrite dumps_arr, !one_line_app. rewrite size_arr in Hv.
      assert (G : one_line (dumps_items o items) = true).
      { induction items as [|x items IHi]; [reflexivity | ].
        cbn [size_items] in Hv.
        destruct items as [|y items].
        - cbn [dumps_items]. apply IH. lia.
        - change (one_line (dumps o x ++ item_separator o
                            ++ dumps_items o (y :: items)) = true).
          rewrite !one_line_app, Hi, IH, IHi by lia. reflexivity. }
      rewrite G. reflexivity.
    - rewrite dumps_obj, !one_line_app. rewrite size_obj in Hv.
      assert (G : one_line (dumps_members o members) = true).
      { induction members as [|[k x] members IHm]; [reflexivity | ].
        cbn [size_members] in Hv.
        destruct members as [|[k' y] members].
        - cbn [dumps_members]. rewrite !one_line_app, one_line_quote, Hk, IH by lia.
          reflexivity.
        - change (one_line (quote (ensure_ascii o) k ++ key_separator o ++ dumps o x
                            ++ item_separator o
                            ++ dumps_members o ((k', y) :: members)) = true).
          rewrite !one_line_app, one_line_quote, Hk, Hi, IH, IHm by lia.
          reflexivity. }
      rewrite G. reflexivity. }
  intros v. apply (H (S (size v))). lia.
Qed.

(** X29: an event written by [_sse_format] is the prefix [data: ], a
    payload without any control character (no line feed, no carriage return,
    whatever the text of a chunk contains), and the closing blank line. *)
Theorem sse_event_is_one_line data :
  exists payload,
    _sse_format data = "data: " ++ payload ++ Py.nl ++ Py.nl
    /\ one_line payload = true.
Proof.
  exists (dumps sse_opts data). split; [reflexivity | ].
  apply one_line_dumps; reflexivity.
Qed.

End Framing.

(** ** A buffered request, from the route to the stored reply *)

Section Buffered.
Import Runtime Environment Providers Messages Json Scenarios.

Lemma send_usage_completes env payload w :
  deadline w = NoDeadline ->
  exists w', UsageCallback.send_usage env payload w = (Ok tt, w').
Proof.
  intros Hd.
  unfold UsageCallback.send_usage, UsageCallback.post.
  unfold bind at 1. unfold modify at 1.
  set (w0 := set_usage_posts _ w).
  assert (Hd0 : deadline w0 = NoDeadline) by exact Hd. clearbody w0.
  destruct (Py.truthy_opt (USAGE_CALLBACK_URL (settings env))); cbn [negb];
    [ | eexists; reflexivity].
  unfold try_except, bind, await_, logger, modify, ret, raise. cbv zeta.
  cbv beta. rewrite Hd0.
  destruct (post_ok (collector env)); cbn; eexists; reflexivity.
Qed.

Lemma generate_closed env req w :
  state (breaker w) = Closed ->
  generate env req w = (Ok (generate_body env req), set_breaker (mkBreaker 0 Closed) w).
Proof. intros Hc. unfold generate, retry. apply retrying_closed, Hc. Qed.

Lemma generate_body_completes env req w d resp choice others :
  deadline w = NoDeadline ->
  upstream_completion env (upstream_calls w) = Completes d resp ->
  rc_choices resp = choice :: others ->
  generate_body env req w
  = (Ok (mkFull (rc_id resp) (rc_model resp) (now w / 1000)
           (or_empty (ch_content choice)) (ch_finish_reason choice)
           (Some (usage_of (rc_usage resp)))),
     set_now (now w + Z.of_N d) (set_upstream_calls (S (upstream_calls w)) w)).
Proof.
  intros Hd Hup Hch.
  unfold generate_body, next_upstream_call, time_ms.
  unfold bind at 1 2 3 4. unfold gets, modify, ret. cbn beta iota.
  unfold complete. rewrite Hup. unfold bind, await_. cbn [deadline set_upstream_calls].
  rewrite Hd, Hch. reflexivity.
Qed.

Lemma record_incoming_fresh env payload normalized api_key rid w :
  db_budget w = None ->
  Crud.supply_fresh w ->
  requested_conversation env payload w = None ->
  exists c c' w',
    record_incoming env payload normalized api_key rid w
    = (Ok (Some c, Some (next_uuid w)), w')
    /\ c_id c = next_uuid w
    /\ db_budget w' = None
    /\ conversations w' !! next_uuid w = Some c'
    /\ Crud.stored_under (next_uuid w) w'
       = List.map (fun m => (role m, content m)) (messages payload).
Proof.
  intros Hb [Hfresh Hnone] Hreq.
  unfold record_incoming. unfold bind at 1. rewrite lookup_requested_run, Hreq.
  unfold bind at 1. rewrite create_conversation_run by assumption.
  set (c := mkConversation _ _ _ _ _).
  match goal with |- context [bind (for_each _ _) _ ?W] => set (w1 := W) end.
  destruct (store_all (c_id c) normalized rid (messages payload) w1 c)
    as (w' & c' & Hrun & Hb' & Hc' & _ & Hst).
  - assumption.
  - subst w1 c. cbn. apply lookup_insert_eq.
  - exists c, c', w'. unfold bind. rewrite Hrun. cbn [ret].
    split; [reflexivity | ]. split; [reflexivity | ]. split; [exact Hb' | ].
    split; [exact Hc' | ].
    change (c_id c) with (next_uuid w) in Hst. rewrite Hst.
    subst w1 c. unfold Crud.stored_under. cbn. rewrite Hnone. reflexivity.
Qed.

(** X30: a buffered request on the canonical route that names no existing
    conversation is answered, when the database is healthy, no deadline is
    armed, the breaker is closed and the upstream answers, with a body that
    carries the upstream's text and the id of a new conversation; the
    incoming messages and then the assistant's reply are stored under that
    conversation, in order, and the upstream has been called once. *)
Theorem buffered_request_is_answered_and_recorded
    env payload rid key w d resp choice others :
  stream payload = false ->
  requested_conversation env payload w = None ->
  db_budget w = None ->
  Crud.supply_fresh w ->
  deadline w = NoDeadline ->
  state (breaker w) = Closed ->
  upstream_completion env (upstream_calls w) = Completes d resp ->
  rc_choices resp = choice :: others ->
  exists body w',
    create_message env payload rid None key w = (Ok (JSONResponse (JObj body)), w')
    /\ dict_get "content" body = Some (JStr (or_empty (ch_content choice)))
    /\ dict_get "conversation_id" body = Some (JStr (uuid_str env (next_uuid w)))
    /\ Crud.stored_under (next_uuid w) w'
       = (List.map (fun m => (role m, content m)) (messages payload)
          ++ [("assistant", or_empty (ch_content choice))])%list
    /\ upstream_calls w' = S (upstream_calls w).
Proof.
  intros Hs Hreq Hb Hfresh Hd Hc Hup Hch.
  unfold create_message. rewrite canonical_handler_under_limiter.
  unfold bind at 1. unfold cached_response. cbn [Py.truthy_opt andb]. unfold ret at 1.
  set (w0 := RateLimit.take_slot (or_public key) w).
  unfold handle_fresh. unfold bind at 1.
  destruct (record_incoming_fresh env payload (resolve_provider (model payload))
              (or_public key) rid w0)
    as (c & c' & w2 & Hrec & Hcid & Hb2 & Hc2 & Hst2);
    [exact Hb | exact Hfresh | exact Hreq | ].
  change (next_uuid w0) with (next_uuid w) in *.
  pose proof (calm_record_incoming _ _ _ _ _ _ _ _ Hrec) as (_ & _ & Hu2 & Hbr2).
  pose proof (keeps_record_incoming deadline
                ltac:(reflexivity) ltac:(reflexivity) ltac:(reflexivity)
                ltac:(reflexivity) _ _ _ _ _ _ _ _ Hrec) as Hd2.
  unfold keeps in Hd2. cbn in Hu2, Hbr2, Hd2.
  rewrite Hrec. rewrite Hs. unfold buffered_path.
  unfold bind at 1. unfold time_ms at 1, gets at 1.
  unfold bind at 1. rewrite generate_closed by (rewrite Hbr2; exact Hc).
  unfold bind at 1.
  rewrite (generate_body_completes env _ _ d resp choice others);
    [ | cbn; congruence | cbn; rewrite Hu2; exact Hup | exact Hch].
  unfold bind at 1. unfold bind at 1. unfold time_ms at 1, gets at 1.
  unfold bind at 1.
  rewrite create_chat_message_run by exact Hb2.
  cbn [ret]. unfold bind at 1. unfold ret at 1.
  unfold bind at 1. cbn [Py.truthy_opt when]. unfold ret at 1.
  unfold time_ms at 1, gets at 1. cbv beta iota.
  unfold bind at 1.
  match goal with
  | |- context [UsageCallback.send_usage env ?p ?W] =>
      destruct (send_usage_completes env p W) as (w' & Hsend);
        [repeat match goal with
                | |- context [match ?x with _ => _ end] => destruct x
                end; cbn; congruence | ];
      pose proof (keeps_send_usage chat_messages
                    ltac:(reflexivity) ltac:(reflexivity) ltac:(reflexivity)
                    ltac:(reflexivity) _ _ _ _ _ Hsend) as Hm;
      pose proof (calm_send_usage _ _ _ _ _ Hsend) as (_ & _ & Hu & _);
      rewrite Hsend
  end.
  unfold ret. eexists _, w'. split; [reflexivity | ].
  split; [reflexivity | ]. split; [reflexivity | ].
  unfold keeps in Hm. split.
  - unfold Crud.stored_under. rewrite Hm. cbn [chat_messages set_chat_messages].
    rewrite List.filter_app, List.map_app. cbn [List.filter List.map].
    unfold Crud.in_conversation at 2. cbn [m_conversation_id].
    rewrite Hcid, N.eqb_refl. cbn [List.map m_role m_content res_content].
    unfold Crud.stored_under in Hst2.
    change (chat_messages (set_now _ (set_upstream_calls _ (set_breaker _ w2))))
      with (chat_messages w2).
    rewrite Hst2. reflexivity.
  - rewrite Hu.
    repeat match goal with
           | |- context [match ?x with _ => _ end] => destruct x
           end; cbn; congruence.
Qed.

Lemma buffered_request_is_answered_and_recorded_witness :
  exists body w',
    create_message env_buffered hello_buffered "req-1" None (Some "alice") fresh_world
    = (Ok (JSONResponse (JObj body)), w')
    /\ dict_get "content" body = Some (JStr "Hello!")
    /\ dict_get "conversation_id" body = Some (JStr "0")
    /\ Crud.stored_under 0%N w' = [("user", "hello"); ("assistant", "Hello!")].
Proof.
  destruct (buffered_request_is_answered_and_recorded env_buffered hello_buffered
              "req-1" (Some "alice") fresh_world 40 completion
              (mkRawChoice (Some "Hello!") (Some "stop")) [])
    as (body & w' & H & H1 & H2 & H3 & _).
  - reflexivity.
  - reflexivity.
  - reflexivity.
  - split; reflexivity.
  - reflexivity.
  - reflexivity.
  - reflexivity.
  - reflexivity.
  - exists body, w'. split; [exact H | ]. split; [exact H1 | ].
    split; [exact H2 | exact H3].
Defined.

End Buffered.
